(** * sparql-naturalizer: retrieval-and-repair pipeline

    A shallow embedding of the retrieval service ([vectorStoreService]) and of
    the response sanitizer ([cleanSparqlResponse] of the generate-sparql route),
    with the properties of the specification stated over it.  Further parts
    embed the tokenizer, the parser of the examples file, the language-model
    service and the two handlers of the route, with properties read off
    their code.

    JavaScript strings are sequences of UTF-16 code units; they are modelled
    as lists of code units so that [trim], [\s] and [\d] keep their exact
    ECMAScript meaning.  JavaScript numbers are IEEE-754 binary64 values:
    the code is written over the class [Number] of the arithmetic it uses
    and runs on the instance of the primitive floats of the standard
    library; the asynchronous functions thread the module-level variables
    of the service through a state-and-exception monad. *)

From Stdlib Require Import List Bool Arith NArith ZArith Lia String Ascii.
From Stdlib Require Import Sorting.Sorted Permutation.
From Stdlib Require Import Floats.
From Stdlib Require Import Reals Lra.
Import ListNotations.

Set Implicit Arguments.

(* ================================================================== *)
(** * JavaScript strings *)
(* ================================================================== *)

Module JsString.

(** A UTF-16 code unit. *)
Definition char16 := N.
Definition jstring := list char16.

(** The code units of an ASCII literal. *)
Fixpoint js (s : string) : jstring :=
  match s with
  | EmptyString => []
  | String c r => N_of_ascii c :: js r
  end.

Definition nl : jstring := [10%N].

Definition jstring_eqb (a b : jstring) : bool :=
  if list_eq_dec N.eq_dec a b then true else false.

(** Strict equality of two optional strings ([None] is [undefined]). *)
Definition option_jstring_eqb (a b : option jstring) : bool :=
  match a, b with
  | Some x, Some y => jstring_eqb x y
  | None, None => true
  | _, _ => false
  end.

(** ECMAScript WhiteSpace and LineTerminator code points: the set removed by
    [String.prototype.trim] and matched by the regular-expression class [\s]. *)
Definition is_space (c : char16) : bool :=
  ((9 <=? c) && (c <=? 13) || (c =? 32) || (c =? 160) || (c =? 5760)
   || (8192 <=? c) && (c <=? 8202) || (c =? 8232) || (c =? 8233)
   || (c =? 8239) || (c =? 8287) || (c =? 12288) || (c =? 65279))%N.

(** The class [\d]. *)
Definition is_digit (c : char16) : bool := ((48 <=? c) && (c <=? 57))%N.

Fixpoint dropWhile (p : char16 -> bool) (s : jstring) : jstring :=
  match s with
  | [] => []
  | c :: r => if p c then dropWhile p r else s
  end.

Fixpoint takeWhile (p : char16 -> bool) (s : jstring) : jstring :=
  match s with
  | [] => []
  | c :: r => if p c then c :: takeWhile p r else []
  end.

Definition trimStart (s : jstring) : jstring := dropWhile is_space s.
Definition trimEnd (s : jstring) : jstring := rev (dropWhile is_space (rev s)).
Definition trim (s : jstring) : jstring := trimEnd (trimStart s).

(** [starts_with p s]: [s] begins with the literal [p] (case-sensitive). *)
Fixpoint starts_with (p s : jstring) : bool :=
  match p, s with
  | [], _ => true
  | a :: p', b :: s' => (a =? b)%N && starts_with p' s'
  | _ :: _, [] => false
  end.

(** [String.prototype.indexOf]: [None] stands for -1. *)
Fixpoint indexOf (p s : jstring) : option nat :=
  if starts_with p s then Some 0
  else match s with
       | [] => None
       | _ :: r => option_map S (indexOf p r)
       end.

Definition includes (p s : jstring) : bool :=
  match indexOf p s with Some _ => true | None => false end.

(** [s.substring(i)] for [0 <= i <= length s]. *)
Definition substring_from (i : nat) (s : jstring) : jstring := skipn i s.

Definition count_char (c : char16) (s : jstring) : nat :=
  count_occ N.eq_dec s c.

End JsString.
Import JsString.

(* ================================================================== *)
(** * The regular expressions of the sanitizer *)
(* ================================================================== *)

Module Regex.

(** A matcher tries to match at the head of its argument and returns the
    length of the match. *)
Definition matcher := jstring -> option nat.

(** Case-insensitive comparison of an input code unit with an upper-case
    ASCII letter of the pattern.  Without the [u] flag the [i] flag
    canonicalises with [toUpperCase] and never maps a non-ASCII code unit
    to an ASCII one, so only the two ASCII cases of the letter match. *)
Definition eq_ci (pat c : char16) : bool := ((c =? pat) || (c =? pat + 32))%N.

(** [kw] (upper-case ASCII letters) matched under the [i] flag. *)
Fixpoint starts_with_ci (kw s : jstring) : bool :=
  match kw, s with
  | [], _ => true
  | a :: kw', b :: s' => eq_ci a b && starts_with_ci kw' s'
  | _ :: _, [] => false
  end.

Definition LIMIT : jstring := js "LIMIT".
Definition PREFIX : jstring := js "PREFIX".
Definition SELECT : jstring := js "SELECT".

(** [/LIMIT\s+\d+/i] at the head of [s].  Both quantifiers are greedy and
    the classes [\s] and [\d] are disjoint, so backtracking never finds a
    match that the maximal runs miss. *)
Definition limit_len (s : jstring) : option nat :=
  if starts_with_ci LIMIT s then
    let r := skipn 5 s in
    let ws := takeWhile is_space r in
    let ds := takeWhile is_digit (skipn (List.length ws) r) in
    match ws, ds with
    | _ :: _, _ :: _ => Some (5 + List.length ws + List.length ds)
    | _, _ => None
    end
  else None.

(** [/[\s\S]*?LIMIT\s+\d+/i] at the head of [s]: the lazy star extends one
    code unit at a time until the limit clause matches. *)
Fixpoint lazy_limit_len (s : jstring) : option nat :=
  match limit_len s with
  | Some n => Some n
  | None => match s with
            | [] => None
            | _ :: r => option_map S (lazy_limit_len r)
            end
  end.

(** [/KW[\s\S]*?LIMIT\s+\d+/i] at the head of [s]. *)
Definition kw_to_limit_len (kw : jstring) (s : jstring) : option nat :=
  if starts_with_ci kw s
  then option_map (Nat.add (List.length kw)) (lazy_limit_len (skipn (List.length kw) s))
  else None.

(** [/\s*LIMIT\s+\d+/i] at the head of [s]. *)
Definition ws_limit_len (s : jstring) : option nat :=
  let ws := takeWhile is_space s in
  option_map (Nat.add (List.length ws)) (limit_len (skipn (List.length ws) s)).

(** [/^.../]: only position 0 is tried; the matched text is returned. *)
Definition match_anchored (m : matcher) (s : jstring) : option jstring :=
  option_map (fun n => firstn n s) (m s).

(** Leftmost match of an unanchored expression: its position and length. *)
Fixpoint search (m : matcher) (s : jstring) : option (nat * nat) :=
  match m s with
  | Some n => Some (0, n)
  | None => match s with
            | [] => None
            | _ :: r => option_map (fun '(i, n) => (S i, n)) (search m r)
            end
  end.

(** [s.match(re)[0]] for a non-global expression. *)
Definition match_first (m : matcher) (s : jstring) : option jstring :=
  option_map (fun '(i, n) => firstn n (skipn i s)) (search m s).

(** [s.replace(re, '')] for a global expression whose matches are never
    empty: [skip] counts the code units of the current match still to drop. *)
Fixpoint remove_all_from (m : matcher) (skip : nat) (s : jstring) : jstring :=
  match s with
  | [] => []
  | c :: r =>
      match skip with
      | S k => remove_all_from m k r
      | O => match m s with
             | Some (S k) => remove_all_from m k r
             | _ => c :: remove_all_from m 0 r
             end
      end
  end.

Definition remove_all (m : matcher) (s : jstring) : jstring :=
  remove_all_from m 0 s.

(** A literal followed by an optional line feed: [/lit\n?/]. *)
Definition lit_opt_nl (lit : jstring) : matcher := fun s =>
  if starts_with lit s then
    match skipn (List.length lit) s with
    | 10%N :: _ => Some (S (List.length lit))
    | _ => Some (List.length lit)
    end
  else None.

Definition fence : jstring := js "```".
Definition fence_sparql : jstring := js "```sparql".

End Regex.
Import Regex.

(* ================================================================== *)
(** * The response sanitizer *)
(* ================================================================== *)

Definition requiredPrefixes : jstring :=
  js "PREFIX dcat: <http://www.w3.org/ns/dcat#>" ++ nl ++
  js "PREFIX dct: <http://purl.org/dc/terms/>" ++ nl ++
  js "PREFIX foaf: <http://xmlns.com/foaf/0.1/>" ++ nl ++ nl.

Definition open_brace : char16 := 123%N.
Definition close_brace : char16 := 125%N.

(** The non-global [replace] of the first match of optional white space
    followed by a limit clause with a line feed, a closing brace and the two
    captured groups: the replacement re-emits the whole match, so the two
    code units are inserted at the position of the leftmost match; without
    a match nothing changes. *)
Definition insert_closing_brace (s : jstring) : jstring :=
  match search ws_limit_len s with
  | Some (i, _) => firstn i s ++ nl ++ [close_brace] ++ skipn i s
  | None => s
  end.

Definition cleanSparqlResponse (response : jstring) : jstring :=
  let sparql := trim response in
  let sparql := remove_all (lit_opt_nl fence) (remove_all (lit_opt_nl fence_sparql) sparql) in
  let sparql :=
    match match_first (kw_to_limit_len PREFIX) sparql with
    | Some m => trim m
    | None =>
        match match_first (kw_to_limit_len SELECT) sparql with
        | Some m => trim m
        | None => sparql
        end
    end in
  let sparql :=
    match indexOf PREFIX sparql with
    | Some (S i) => substring_from (S i) sparql
    | _ => sparql
    end in
  let sparql :=
    match match_anchored lazy_limit_len sparql with
    | Some m => m
    | None => sparql
    end in
  let sparql :=
    if negb (includes PREFIX sparql) then requiredPrefixes ++ sparql else sparql in
  let openBraces := count_char open_brace sparql in
  let closeBraces := count_char close_brace sparql in
  if closeBraces <? openBraces then insert_closing_brace sparql else sparql.

(** A completion with a limit clause and two unclosed braces. *)
Definition two_open_raw : jstring :=
  js "SELECT ?s WHERE { { ?s ?p ?o LIMIT 5".

(** ** Well-formed sanitizer input *)

(** The text starts with a prefix declaration. *)
Definition starts_with_prefix (x : jstring) : bool := starts_with PREFIX x.

(** The text ends in a limit clause: a limit clause starts at some position
    and reaches the end of the text. *)
Definition ends_in_limit_clause (x : jstring) : bool :=
  existsb (fun i => match limit_len (skipn i x) with
                    | Some n => i + n =? List.length x
                    | None => false
                    end)
          (seq 0 (List.length x)).

Definition brace_balanced (x : jstring) : bool :=
  count_char open_brace x =? count_char close_brace x.

(** The first limit clause of the text is the one the text ends in, so the
    text holds a single limit clause. *)
Definition single_final_limit_clause (x : jstring) : bool :=
  match lazy_limit_len x with
  | Some n => n =? List.length x
  | None => false
  end.

(** The part of the text that ends with its first limit clause (the whole
    text when it holds none): the sanitizer keeps nothing behind it. *)
Definition first_statement (x : jstring) : jstring :=
  match lazy_limit_len x with
  | Some n => firstn n x
  | None => x
  end.

(** The number of opening braces that have no closing brace. *)
Definition unclosed_braces (s : jstring) : nat :=
  count_char open_brace s - count_char close_brace s.

(** A well-formed query with a sub-query: two limit clauses. *)
Definition subquery_raw : jstring :=
  js "PREFIX dcat: <http://www.w3.org/ns/dcat#> SELECT ?d WHERE { { SELECT ?d WHERE { ?d a dcat:Dataset } LIMIT 5 } } LIMIT 10".

(** A text that is well-formed as it stands, with a code-fence marker in
    the middle of a word: once the marker is removed the text holds a
    second limit clause. *)
Definition fenced_raw : jstring :=
  js "PREFIX dcat: <http://www.w3.org/ns/dcat#> SELECT ?d WHERE { { ?d a dcat:Dataset LIM```IT 5 } } LIMIT 10".

(** A well-formed text with two limit clauses whose first part leaves one
    brace open. *)
Definition one_open_raw : jstring :=
  js "PREFIX dcat: <http://www.w3.org/ns/dcat#> SELECT ?d WHERE { ?d a dcat:Dataset LIMIT 5 } LIMIT 10".

(** A well-formed query with a single limit clause. *)
Definition simple_raw : jstring :=
  js "PREFIX dcat: <http://www.w3.org/ns/dcat#> SELECT ?d WHERE { ?d a dcat:Dataset } LIMIT 100".

(** The scenario of the specification: prose, a fenced block, no prefixes,
    no limit clause and one unclosed brace. *)
Definition scenario_raw : jstring :=
  js "Here you go:" ++ nl ++ js "```sparql" ++ nl ++
  js "SELECT ?d WHERE { ?d a Dataset" ++ nl ++ js "```".

(* ================================================================== *)
(** * JavaScript numbers *)
(* ================================================================== *)

(** The arithmetic the retrieval code performs on numbers.  The instance
    the program runs on is [float_Number] (IEEE-754 binary64, as computed by
    the engine); [R_Number] is exact real arithmetic, used to state what
    the formulas mean when no rounding, overflow or NaN is involved. *)
Class Number (num : Type) := {
  nzero : num;
  nadd : num -> num -> num;
  nsub : num -> num -> num;
  nmul : num -> num -> num;
  ndiv : num -> num -> num;
  nsqrt : num -> num;
  nltb : num -> num -> bool;
  nleb : num -> num -> bool
}.

#[export] Instance float_Number : Number float := {|
  nzero := 0%float;
  nadd := PrimFloat.add;
  nsub := PrimFloat.sub;
  nmul := PrimFloat.mul;
  ndiv := PrimFloat.div;
  nsqrt := PrimFloat.sqrt;
  nltb := PrimFloat.ltb;
  nleb := PrimFloat.leb
|}.

#[export] Instance R_Number : Number R := {|
  nzero := 0%R;
  nadd := Rplus;
  nsub := Rminus;
  nmul := Rmult;
  ndiv := Rdiv;
  nsqrt := sqrt;
  nltb := fun a b => if Rlt_dec a b then true else false;
  nleb := fun a b => if Rle_dec a b then true else false
|}.

(** Exceptions raised inside the retrieval service. *)
Inductive exn : Type :=
| VectorLengthMismatch   (* Error('Vectors must have the same length') *)
| ProviderError          (* the embeddings model cannot be built or rejects *)
| StoreUnreadable        (* readFileSync or JSON.parse failed *)
| TypeError.             (* a property of undefined was read *)

Inductive result (A : Type) : Type :=
| Ok (a : A)
| Throw (e : exn).
Arguments Ok {A} a.
Arguments Throw {A} e.

Section Cosine.
Context {num : Type} {NumOps : Number num}.

(** [a.reduce((sum, val, i) => sum + val * b[i], 0)] for [b] as long as [a]. *)
Definition dotProduct (a b : list num) : num :=
  fold_left (fun sum p => nadd sum (nmul (fst p) (snd p))) (combine a b) nzero.

(** [a.reduce((sum, val) => sum + val ** 2, 0)]; the square is the product
    of the value with itself. *)
Definition sumSquares (a : list num) : num :=
  fold_left (fun sum val => nadd sum (nmul val val)) a nzero.

Definition magnitude (a : list num) : num := nsqrt (sumSquares a).

Definition cosineSimilarity (a b : list num) : result num :=
  if negb (List.length a =? List.length b) then Throw VectorLengthMismatch
  else Ok (ndiv (dotProduct a b) (nmul (magnitude a) (magnitude b))).

End Cosine.

(** [array.slice(0, k)]: a negative [k] counts from the end. *)
Definition slice0 {A : Type} (k : Z) (l : list A) : list A :=
  if (k <? 0)%Z then firstn (List.length l - Z.to_nat (- k)) l
  else firstn (Z.to_nat k) l.

(* ================================================================== *)
(** * Keyword fallback retriever *)
(* ================================================================== *)

Module KeywordFallback.

Record Example := { query : jstring; sparql : jstring }.

Record KeywordRule := { terms : list jstring; examples : list nat }.

(** The rule table of [getRelevantExamples]; the term with a tilde is
    spelled by its code units. *)
Definition keywords : list KeywordRule :=
  [ {| terms := [js "todos"; js "listar"; js "dame"]; examples := [0] |};
    {| terms := [js "csv"; js "formato"; js "json"; js "xml"]; examples := [1; 6] |};
    {| terms := [js "salud"; js "sanidad"; js "sanitario"]; examples := [2; 5] |};
    {| terms := [js "cuantos"; js "total"; js "count"; js "contar"]; examples := [3] |};
    {| terms := [js "fecha"; [97; 241; 111]%N; js "2023"; js "2024";
                 js "publicado"; js "reciente"]; examples := [4; 8] |};
    {| terms := [js "ministerio"; js "gobierno"; js "organismo"; js "publicador"];
       examples := [5] |};
    {| terms := [js "categoria"; js "tema"; js "medio ambiente"]; examples := [7] |};
    {| terms := [js "licencia"; js "creative commons"]; examples := [9] |} ].

(** [Set<number>.add]: a set iterates in insertion order and ignores an
    element it already holds. *)
Definition set_add (idx : nat) (s : list nat) : list nat :=
  if existsb (Nat.eqb idx) s then s else s ++ [idx].

Section Retriever.

(** [String.prototype.toLowerCase], a built-in of the engine. *)
Variable toLowerCase : jstring -> jstring.
(** The sequence [loadExamples()] returns. *)
Variable allExamples : list Example.

(** The body of [examples.forEach]: an index is added only when in range. *)
Definition add_in_range (selectedIndices : list nat) (idx : nat) : list nat :=
  if idx <? List.length allExamples then set_add idx selectedIndices
  else selectedIndices.

(** One iteration of the loop over the rule table. *)
Definition scan_rule (queryLower : jstring) (selectedIndices : list nat)
    (rule : KeywordRule) : list nat :=
  if existsb (fun term => includes term queryLower) (terms rule)
  then fold_left add_in_range (examples rule) selectedIndices
  else selectedIndices.

(** The indices the query selects, in insertion order: the rules whose
    keyword the lower-cased query includes add their indices, and a query
    that matches no rule adds the first three. *)
Definition selectIndices (query : jstring) : list nat :=
  let queryLower := toLowerCase query in
  let selectedIndices := fold_left (scan_rule queryLower) keywords [] in
  match selectedIndices with
  | [] => set_add 2 (set_add 1 (set_add 0 []))
  | _ :: _ => selectedIndices
  end.

(** An element of the result is [allExamples[idx]]: [None] is the
    [undefined] an out-of-range index reads. *)
Definition getRelevantExamples (query : jstring) (k : Z) : list (option Example) :=
  map (fun idx => nth_error allExamples idx) (slice0 k (selectIndices query)).

End Retriever.

(** Lower-casing of the Basic Latin letters, the part of [toLowerCase]
    that the concrete queries below exercise. *)
Definition ascii_lower (s : jstring) : jstring :=
  map (fun c => if ((65 <=? c) && (c <=? 90))%N then (c + 32)%N else c) s.

End KeywordFallback.

(* ================================================================== *)
(** * Knowledge base: data model and process-wide state *)
(* ================================================================== *)

Section KnowledgeBase.
Context {num : Type} {NumOps : Number num}.

Record DocMetadata := {
  type : jstring;
  category : option jstring;
  difficulty : option jstring;
  source : jstring;
  filePath : jstring
}.

Record Document := {
  id : jstring;
  content : jstring;
  metadata : DocMetadata;
  embedding : option (list num)
}.

Record StoreMetadata := {
  indexed_at : jstring;
  total_documents : Z;
  embedding_model : jstring
}.

Record VectorStore := {
  documents : list Document;
  store_metadata : StoreMetadata
}.

Record RetrievedDocument := {
  document : Document;
  score : num
}.

(** The optional [filter] argument of [searchKnowledgeBase]. *)
Record SearchFilter := {
  filter_type : option jstring;
  filter_category : option jstring;
  filter_difficulty : option jstring
}.

(** The module-level variables of the service, and the trace of the texts
    sent to the embedding provider (a ghost field: it records the calls of
    [model.embedQuery]). *)
Record World := {
  embeddingsModel : bool;                        (* false: still null *)
  embeddingsCache : list (jstring * list num);   (* Map<string, number[]> *)
  vectorStore : option VectorStore;
  embedCalls : list jstring
}.

(** What lies outside the process: the index file as [readFileSync] and
    [JSON.parse] deliver it ([None]: either of them throws), the examples
    that [loadExamples] parses from the examples file (none when it cannot be
    read), whether the configured embeddings model can be constructed, the
    provider's answer to [embedQuery], which may depend on the calls made
    before ([None]: the promise rejects), and the engine's [toLowerCase]. *)
Record Env := {
  storeFile : option VectorStore;
  loadedExamples : list KeywordFallback.Example;
  modelAvailable : bool;
  provider : list jstring -> jstring -> option (list num);
  toLowerCase : jstring -> jstring
}.

(** ** A state-and-exception monad for the asynchronous functions *)

Definition M (A : Type) : Type := World -> result A * World.

Definition ret {A : Type} (a : A) : M A := fun w => (Ok a, w).

Definition throw {A : Type} (e : exn) : M A := fun w => (Throw e, w).

Definition bind {A B : Type} (m : M A) (f : A -> M B) : M B :=
  fun w => match m w with
           | (Ok a, w') => f a w'
           | (Throw e, w') => (Throw e, w')
           end.

Definition try_catch {A : Type} (body : M A) (handler : exn -> M A) : M A :=
  fun w => match body w with
           | (Ok a, w') => (Ok a, w')
           | (Throw e, w') => handler e w'
           end.

Definition lift {A : Type} (r : result A) : M A := fun w => (r, w).

Definition get : M World := fun w => (Ok w, w).
Definition put (w : World) : M unit := fun _ => (Ok tt, w).

(** [Map.prototype.get] and [Map.prototype.set] on the embedding cache: a
    key that is present keeps its place. *)
Fixpoint cache_get (key : jstring) (cache : list (jstring * list num))
  : option (list num) :=
  match cache with
  | [] => None
  | (k, v) :: r => if jstring_eqb k key then Some v else cache_get key r
  end.

Fixpoint cache_set (key : jstring) (value : list num)
    (cache : list (jstring * list num)) : list (jstring * list num) :=
  match cache with
  | [] => [(key, value)]
  | (k, v) :: r =>
      if jstring_eqb k key then (k, value) :: r else (k, v) :: cache_set key value r
  end.

End KnowledgeBase.

Declare Scope monad_scope.
Delimit Scope monad_scope with monad.
Notation "x <- m ;; k" := (bind m (fun x => k))
  (at level 61, m at next level, right associativity) : monad_scope.
Notation "m ;;; k" := (bind m (fun _ => k))
  (at level 61, right associativity) : monad_scope.

Arguments DocMetadata : clear implicits.
Arguments Document : clear implicits.
Arguments VectorStore : clear implicits.
Arguments RetrievedDocument : clear implicits.
Arguments World : clear implicits.
Arguments Env : clear implicits.
Arguments M : clear implicits.

(* ================================================================== *)
(** * Semantic retriever and context aggregator *)
(* ================================================================== *)

Section Retrieval.
Context {num : Type} {NumOps : Number num}.
Variable env : Env num.

Local Open Scope monad_scope.

(** A string used as a condition is true when it is present and not empty. *)
Definition truthy (s : option jstring) : bool :=
  match s with
  | Some (_ :: _) => true
  | _ => false
  end.

(** [loadVectorStore]: the cached store when there is one, else the file;
    a failure to read or parse is caught and yields [null]. *)
Definition loadVectorStore : M num (option (VectorStore num)) :=
  w <- get ;;
  match vectorStore w with
  | Some store => ret (Some store)
  | None =>
      try_catch
        (match storeFile env with
         | Some store =>
             put {| embeddingsModel := embeddingsModel w;
                    embeddingsCache := embeddingsCache w;
                    vectorStore := Some store;
                    embedCalls := embedCalls w |} ;;;
             ret (Some store)
         | None => throw StoreUnreadable
         end)
        (fun _ => ret None)
  end.

(** [getEmbeddingsModel]: built on first use; the constructor may throw. *)
Definition getEmbeddingsModel : M num unit :=
  w <- get ;;
  if embeddingsModel w then ret tt
  else if modelAvailable env then
    put {| embeddingsModel := true;
           embeddingsCache := embeddingsCache w;
           vectorStore := vectorStore w;
           embedCalls := embedCalls w |}
  else throw ProviderError.

(** [model.embedQuery(text)]. *)
Definition embedQuery (text : jstring) : M num (list num) :=
  w <- get ;;
  put {| embeddingsModel := embeddingsModel w;
         embeddingsCache := embeddingsCache w;
         vectorStore := vectorStore w;
         embedCalls := embedCalls w ++ [text] |} ;;;
  match provider env (embedCalls w) text with
  | Some v => ret v
  | None => throw ProviderError
  end.

(** The predicate of [documentsToSearch.filter]. *)
Definition matches_filter (filter : SearchFilter) (doc : Document num) : bool :=
  if truthy (filter_type filter) &&
     negb (option_jstring_eqb (Some (type (metadata doc))) (filter_type filter))
  then false
  else if truthy (filter_category filter) &&
          negb (option_jstring_eqb (category (metadata doc)) (filter_category filter))
  then false
  else if truthy (filter_difficulty filter) &&
          negb (option_jstring_eqb (difficulty (metadata doc)) (filter_difficulty filter))
  then false
  else true.

Definition has_embedding (doc : Document num) : bool :=
  match embedding doc with Some _ => true | None => false end.

(** The callback of [.map]: reading the embedding of a document without
    one is a type error. *)
Definition score_document (queryEmbedding : list num) (doc : Document num)
  : result (RetrievedDocument num) :=
  match embedding doc with
  | Some e =>
      match cosineSimilarity queryEmbedding e with
      | Ok s => Ok {| document := doc; score := s |}
      | Throw x => Throw x
      end
  | None => Throw TypeError
  end.

(** [Array.prototype.map] with a callback that may throw. *)
Fixpoint map_result {A B : Type} (f : A -> result B) (l : list A) : result (list B) :=
  match l with
  | [] => Ok []
  | a :: r =>
      match f a with
      | Throw x => Throw x
      | Ok b => match map_result f r with
                | Ok bs => Ok (b :: bs)
                | Throw x => Throw x
                end
      end
  end.

(** The comparator [(a, b) => b.score - a.score]. *)
Definition by_score_desc (a b : RetrievedDocument num) : num :=
  nsub (score b) (score a).

(** [Array.prototype.sort] is stable; with a consistent comparator its
    result is the one order that stable insertion computes.  An element
    moves behind another only when the comparator value is positive (a NaN
    value counts as zero). *)
Fixpoint insert_by {A : Type} (cmp : A -> A -> num) (x : A) (l : list A) : list A :=
  match l with
  | [] => [x]
  | y :: r => if nltb nzero (cmp x y) then y :: insert_by cmp x r else x :: l
  end.

Definition sort_by {A : Type} (cmp : A -> A -> num) (l : list A) : list A :=
  fold_right (insert_by cmp) [] l.

(** The documents that are scored: those passing the filter and carrying
    an embedding, in index order. *)
Definition candidates (store : VectorStore num) (filter : option SearchFilter)
  : list (Document num) :=
  let documentsToSearch :=
    match filter with
    | Some f => List.filter (matches_filter f) (documents store)
    | None => documents store
    end in
  List.filter has_embedding documentsToSearch.

Definition searchKnowledgeBase (query : jstring) (k : Z)
    (filter : option SearchFilter) : M num (list (RetrievedDocument num)) :=
  store <- loadVectorStore ;;
  match store with
  | None => ret []
  | Some store =>
      match documents store with
      | [] => ret []
      | _ :: _ =>
          try_catch
            (getEmbeddingsModel ;;;
             queryEmbedding <- embedQuery query ;;
             scored <- lift (map_result (score_document queryEmbedding)
                                        (candidates store filter)) ;;
             ret (slice0 k (sort_by by_score_desc scored)))
            (fun _ => ret [])
      end
  end.

Definition searchKnowledgeBaseByType (query : jstring) (type : jstring) (k : Z)
  : M num (list (RetrievedDocument num)) :=
  searchKnowledgeBase query k
    (Some {| filter_type := Some type; filter_category := None;
             filter_difficulty := None |}).

(** [Promise.all] of three calls: each call runs up to its provider request
    in argument order and touches no state afterwards, so the calls are
    threaded through the state in that order; all three run even when one
    rejects, and the first rejection becomes the result. *)
Definition promise_all3 {A : Type} (m1 m2 m3 : M num A) : M num (A * A * A) :=
  fun w =>
    let '(r1, w1) := m1 w in
    let '(r2, w2) := m2 w1 in
    let '(r3, w3) := m3 w2 in
    match r1, r2, r3 with
    | Ok a, Ok b, Ok c => (Ok (a, b, c), w3)
    | Throw x, _, _ => (Throw x, w3)
    | _, Throw x, _ => (Throw x, w3)
    | _, _, Throw x => (Throw x, w3)
    end.

Record ContextMetadata := {
  totalDocs : nat;
  types : list (jstring * nat)     (* Record<string, number>, in key order *)
}.

Record QueryContext := {
  vocabularies : list jstring;
  patterns : list jstring;
  examples : list jstring;
  context_metadata : ContextMetadata
}.

(** [acc[type] = (acc[type] || 0) + 1]. *)
Fixpoint count_type (t : jstring) (acc : list (jstring * nat)) : list (jstring * nat) :=
  match acc with
  | [] => [(t, 1)]
  | (t', n) :: r =>
      if jstring_eqb t' t then (t', S n) :: r else (t', n) :: count_type t r
  end.

Definition getContextForQuery (query : jstring) : M num QueryContext :=
  try_catch
    (found <- promise_all3
                (searchKnowledgeBaseByType query (js "vocabulary") 2)
                (searchKnowledgeBaseByType query (js "pattern") 2)
                (searchKnowledgeBaseByType query (js "example") 3) ;;
     let '(vocabularies, patterns, examples) := found in
     let allDocs := vocabularies ++ patterns ++ examples in
     let typeCount :=
       fold_left (fun acc item => count_type (type (metadata (document item))) acc)
                 allDocs [] in
     ret {| vocabularies := map (fun item => content (document item)) vocabularies;
            patterns := map (fun item => content (document item)) patterns;
            examples := map (fun item => content (document item)) examples;
            context_metadata := {| totalDocs := List.length allDocs;
                                   types := typeCount |} |})
    (fun _ =>
       ret {| vocabularies := []; patterns := []; examples := [];
              context_metadata := {| totalDocs := 0; types := [] |} |}).

(** ** Example selection by embeddings *)

Record ScoredExample := {
  example : KeywordFallback.Example;
  example_score : num;
  idx : nat
}.

(** A callback of [allExamples.map] after its synchronous part: the
    embedding came from the cache, or the provider has been asked. *)
Inductive Pending : Type :=
| Cached (e : list num)
| Asked (r : result (list num)).

(** The synchronous part of a callback.  All callbacks start before any of
    them resumes, so every one of them tests the cache as it was when the
    map started. *)
Definition start_callback (cache : list (jstring * list num))
    (item : nat * KeywordFallback.Example) : M num (nat * KeywordFallback.Example * Pending) :=
  match cache_get (KeywordFallback.query (snd item)) cache with
  | Some e => ret (item, Cached e)
  | None =>
      fun w => let '(r, w') := embedQuery (KeywordFallback.query (snd item)) w in
               (Ok (item, Asked r), w')
  end.

Definition score_example (queryEmbedding : list num)
    (item : nat * KeywordFallback.Example) (e : list num) : result ScoredExample :=
  match cosineSimilarity queryEmbedding e with
  | Ok s => Ok {| example := snd item; example_score := s; idx := fst item |}
  | Throw x => Throw x
  end.

(** The rest of a callback: a fresh embedding is stored in the cache, then
    the score is computed. *)
Definition finish_callback (queryEmbedding : list num)
    (started : nat * KeywordFallback.Example * Pending) : M num ScoredExample :=
  let '(item, pending) := started in
  match pending with
  | Cached e => lift (score_example queryEmbedding item e)
  | Asked (Ok e) =>
      w <- get ;;
      put {| embeddingsModel := embeddingsModel w;
             embeddingsCache :=
               cache_set (KeywordFallback.query (snd item)) e (embeddingsCache w);
             vectorStore := vectorStore w;
             embedCalls := embedCalls w |} ;;;
      lift (score_example queryEmbedding item e)
  | Asked (Throw x) => throw x
  end.

(** Sequencing of computations that all succeed. *)
Fixpoint map_M {A B : Type} (f : A -> M num B) (l : list A) : M num (list B) :=
  match l with
  | [] => ret []
  | a :: r => b <- f a ;; bs <- map_M f r ;; ret (b :: bs)
  end.

(** [Promise.all] of a list of started computations: every one of them runs
    to its end, in index order; the first rejection is the result. *)
Fixpoint promise_all {A : Type} (ms : list (M num A)) : M num (list A) :=
  match ms with
  | [] => ret []
  | m :: r =>
      fun w =>
        let '(a, w1) := m w in
        let '(bs, w2) := promise_all r w1 in
        match a, bs with
        | Ok a, Ok bs => (Ok (a :: bs), w2)
        | Throw x, _ => (Throw x, w2)
        | _, Throw x => (Throw x, w2)
        end
  end.

(** [array.map((example, idx) => ...)] hands the index to the callback. *)
Definition indexed {A : Type} (l : list A) : list (nat * A) :=
  combine (seq 0 (List.length l)) l.

Definition getRelevantExamplesWithEmbeddings (query : jstring) (k : Z)
  : M num (list (option KeywordFallback.Example)) :=
  try_catch
    (let allExamples := loadedExamples env in
     match allExamples with
     | [] => ret []
     | _ :: _ =>
         getEmbeddingsModel ;;;
         queryEmbedding <- embedQuery query ;;
         w <- get ;;
         started <- map_M (start_callback (embeddingsCache w)) (indexed allExamples) ;;
         examplesWithScores <- promise_all (map (finish_callback queryEmbedding) started) ;;
         let topExamples :=
           slice0 k (sort_by (fun a b => nsub (example_score b) (example_score a))
                             examplesWithScores) in
         ret (map (fun item => Some (example item)) topExamples)
     end)
    (fun _ =>
       ret (KeywordFallback.getRelevantExamples (toLowerCase env)
              (loadedExamples env) query k)).

End Retrieval.

(* ================================================================== *)
(** * Vocabulary of the statements *)
(* ================================================================== *)

Section Observations.
Context {num : Type} {NumOps : Number num}.
Variable env : Env num.

(** The store a call works on: the cached one, else the one on disk. *)
Definition current_store (w : World num) : option (VectorStore num) :=
  match vectorStore w with
  | Some store => Some store
  | None => storeFile env
  end.

(** The index is absent or holds no document. *)
Definition index_empty (w : World num) : Prop :=
  match current_store w with
  | Some store => documents store = []
  | None => True
  end.

(** The index holds at least one document. *)
Definition has_documents (w : World num) : bool :=
  match current_store w with
  | Some store => match documents store with [] => false | _ :: _ => true end
  | None => false
  end.

(** The embeddings model cannot be obtained, or the provider rejects the
    request for [query]. *)
Definition provider_fails (w : World num) (query : jstring) : Prop :=
  (embeddingsModel w = false /\ modelAvailable env = false) \/
  provider env (embedCalls w) query = None.

(** The documents that qualify for a search: they pass the filter and
    carry an embedding. *)
Definition qualifying (w : World num) (filter : option SearchFilter)
  : list (Document num) :=
  match current_store w with
  | Some store => candidates store filter
  | None => []
  end.

(** The provider answers with a vector whose length differs from the
    length of the embedding of a qualifying document. *)
Definition dimension_mismatch (w : World num) (query : jstring)
    (filter : option SearchFilter) : Prop :=
  exists qe doc e,
    provider env (embedCalls w) query = Some qe /\
    In doc (qualifying w filter) /\ embedding doc = Some e /\
    List.length qe <> List.length e.

(** The list a search returns (a search that raised would return none). *)
Definition retrieved (query : jstring) (k : Z) (filter : option SearchFilter)
    (w : World num) : list (RetrievedDocument num) :=
  match fst (searchKnowledgeBase env query k filter w) with
  | Ok r => r
  | Throw _ => []
  end.

(** The cache does not hold the question of an example. *)
Definition uncached (cache : list (jstring * list num))
    (ex : KeywordFallback.Example) : bool :=
  match cache_get (KeywordFallback.query ex) cache with
  | Some _ => false
  | None => true
  end.

(** The questions of the loaded examples that the cache does not hold. *)
Definition uncached_questions (w : World num) : list jstring :=
  map KeywordFallback.query
      (List.filter (uncached (embeddingsCache w)) (loadedExamples env)).

(** The process-wide state a search leaves behind. *)
Definition after_search (query : jstring) (k : Z) (filter : option SearchFilter)
    (w : World num) : World num :=
  snd (searchKnowledgeBase env query k filter w).

(** The candidates with their scores, in index order, as the search holds
    them before sorting (none when the retrieval fails). *)
Definition scored_candidates (query : jstring) (filter : option SearchFilter)
    (w : World num) : list (RetrievedDocument num) :=
  match provider env (embedCalls w) query with
  | Some qe =>
      match map_result (score_document qe) (qualifying w filter) with
      | Ok scored => scored
      | Throw _ => []
      end
  | None => []
  end.

End Observations.

Section Comparator.
Context {num : Type} {NumOps : Number num}.

(** The comparator of the sort orders three scores consistently: the sign
    of a difference agrees with [<], [<] and [<=] are complementary, and
    [<] is asymmetric and negatively transitive.  Binary64 scores without a
    NaN among them satisfy this. *)
Definition consistent_at (a b c : num) : bool :=
  Bool.eqb (nltb nzero (nsub b a)) (nltb a b)
  && Bool.eqb (negb (nltb a b)) (nleb b a)
  && implb (nltb a b) (negb (nltb b a))
  && implb (negb (nltb a b) && negb (nltb b c)) (negb (nltb a c)).

Definition comparator_consistent (scores : list num) : bool :=
  forallb (fun a => forallb (fun b => forallb (consistent_at a b) scores) scores) scores.

(** The score of [item] equals [t] in the order of the scores. *)
Definition tied (t : num) (item : RetrievedDocument num) : bool :=
  negb (nltb t (score item)) && negb (nltb (score item) t).

End Comparator.

(* ================================================================== *)
(** * Concrete inputs *)
(* ================================================================== *)

Module Sample.

Definition meta (t : string) : DocMetadata :=
  {| type := js t; category := None; difficulty := None;
     source := js "kb"; filePath := js "kb.md" |}.

Definition doc (name t : string) (e : option (list float)) : Document float :=
  {| id := js name; content := js name; metadata := meta t; embedding := e |}.

Definition store_of (docs : list (Document float)) : VectorStore float :=
  {| documents := docs;
     store_metadata := {| indexed_at := js "2025-01-01";
                          total_documents := Z.of_nat (List.length docs);
                          embedding_model := js "nomic-embed-text" |} |}.

Definition an_example (q : string) : KeywordFallback.Example :=
  {| KeywordFallback.query := js q;
     KeywordFallback.sparql := js "SELECT * WHERE { ?s ?p ?o } LIMIT 10" |}.

Definition three_examples : list KeywordFallback.Example :=
  [ an_example "Dame todos los datasets";
    an_example "datasets about health";
    an_example "Datasets sobre salud" ].

(** A process that has not loaded anything yet. *)
Definition fresh : World float :=
  {| embeddingsModel := false; embeddingsCache := [];
     vectorStore := None; embedCalls := [] |}.

(** No index file on disk. *)
Definition no_index : Env float :=
  {| storeFile := None; loadedExamples := three_examples;
     modelAvailable := true;
     provider := fun _ _ => Some [1%float; 0%float];
     toLowerCase := KeywordFallback.ascii_lower |}.

(** Two example documents; the first one has an all-zero embedding. *)
Definition zero_first : VectorStore float :=
  store_of [ doc "zero" "example" (Some [0%float; 0%float]);
             doc "unit" "example" (Some [1%float; 0%float]) ].

Definition zero_first_env : Env float :=
  {| storeFile := Some zero_first; loadedExamples := three_examples;
     modelAvailable := true;
     provider := fun _ _ => Some [1%float; 0%float];
     toLowerCase := KeywordFallback.ascii_lower |}.

(** One document of each aggregated type, two of them tied. *)
Definition mixed : VectorStore float :=
  store_of [ doc "v1" "vocabulary" (Some [1%float; 0%float]);
             doc "p1" "pattern" (Some [0%float; 1%float]);
             doc "e1" "example" (Some [3%float; 4%float]);
             doc "e2" "example" (Some [6%float; 8%float]);
             doc "e3" "example" (Some [1%float; 0%float]);
             doc "n1" "example" None ].

Definition mixed_env : Env float :=
  {| storeFile := Some mixed; loadedExamples := three_examples;
     modelAvailable := true;
     provider := fun _ _ => Some [3%float; 4%float];
     toLowerCase := KeywordFallback.ascii_lower |}.

(** The provider rejects every request. *)
Definition provider_down : Env float :=
  {| storeFile := Some mixed; loadedExamples := three_examples;
     modelAvailable := true;
     provider := fun _ _ => None;
     toLowerCase := KeywordFallback.ascii_lower |}.

(** The provider rejects its first request only. *)
Definition provider_flaky : Env float :=
  {| storeFile := Some mixed; loadedExamples := three_examples;
     modelAvailable := true;
     provider := fun calls _ =>
                   match calls with
                   | [] => None
                   | _ :: _ => Some [3%float; 4%float]
                   end;
     toLowerCase := KeywordFallback.ascii_lower |}.

Definition a_query : jstring := js "datasets about health".

(** A process whose cache already holds the embedding of [a_query]. *)
Definition cached : World float :=
  {| embeddingsModel := true;
     embeddingsCache := [(a_query, [3%float; 4%float])];
     vectorStore := Some mixed; embedCalls := [] |}.

End Sample.

(** The same service over exact real arithmetic. *)
Module RealSample.

Definition doc (name t : string) (e : option (list R)) : Document R :=
  {| id := js name; content := js name; metadata := Sample.meta t; embedding := e |}.

Definition store : VectorStore R :=
  {| documents := [ doc "e1" "example" (Some [3%R; 4%R]);
                    doc "e3" "example" (Some [1%R; 0%R]) ];
     store_metadata := {| indexed_at := js "2025-01-01"; total_documents := 2;
                          embedding_model := js "nomic-embed-text" |} |}.

Definition env : Env R :=
  {| storeFile := Some store; loadedExamples := Sample.three_examples;
     modelAvailable := true;
     provider := fun _ _ => Some [3%R; 4%R];
     toLowerCase := KeywordFallback.ascii_lower |}.

Definition fresh : World R :=
  {| embeddingsModel := false; embeddingsCache := [];
     vectorStore := None; embedCalls := [] |}.

End RealSample.

(* ================================================================== *)
(** * Vocabulary of the statements on the example selection *)
(* ================================================================== *)

Section SelectionObservations.
Context {num : Type} {NumOps : Number num}.
Variable env : Env num.

(** The callbacks of the example selection after their synchronous parts,
    for the cache and the trace of provider requests found when the map
    starts: a cached question takes its embedding from the cache, any other
    question is sent to the provider. *)
Fixpoint started_callbacks (cache : list (jstring * list num)) (calls : list jstring)
    (items : list (nat * KeywordFallback.Example))
  : list (nat * KeywordFallback.Example * Pending (num := num)) :=
  match items with
  | [] => []
  | item :: rest =>
      match cache_get (KeywordFallback.query (snd item)) cache with
      | Some e => (item, Cached e) :: started_callbacks cache calls rest
      | None =>
          (item, Asked (match provider env calls (KeywordFallback.query (snd item)) with
                        | Some v => Ok v
                        | None => Throw ProviderError
                        end))
          :: started_callbacks cache (calls ++ [KeywordFallback.query (snd item)]) rest
      end
  end.

(** What a callback resolves to. *)
Definition finish_result (queryEmbedding : list num)
    (started : nat * KeywordFallback.Example * Pending (num := num))
  : result ScoredExample :=
  match snd started with
  | Cached e => score_example queryEmbedding (fst started) e
  | Asked (Ok e) => score_example queryEmbedding (fst started) e
  | Asked (Throw x) => Throw x
  end.

(** The cache once every callback has run: the answers of the provider
    have been stored, in index order. *)
Definition final_cache
    (started : list (nat * KeywordFallback.Example * Pending (num := num)))
    (cache : list (jstring * list num)) : list (jstring * list num) :=
  fold_left (fun c s => match snd s with
                        | Asked (Ok e) => cache_set (KeywordFallback.query (snd (fst s))) e c
                        | _ => c
                        end) started cache.

(** The list an example selection returns (a selection that raised would
    return none) and the state it leaves behind. *)
Definition selected (query : jstring) (k : Z) (w : World num)
  : list (option KeywordFallback.Example) :=
  match fst (getRelevantExamplesWithEmbeddings env query k w) with
  | Ok r => r
  | Throw _ => []
  end.

Definition after_selection (query : jstring) (k : Z) (w : World num) : World num :=
  snd (getRelevantExamplesWithEmbeddings env query k w).

End SelectionObservations.

(** A set of selected indices holds no index twice and only indices of
    the rule table, which are below ten. *)
Definition small_set (s : list nat) : Prop := NoDup s /\ Forall (fun i => i < 10) s.

(* ================================================================== *)
(** * Vocabulary of the statements on the sanitizer *)
(* ================================================================== *)

(** No limit clause starts inside the text, whatever follows it: no letter
    L of the text is followed by a letter I, and the text does not end
    with a letter L. *)
Fixpoint no_limit_start (p : jstring) : bool :=
  match p with
  | [] => true
  | c :: r =>
      (negb (eq_ci 76%N c)
       || match r with
          | d :: _ => negb (eq_ci 73%N d)
          | [] => false
          end)
      && no_limit_start r
  end.

(** The code unit of the backtick. *)
Definition backtick : char16 := 96%N.

(* ================================================================== *)
(** * Regular expressions with the global flag *)
(* ================================================================== *)

(** [s.replace(re, f)] for a global expression whose matches are never
    empty: the matches are found from left to right, each search starting
    where the previous match ended; [f] maps the matched text to its
    replacement and [skip] counts the code units of the current match
    still to pass. *)
Fixpoint replace_all_from (m : matcher) (f : jstring -> jstring) (skip : nat)
    (s : jstring) : jstring :=
  match s with
  | [] => []
  | c :: r =>
      match skip with
      | S k => replace_all_from m f k r
      | O => match m s with
             | Some (S k) => f (firstn (S k) s) ++ replace_all_from m f k r
             | _ => c :: replace_all_from m f 0 r
             end
      end
  end.

Definition replace_all (m : matcher) (f : jstring -> jstring) (s : jstring) : jstring :=
  replace_all_from m f 0 s.

(** [s.match(re) || []] for a global expression whose matches are never
    empty: the matched texts, from left to right. *)
Fixpoint match_all_from (m : matcher) (skip : nat) (s : jstring) : list jstring :=
  match s with
  | [] => []
  | c :: r =>
      match skip with
      | S k => match_all_from m k r
      | O => match m s with
             | Some (S k) => firstn (S k) s :: match_all_from m k r
             | _ => match_all_from m 0 r
             end
      end
  end.

Definition match_all (m : matcher) (s : jstring) : list jstring :=
  match_all_from m 0 s.

(** [Array.prototype.join]. *)
Definition join (sep : jstring) (parts : list jstring) : jstring :=
  match parts with
  | [] => []
  | p :: r => p ++ flat_map (fun x => sep ++ x) r
  end.

(** [/\s+/] at the head of a text: the run of white space there. *)
Definition ws_run_len : matcher := fun s =>
  match takeWhile is_space s with
  | [] => None
  | (_ :: _) as ws => Some (List.length ws)
  end.

(* ================================================================== *)
(** * The simplified tokenizer *)
(* ================================================================== *)

Module Tokenizer.

(** Token ids and lengths are integers. *)
Record TokenizerConfig := {
  vocabSize : Z;
  padTokenId : Z;
  eosTokenId : Z;
  unkTokenId : Z
}.

(** [Partial<TokenizerConfig>]: any field may be missing. *)
Record PartialConfig := {
  vocabSize_opt : option Z;
  padTokenId_opt : option Z;
  eosTokenId_opt : option Z;
  unkTokenId_opt : option Z
}.

(** [config?.field || default]: a missing field and the number zero both
    give the default. *)
Definition or_default (config : option PartialConfig)
    (field : PartialConfig -> option Z) (default : Z) : Z :=
  match config with
  | Some c => match field c with
              | Some v => if (v =? 0)%Z then default else v
              | None => default
              end
  | None => default
  end.

(** [Map.prototype.set] and [Map.prototype.get]: a map iterates in
    insertion order, and a key that is present keeps its place. *)
Fixpoint map_set {K V : Type} (eqb : K -> K -> bool) (key : K) (value : V)
    (m : list (K * V)) : list (K * V) :=
  match m with
  | [] => [(key, value)]
  | (k, v) :: r => if eqb k key then (k, value) :: r else (k, v) :: map_set eqb key value r
  end.

Fixpoint map_get {K V : Type} (eqb : K -> K -> bool) (key : K) (m : list (K * V))
  : option V :=
  match m with
  | [] => None
  | (k, v) :: r => if eqb k key then Some v else map_get eqb key r
  end.

(** [new Map(entries)]. *)
Definition map_of_entries {K V : Type} (eqb : K -> K -> bool) (entries : list (K * V))
  : list (K * V) :=
  fold_left (fun m entry => map_set eqb (fst entry) (snd entry) m) entries [].

Record SimpleTokenizer := {
  vocab : list (jstring * Z);
  reverseVocab : list (Z * jstring);
  config : TokenizerConfig
}.

Definition sparqlTokens : list jstring :=
  [ js "SELECT"; js "WHERE"; js "FILTER"; js "OPTIONAL"; js "UNION"; js "LIMIT";
    js "OFFSET"; js "ORDER"; js "BY"; js "ASC"; js "DESC"; js "DISTINCT";
    js "REDUCED"; js "FROM"; js "NAMED"; js "PREFIX"; js "BASE"; js "CONSTRUCT";
    js "DESCRIBE"; js "ASK"; js "GRAPH"; js "SERVICE";
    js "?"; js "{"; js "}"; js "."; js ";"; js ","; js "("; js ")"; js "["; js "]";
    js "a"; js "rdf:type"; js "rdfs:label"; js "owl:sameAs" ].

Definition createBasicVocab : list (jstring * Z) :=
  let basicVocab := map_set jstring_eqb (js "<pad>") 0%Z [] in
  let basicVocab := map_set jstring_eqb (js "</s>") 1%Z basicVocab in
  let basicVocab := map_set jstring_eqb (js "<unk>") 2%Z basicVocab in
  fold_left (fun m item => map_set jstring_eqb (snd item) (Z.of_nat (fst item) + 3)%Z m)
            (indexed sparqlTokens) basicVocab.

(** The constructor.  [vocabData] is the object given by its entries, in
    the order of [Object.entries]. *)
Definition new_SimpleTokenizer (vocabData : option (list (jstring * Z)))
    (config : option PartialConfig) : SimpleTokenizer :=
  let config := {| vocabSize := or_default config vocabSize_opt 32128;
                   padTokenId := or_default config padTokenId_opt 0;
                   eosTokenId := or_default config eosTokenId_opt 1;
                   unkTokenId := or_default config unkTokenId_opt 2 |} in
  let vocab := match vocabData with
               | Some entries => map_of_entries jstring_eqb entries
               | None => createBasicVocab
               end in
  {| vocab := vocab;
     reverseVocab := map_of_entries Z.eqb (map (fun entry => (snd entry, fst entry)) vocab);
     config := config |}.

(** The class [[?{}.,;()[\]]]. *)
Definition is_punct (c : char16) : bool :=
  ((c =? 63) || (c =? 123) || (c =? 125) || (c =? 46) || (c =? 44) || (c =? 59)
   || (c =? 40) || (c =? 41) || (c =? 91) || (c =? 93))%N.

(** The class [\w]. *)
Definition is_word (c : char16) : bool :=
  ((48 <=? c) && (c <=? 57) || (65 <=? c) && (c <=? 90) || (c =? 95)
   || (97 <=? c) && (c <=? 122))%N.

(** [/([?{}.,;()[\]]|\w+)/] at the head of a text. *)
Definition token_len : matcher := fun s =>
  match s with
  | [] => None
  | c :: _ =>
      if is_punct c then Some 1
      else match takeWhile is_word s with
           | [] => None
           | (_ :: _) as w => Some (List.length w)
           end
  end.

(** [/\s+([?{}.,;()[\]])/] at the head of a text: the run of white space
    is maximal, since no punctuation mark is white space. *)
Definition ws_punct_len : matcher := fun s =>
  match takeWhile is_space s with
  | [] => None
  | (_ :: _) as ws =>
      match skipn (List.length ws) s with
      | c :: _ => if is_punct c then Some (S (List.length ws)) else None
      | [] => None
      end
  end.

(** [/([?{}.,;()[\]])\s+/] at the head of a text. *)
Definition punct_ws_len : matcher := fun s =>
  match s with
  | c :: r =>
      if is_punct c then
        match takeWhile is_space r with
        | [] => None
        | (_ :: _) as ws => Some (S (List.length ws))
        end
      else None
  | [] => None
  end.

Section Methods.

(** [String.prototype.toLowerCase], a built-in of the engine. *)
Variable toLowerCase : jstring -> jstring.
Variable this : SimpleTokenizer.

Definition normalizeText (text : jstring) : jstring :=
  toLowerCase (replace_all ws_run_len (fun _ => js " ") (trim text)).

Definition tokenize (text : jstring) : list jstring := match_all token_len text.

(** The first replacement keeps the punctuation mark, the last code unit
    of the match; the second keeps the mark, the first code unit of the
    match, and a space. *)
Definition detokenize (tokens : list jstring) : jstring :=
  trim (replace_all punct_ws_len (fun m => firstn 1 m ++ js " ")
          (replace_all ws_punct_len (fun m => skipn (List.length m - 1) m)
             (join (js " ") tokens))).

Definition isSpecialToken (id : Z) : bool :=
  ((id =? padTokenId (config this)) || (id =? eosTokenId (config this))
   || (id =? unkTokenId (config this)))%Z.

Definition encode (text : jstring) (addEos : bool) : list Z :=
  let normalized := normalizeText text in
  let tokens := tokenize normalized in
  let ids := map (fun token => match map_get jstring_eqb token (vocab this) with
                               | Some id => id
                               | None => unkTokenId (config this)
                               end) tokens in
  if addEos then ids ++ [eosTokenId (config this)] else ids.

Definition decode (ids : list Z) (skipSpecialTokens : bool) : jstring :=
  let tokens := map (fun id =>
                       let token := map_get Z.eqb id (reverseVocab this) in
                       if skipSpecialTokens && isSpecialToken id then []
                       else match token with
                            | Some t => t
                            | None => js "<unk>"
                            end) ids in
  detokenize (List.filter (fun t => negb (jstring_eqb t [])) tokens).

Definition pad (ids : list Z) (maxLength : Z) : list Z :=
  if (maxLength <=? Z.of_nat (List.length ids))%Z then slice0 maxLength ids
  else ids ++ repeat (padTokenId (config this))
                     (Z.to_nat (maxLength - Z.of_nat (List.length ids))).

Definition createAttentionMask (ids : list Z) : list Z :=
  map (fun id => if (id =? padTokenId (config this))%Z then 0%Z else 1%Z) ids.

End Methods.

(** [createTokenizer]: [loadVocabulary] fetches and parses the vocabulary
    file ([None]: the request or the parsing fails, which is caught); no
    path, an empty path or a failure give the basic vocabulary. *)
Definition createTokenizer (loadVocabulary : jstring -> option (list (jstring * Z)))
    (vocabPath : option jstring) (config : option PartialConfig) : SimpleTokenizer :=
  let vocabData := match vocabPath with
                   | Some ((_ :: _) as path) => loadVocabulary path
                   | _ => None
                   end in
  new_SimpleTokenizer vocabData config.

(** ** Vocabulary of the statements *)

(** An upper-case letter of the Basic Latin block. *)
Definition is_upper (c : char16) : bool := ((65 <=? c) && (c <=? 90))%N.

(** A word: a non-empty run of word characters. *)
Definition is_a_word (w : jstring) : bool :=
  match w with
  | [] => false
  | _ :: _ => forallb is_word w
  end.

(** The vocabulary gives the word an id that is no special token. *)
Definition known (this : SimpleTokenizer) (w : jstring) : bool :=
  match map_get jstring_eqb w (vocab this) with
  | Some id => negb (isSpecialToken this id)
  | None => false
  end.

(** The text behind the first word of a joined sequence of words: every
    further word with a space in front. *)
Definition tail_of (words : list jstring) : jstring :=
  flat_map (fun x => js " " ++ x) words.

(** The code units of joined words are word characters and spaces. *)
Definition plain (c : char16) : bool := is_word c || (c =? 32)%N.

End Tokenizer.

(** A small vocabulary of lower-case words. *)
Definition sample_vocabulary : list (jstring * Z) :=
  [ (js "select", 10%Z); (js "where", 11%Z); (js "datasets", 12%Z) ].
(* ================================================================== *)
(** * The examples file *)
(* ================================================================== *)

(** [loadExamples] reads the examples file and extracts the examples with
    one global expression: the marker of a question, white space, the
    question between double quotes, then (lazily) the opening of the next
    code block of the query language and (lazily) the text up to the next
    fence.  The quantifiers of the expression leave no choice: the run of
    white space and the run of characters other than the quote must be
    taken whole for the quote to follow, and a lazy [[\s\S]*?] in front of
    a literal stops at the first occurrence of the literal, since a later
    occurrence of the opening is followed by a fence only if the first
    one is. *)

Module ExamplesFile.

Definition quote : char16 := 34%N.
Definition asterisk : char16 := 42%N.

(** The literal text [**Pregunta:**]. *)
Definition marker : jstring := js "**Pregunta:**".

(** The opening of a code block with its line feed. *)
Definition fence_sparql_nl : jstring := fence_sparql ++ nl.

(** The class of the code units other than the double quote. *)
Definition not_quote (c : char16) : bool := negb (c =? quote)%N.

(** One attempt of [exampleRegex] at the head of a text: the length of the
    match and its two groups. *)
Definition example_at (s : jstring) : option (nat * jstring * jstring) :=
  if starts_with marker s then
    let r1 := skipn (List.length marker) s in
    match takeWhile is_space r1 with
    | [] => None
    | (_ :: _) as ws =>
        match dropWhile is_space r1 with
        | q :: r2 =>
            if (q =? quote)%N then
              match takeWhile not_quote r2 with
              | [] => None
              | (_ :: _) as g1 =>
                  match dropWhile not_quote r2 with
                  | _ :: r3 =>
                      match indexOf fence_sparql_nl r3 with
                      | Some i =>
                          let r4 := skipn (i + List.length fence_sparql_nl) r3 in
                          match indexOf fence r4 with
                          | Some j =>
                              Some (List.length marker + List.length ws + 1
                                    + List.length g1 + 1
                                    + i + List.length fence_sparql_nl
                                    + j + List.length fence,
                                    g1, firstn j r4)
                          | None => None
                          end
                      | None => None
                      end
                  | [] => None
                  end
              end
            else None
        | [] => None
        end
    end
  else None.

(** The loop [while ((match = exampleRegex.exec(content)) !== null)]: each
    search starts where the previous match ended; [skip] counts the code
    units of the current match still to pass. *)
Fixpoint exec_all_from (skip : nat) (s : jstring) : list KeywordFallback.Example :=
  match s with
  | [] => []
  | _ :: r =>
      match skip with
      | S k => exec_all_from k r
      | O => match example_at s with
             | Some (n, g1, g2) =>
                 {| KeywordFallback.query := g1;
                    KeywordFallback.sparql := trim g2 |}
                 :: exec_all_from (pred n) r
             | None => exec_all_from 0 r
             end
      end
  end.

(** [loadExamples]: [file] is the text that [readFileSync] returns for the
    examples file ([None]: it throws, and the handler returns no example). *)
Definition loadExamples (file : option jstring) : list KeywordFallback.Example :=
  match file with
  | Some content => exec_all_from 0 content
  | None => []
  end.

(** ** Files in the documented format *)

(** An entry of a file in the format the code documents: the question
    between quotes behind the marker and one space, a note, the code block
    with the query on lines of its own, and the text up to the next entry. *)
Record Entry := {
  question : jstring;
  note : jstring;
  code : jstring;
  gap : jstring
}.

Definition render_entry (e : Entry) : jstring :=
  marker ++ js " " ++ [quote] ++ question e ++ [quote] ++ note e
  ++ fence_sparql_nl ++ code e ++ nl ++ fence ++ gap e.

Definition render (intro : jstring) (entries : list Entry) : jstring :=
  intro ++ flat_map render_entry entries.

Definition example_of (e : Entry) : KeywordFallback.Example :=
  {| KeywordFallback.query := question e; KeywordFallback.sparql := code e |}.

Definition no_char (c : char16) (s : jstring) : bool :=
  forallb (fun a => negb (a =? c)%N) s.

(** The question is not empty and holds no quote, the note holds no
    backtick, the query is trimmed and holds no fence, and the text behind
    the code block holds no asterisk. *)
Definition well_formed (e : Entry) : bool :=
  match question e with [] => false | _ :: _ => true end
  && no_char quote (question e)
  && no_char backtick (note e)
  && jstring_eqb (trim (code e)) (code e)
  && negb (includes fence (code e))
  && no_char asterisk (gap e).

End ExamplesFile.

(** A file with two entries, and one whose first question has no code
    block of its own. *)
Definition sample_entries : list ExamplesFile.Entry :=
  [ {| ExamplesFile.question := js "How many datasets are there?";
       ExamplesFile.note := nl ++ nl ++ js "**SPARQL:**" ++ nl;
       ExamplesFile.code := js "SELECT (COUNT(?d) AS ?n) WHERE { ?d a dcat:Dataset }";
       ExamplesFile.gap := nl ++ nl ++ js "## Publishers" ++ nl |};
    {| ExamplesFile.question := js "Which publishers exist?";
       ExamplesFile.note := nl;
       ExamplesFile.code := js "SELECT DISTINCT ?p WHERE { ?d dct:publisher ?p }";
       ExamplesFile.gap := nl |} ].

Definition orphan_question_file : jstring :=
  ExamplesFile.marker ++ js " " ++ [ExamplesFile.quote] ++ js "first"
  ++ [ExamplesFile.quote] ++ nl
  ++ ExamplesFile.marker ++ js " " ++ [ExamplesFile.quote] ++ js "second"
  ++ [ExamplesFile.quote] ++ nl
  ++ ExamplesFile.fence_sparql_nl ++ js "SELECT 2" ++ nl ++ fence.
(* ================================================================== *)
(** * The language-model service and the health check *)
(* ================================================================== *)

(** The service chooses a provider from the environment of the process,
    builds the client of that provider and asks it; the health check of
    the route reports the provider and its model.  What is written to the
    console is left out. *)

Module LlmService.

(** The numbers of the settings are written as in the source; each stands
    for the nearest binary64 value, as in the engine. *)

(** The type [LLMProvider], a union of four literals. *)
Inductive LLMProvider : Type := ollama | openrouter | openai | github.

Definition provider_name (p : LLMProvider) : jstring :=
  match p with
  | ollama => js "ollama"
  | openrouter => js "openrouter"
  | openai => js "openai"
  | github => js "github"
  end.

(** The variables of [process.env] that the service reads ([None]: the
    variable is not set). *)
Record ProcessEnv := {
  LLM_PROVIDER : option jstring;
  OLLAMA_API_URL : option jstring;
  OLLAMA_MODEL : option jstring;
  OPENROUTER_API_KEY : option jstring;
  OPENROUTER_MODEL : option jstring;
  OPENROUTER_SITE_URL : option jstring;
  OPENROUTER_SITE_NAME : option jstring;
  OPENAI_API_KEY : option jstring;
  OPENAI_MODEL : option jstring;
  GITHUB_TOKEN : option jstring;
  GITHUB_MODEL : option jstring;
  GITHUB_SITE_URL : option jstring;
  GITHUB_SITE_NAME : option jstring
}.

(** [a || b] on strings: [a] when it is set and not empty. *)
Definition or_else (a : option jstring) (b : jstring) : jstring :=
  match a with
  | Some ((_ :: _) as s) => s
  | _ => b
  end.

(** [a ?? b]. *)
Definition nullish {A : Type} (a : option A) (b : A) : A :=
  match a with
  | Some x => x
  | None => b
  end.

(** What a [throw] carries: an [Error] with its message, or another value. *)
Inductive thrown : Type :=
| Error (message : jstring)
| NotAnError.

Inductive attempt (A : Type) : Type :=
| Done (a : A)
| Raised (e : thrown).
Arguments Done {A} a.
Arguments Raised {A} e.

(** [error instanceof Error ? error.message : fallback]. *)
Definition message_or (e : thrown) (fallback : jstring) : jstring :=
  match e with
  | Error message => message
  | NotAnError => fallback
  end.

(** The argument [config?: Partial<LLMConfig>]. *)
Record LLMConfig := {
  provider : option LLMProvider;
  temperature : option float;
  maxTokens : option float
}.

(** The two clients with the settings that the service passes to their
    constructors. *)
Inductive Client : Type :=
| Ollama (baseUrl model : jstring)
         (temperature numPredict numCtx repeatPenalty topP : float)
| ChatOpenAI (modelName openAIApiKey : jstring) (temperature : float)
             (maxTokens maxCompletionTokens : option float)
             (baseURL : option jstring)
             (defaultHeaders : list (jstring * jstring)).

(** The object that [createLLM] returns. *)
Record LLM := {
  llm : Client;
  model : jstring;
  llm_provider : LLMProvider
}.

(** The object that [checkLLMAvailability] resolves to. *)
Record Availability := {
  available : bool;
  availability_provider : LLMProvider;
  error : option jstring
}.

(** The part of a [Response] of [fetch] that the service reads. *)
Record Response := {
  ok : bool;
  status : nat
}.

(** The decimal digits of a number of type [nat], as a template literal
    prints a status code. *)
Fixpoint digits (d : Decimal.uint) : jstring :=
  match d with
  | Decimal.Nil => []
  | Decimal.D0 r => 48%N :: digits r
  | Decimal.D1 r => 49%N :: digits r
  | Decimal.D2 r => 50%N :: digits r
  | Decimal.D3 r => 51%N :: digits r
  | Decimal.D4 r => 52%N :: digits r
  | Decimal.D5 r => 53%N :: digits r
  | Decimal.D6 r => 54%N :: digits r
  | Decimal.D7 r => 55%N :: digits r
  | Decimal.D8 r => 56%N :: digits r
  | Decimal.D9 r => 57%N :: digits r
  end.

Definition number_toString (n : nat) : jstring := digits (Nat.to_uint n).

(** What the client answers to [invoke]: a string, or a message whose
    [content] may be missing; [text] is what [toString] gives. *)
Inductive Answer : Type :=
| Text (s : jstring)
| Message (content : option jstring) (text : jstring).

(** The object that [invokeLLM] resolves to. *)
Record LLMResponse := {
  response_content : jstring;
  response_provider : LLMProvider;
  response_model : jstring
}.

(** The body of the answer of the health check and its status code. *)
Record Health := {
  http_status : nat;
  health_status : jstring;
  health_provider : LLMProvider;
  health_model : option jstring;
  health_error : option jstring;
  health_message : option jstring
}.

(** Every object is true as a condition. *)
Definition object_truthy {A : Type} (_ : A) : bool := true.

Section Service.

(** [String.prototype.toLowerCase], a built-in of the engine. *)
Variable toLowerCase : jstring -> jstring.

(** The environment of the process. *)
Variable env : ProcessEnv.

(** [fetch(url, { headers })]: the response, or what the promise is
    rejected with. *)
Variable fetch : jstring -> list (jstring * jstring) -> attempt Response.

(** [llm.invoke(prompt)]. *)
Variable invoke : Client -> jstring -> attempt Answer.

(** [getLLMProvider]: the variable in lower case, or the local provider
    when it is not set, empty or none of the four names. *)
Definition getLLMProvider : LLMProvider :=
  let provider := or_else (option_map toLowerCase (LLM_PROVIDER env)) (js "ollama") in
  if jstring_eqb provider (js "ollama") then ollama
  else if jstring_eqb provider (js "openrouter") then openrouter
  else if jstring_eqb provider (js "openai") then openai
  else if jstring_eqb provider (js "github") then github
  else ollama.

#[warnings="-inexact-float"] Definition createOllamaLLM (temperature maxTokens : float) : attempt LLM :=
  let ollamaUrl := or_else (OLLAMA_API_URL env) (js "http://localhost:11434") in
  let ollamaModel := or_else (OLLAMA_MODEL env) (js "llama3.1:8b") in
  Done {| llm := Ollama ollamaUrl ollamaModel temperature maxTokens
                        8192%float 1.2%float 0.9%float;
          model := ollamaModel;
          llm_provider := ollama |}.

Definition createOpenRouterLLM (temperature maxTokens : float) : attempt LLM :=
  let apiKey := OPENROUTER_API_KEY env in
  let model := or_else (OPENROUTER_MODEL env) (js "deepseek/deepseek-chat-v3-0324:free") in
  let siteUrl := or_else (OPENROUTER_SITE_URL env) (js "http://localhost:3000") in
  let siteName := or_else (OPENROUTER_SITE_NAME env) (js "SPARQL Naturalizer") in
  match apiKey with
  | Some ((_ :: _) as apiKey) =>
      Done {| llm := ChatOpenAI model apiKey temperature (Some maxTokens) None
                       (Some (js "https://openrouter.ai/api/v1"))
                       [ (js "Authorization", js "Bearer " ++ apiKey);
                         (js "HTTP-Referer", siteUrl);
                         (js "X-Title", siteName) ];
              model := model;
              llm_provider := openrouter |}
  | _ => Raised (Error (js "OPENROUTER_API_KEY not found in environment variables"))
  end.

Definition createOpenAILLM (temperature maxTokens : float) : attempt LLM :=
  let apiKey := OPENAI_API_KEY env in
  let model := or_else (OPENAI_MODEL env) (js "gpt-4o-mini") in
  match apiKey with
  | Some ((_ :: _) as apiKey) =>
      Done {| llm := ChatOpenAI model apiKey temperature (Some maxTokens) None
                       None [];
              model := model;
              llm_provider := openai |}
  | _ => Raised (Error (js "OPENAI_API_KEY not found in environment variables"))
  end.

Definition createGitHubModelsLLM (temperature maxTokens : float) : attempt LLM :=
  let token := GITHUB_TOKEN env in
  let model := or_else (GITHUB_MODEL env) (js "openai/gpt-4o-mini") in
  let siteUrl := or_else (GITHUB_SITE_URL env) (js "http://localhost:3000") in
  let siteName := or_else (GITHUB_SITE_NAME env) (js "SPARQL Naturalizer") in
  match token with
  | Some ((_ :: _) as token) =>
      Done {| llm := ChatOpenAI model token temperature None (Some maxTokens)
                       (Some (js "https://models.github.ai/inference"))
                       [ (js "Authorization", js "Bearer " ++ token);
                         (js "X-GitHub-Api-Version", js "2022-11-28");
                         (js "Accept", js "application/vnd.github+json");
                         (js "HTTP-Referer", siteUrl);
                         (js "X-Title", siteName) ];
              model := model;
              llm_provider := github |}
  | _ => Raised (Error (js "GITHUB_TOKEN not found in environment variables. Get one at: https://github.com/settings/tokens (scope: models:read)"))
  end.

(** [createLLM]: the four cases of the switch; its default case is out of
    reach of a value of the type [LLMProvider]. *)
#[warnings="-inexact-float"] Definition createLLM (config : option LLMConfig) : attempt LLM :=
  let provider := nullish (match config with Some c => provider c | None => None end)
                          getLLMProvider in
  let temperature := nullish (match config with Some c => temperature c | None => None end)
                             0.2%float in
  let maxTokens := nullish (match config with Some c => maxTokens c | None => None end)
                           300%float in
  match provider with
  | ollama => createOllamaLLM temperature maxTokens
  | openrouter => createOpenRouterLLM temperature maxTokens
  | openai => createOpenAILLM temperature maxTokens
  | github => createGitHubModelsLLM temperature maxTokens
  end.

(** [invokeLLM]: the client is built outside the [try]; what [invoke]
    raises is thrown again. *)
Definition invokeLLM (prompt : jstring) (config : option LLMConfig)
  : attempt LLMResponse :=
  match createLLM config with
  | Raised e => Raised e
  | Done l =>
      match invoke (llm l) prompt with
      | Raised e => Raised e
      | Done response =>
          let content :=
            match response with
            | Text s => s
            | Message content text => or_else content text
            end in
          Done {| response_content := content;
                  response_provider := llm_provider l;
                  response_model := model l |}
      end
  end.

(** [checkLLMAvailability]: every path returns an object; what [fetch]
    raises is caught. *)
Definition checkLLMAvailability : Availability :=
  let provider := getLLMProvider in
  let up := {| available := true; availability_provider := provider; error := None |} in
  let down (reason : jstring) :=
    {| available := false; availability_provider := provider; error := Some reason |} in
  match provider with
  | ollama =>
      let ollamaUrl := or_else (OLLAMA_API_URL env) (js "http://localhost:11434") in
      match fetch (ollamaUrl ++ js "/api/tags") [] with
      | Done response =>
          if negb (ok response) then down (js "Ollama server not responding") else up
      | Raised e => down (message_or e (js "Unknown error"))
      end
  | openrouter =>
      if negb (truthy (OPENROUTER_API_KEY env))
      then down (js "OPENROUTER_API_KEY not configured")
      else up
  | openai =>
      if negb (truthy (OPENAI_API_KEY env))
      then down (js "OPENAI_API_KEY not configured")
      else up
  | github =>
      match GITHUB_TOKEN env with
      | Some ((_ :: _) as token) =>
          match fetch (js "https://models.github.ai/inference/models")
                      [ (js "Authorization", js "Bearer " ++ token);
                        (js "X-GitHub-Api-Version", js "2022-11-28") ] with
          | Done response =>
              if negb (ok response)
              then down (js "GitHub Models API error: "
                         ++ number_toString (status response))
              else up
          | Raised e => down (message_or e (js "Unknown error"))
          end
      | _ => down (js "GITHUB_TOKEN not configured (scope: models:read)")
      end
  end.

(** The handler [GET] of the route: the health check.  The value tested
    by [if (!available)] is the object that [checkLLMAvailability]
    resolves to, not its field of the same name. *)
Definition GET : Health :=
  let body : attempt Health :=
    let provider := getLLMProvider in
    let available := checkLLMAvailability in
    if negb (object_truthy available) then
      Done {| http_status := 503;
              health_status := js "error";
              health_provider := provider;
              health_model := None;
              health_error := None;
              health_message :=
                Some (js "LLM provider " ++ provider_name provider
                      ++ js " is not available. Check configuration.") |}
    else
      let model :=
        match provider with
        | ollama => or_else (OLLAMA_MODEL env) (js "llama3.1:8b")
        | github => or_else (GITHUB_MODEL env) (js "openai/gpt-4.1-mini")
        | openrouter => or_else (OPENROUTER_MODEL env) (js "deepseek/deepseek-chat-v3-0324:free")
        | openai => or_else (OPENAI_MODEL env) (js "gpt-4o-mini")
        end in
      Done {| http_status := 200;
              health_status := js "ok";
              health_provider := provider;
              health_model := Some model;
              health_error := None;
              health_message := None |} in
  match body with
  | Done response => response
  | Raised e =>
      let provider := getLLMProvider in
      {| http_status := 503;
         health_status := js "error";
         health_provider := provider;
         health_model := None;
         health_error := Some (message_or e (js "Unknown error"));
         health_message :=
           Some (js "LLM provider " ++ provider_name provider
                 ++ js " is not available.") |}
  end.

End Service.

(** The environment in which no variable is set. *)
Definition unset : ProcessEnv :=
  {| LLM_PROVIDER := None; OLLAMA_API_URL := None; OLLAMA_MODEL := None;
     OPENROUTER_API_KEY := None; OPENROUTER_MODEL := None;
     OPENROUTER_SITE_URL := None; OPENROUTER_SITE_NAME := None;
     OPENAI_API_KEY := None; OPENAI_MODEL := None;
     GITHUB_TOKEN := None; GITHUB_MODEL := None;
     GITHUB_SITE_URL := None; GITHUB_SITE_NAME := None |}.

End LlmService.

(** An environment that names the remote provider of the vendor in mixed
    case and holds no key for it, the same with a key, and one that names
    the code-hosting provider with a token and no model. *)
Definition openai_without_key : LlmService.ProcessEnv :=
  {| LlmService.LLM_PROVIDER := Some (js "OpenAI");
     LlmService.OLLAMA_API_URL := None; LlmService.OLLAMA_MODEL := None;
     LlmService.OPENROUTER_API_KEY := None; LlmService.OPENROUTER_MODEL := None;
     LlmService.OPENROUTER_SITE_URL := None; LlmService.OPENROUTER_SITE_NAME := None;
     LlmService.OPENAI_API_KEY := None; LlmService.OPENAI_MODEL := None;
     LlmService.GITHUB_TOKEN := None; LlmService.GITHUB_MODEL := None;
     LlmService.GITHUB_SITE_URL := None; LlmService.GITHUB_SITE_NAME := None |}.

Definition openai_with_key : LlmService.ProcessEnv :=
  {| LlmService.LLM_PROVIDER := Some (js "OpenAI");
     LlmService.OLLAMA_API_URL := None; LlmService.OLLAMA_MODEL := None;
     LlmService.OPENROUTER_API_KEY := None; LlmService.OPENROUTER_MODEL := None;
     LlmService.OPENROUTER_SITE_URL := None; LlmService.OPENROUTER_SITE_NAME := None;
     LlmService.OPENAI_API_KEY := Some (js "sk-test"); LlmService.OPENAI_MODEL := None;
     LlmService.GITHUB_TOKEN := None; LlmService.GITHUB_MODEL := None;
     LlmService.GITHUB_SITE_URL := None; LlmService.GITHUB_SITE_NAME := None |}.

Definition github_without_model : LlmService.ProcessEnv :=
  {| LlmService.LLM_PROVIDER := Some (js "github");
     LlmService.OLLAMA_API_URL := None; LlmService.OLLAMA_MODEL := None;
     LlmService.OPENROUTER_API_KEY := None; LlmService.OPENROUTER_MODEL := None;
     LlmService.OPENROUTER_SITE_URL := None; LlmService.OPENROUTER_SITE_NAME := None;
     LlmService.OPENAI_API_KEY := None; LlmService.OPENAI_MODEL := None;
     LlmService.GITHUB_TOKEN := Some (js "ghp_test"); LlmService.GITHUB_MODEL := None;
     LlmService.GITHUB_SITE_URL := None; LlmService.GITHUB_SITE_NAME := None |}.

(** A network on which every request fails. *)
Definition network_down (url : jstring) (headers : list (jstring * jstring))
  : LlmService.attempt LlmService.Response :=
  LlmService.Raised (LlmService.Error (js "fetch failed")).

(** The client that the service builds in [openai_with_key]. *)
#[warnings="-inexact-float"] Definition openai_client : LlmService.LLM :=
  {| LlmService.llm :=
       LlmService.ChatOpenAI (js "gpt-4o-mini") (js "sk-test")
         0.2%float (Some 300%float) None None [];
     LlmService.model := js "gpt-4o-mini";
     LlmService.llm_provider := LlmService.openai |}.
(* ================================================================== *)
(** * The handler of the route *)
(* ================================================================== *)

(** [POST] validates the body of the request, gathers the context of the
    question, writes the prompt, asks the language model and answers with
    the cleaned query, as one document or as a stream of events.  An event
    stands for the object that the handler serialises and enqueues; what is
    written to the console is left out. *)

Module Route.
Import LlmService.

(** The double quote. *)
Definition dq : jstring := [34%N].

(** A value of a JSON text; the content of arrays and objects is not read. *)
Inductive Json : Type :=
| JNull
| JBool (b : bool)
| JNumber (x : float)
| JString (s : jstring)
| JArray
| JObject.

(** The two fields that the handler takes from the body ([None]: the body
    has no such field). *)
Record RequestBody := {
  body_query : option Json;
  body_stream : option Json
}.

(** A value used as a condition; a number of a JSON text is never NaN. *)
Definition json_truthy (v : Json) : bool :=
  match v with
  | JNull => false
  | JBool b => b
  | JNumber x => negb (PrimFloat.eqb x 0%float)
  | JString s => match s with [] => false | _ :: _ => true end
  | JArray | JObject => true
  end.

(** The objects that the handler sends as events of the stream;
    [all_done] stands for the closing line [data: [DONE]]. *)
Inductive Event : Type :=
| metadata_event (contextSource : jstring) (kbDocs : nat)
                 (provider : LLMProvider) (timestamp : jstring)
| chunk_event (content accumulated : jstring)
| done_event (sparql contextSource : jstring) (kbDocs : nat)
             (provider : LLMProvider) (model : jstring)
| error_event (error : jstring)
| all_done.

(** The bodies of the answers sent with [NextResponse.json]. *)
Inductive Payload : Type :=
| error_payload (error : jstring) (details : option jstring)
| sparql_payload (sparql contextSource : jstring) (kbDocs : nat)
                 (provider : LLMProvider) (model : jstring) (timestamp : jstring).

(** An answer: a document with its status code, or the event stream, whose
    status code is 200. *)
Inductive Reply : Type :=
| Document (status : nat) (payload : Payload)
| Stream (events : list Event).

(** [ex.match(/```sparql\n([\s\S]*?)```/)]: the first group of the first
    match, the text between the first opening of a code block and the next
    fence behind it. *)
Definition sparql_block (s : jstring) : option jstring :=
  match indexOf ExamplesFile.fence_sparql_nl s with
  | Some i =>
      let r := skipn (i + List.length ExamplesFile.fence_sparql_nl) s in
      match indexOf fence r with
      | Some j => Some (firstn j r)
      | None => None
      end
  | None => None
  end.

(** The constant [cleanExamples]: the trimmed code of the examples that
    hold a code block, three at most. *)
Definition cleanExamples (examples : list jstring) : list jstring :=
  slice0 3 (flat_map (fun ex => match sparql_block ex with
                                | Some code => [trim code]
                                | None => []
                                end) examples).

(** The text of the prompt in front of the examples. *)
Definition kb_prompt_head : jstring :=
  js "You are a SPARQL expert for datos.gob.es catalog. Generate ONLY valid SPARQL code." ++ nl
  ++ nl
  ++ js "MANDATORY STRUCTURE:" ++ nl
  ++ js "PREFIX dcat: <http://www.w3.org/ns/dcat#>" ++ nl
  ++ js "PREFIX dct: <http://purl.org/dc/terms/>" ++ nl
  ++ js "PREFIX foaf: <http://xmlns.com/foaf/0.1/>" ++ nl
  ++ nl
  ++ js "SELECT ?variable1 ?variable2" ++ nl
  ++ js "WHERE {" ++ nl
  ++ js "  # Main pattern" ++ nl
  ++ js "  ?dataset a dcat:Dataset ." ++ nl
  ++ js "  " ++ nl
  ++ js "  # Additional patterns with proper indentation (2 spaces)" ++ nl
  ++ js "  " ++ nl
  ++ js "  # Filters at the end" ++ nl
  ++ js "}" ++ nl
  ++ js "LIMIT 100" ++ nl
  ++ nl
  ++ js "CRITICAL RULES:" ++ nl
  ++ js "1. ALWAYS start with PREFIX declarations (3 required)" ++ nl
  ++ js "2. ALWAYS use proper indentation (2 spaces per level)" ++ nl
  ++ js "3. For text search: FILTER(CONTAINS(LCASE(?title), " ++ dq ++ js "keyword" ++ dq ++ js "))" ++ nl
  ++ js "4. For language: FILTER(LANG(?title) = " ++ dq ++ js "es" ++ dq ++ js ")" ++ nl
  ++ js "5. For publisher search: ?dataset dct:publisher ?pub . ?pub foaf:name ?name . FILTER(CONTAINS(LCASE(?name), " ++ dq ++ js "keyword" ++ dq ++ js "))" ++ nl
  ++ js "6. For format: ?dataset dcat:distribution ?dist . ?dist dct:format ?format . FILTER(CONTAINS(LCASE(?format), " ++ dq ++ js "csv" ++ dq ++ js "))" ++ nl
  ++ js "7. For license: ?dataset dct:license ?license . FILTER(CONTAINS(STR(?license), " ++ dq ++ js "creativecommons" ++ dq ++ js "))" ++ nl
  ++ js "8. NEVER use dcat:format (doesn't exist)" ++ nl
  ++ js "9. NEVER search dcat:theme with strings (use URI or text search in title)" ++ nl
  ++ js "10. ALWAYS close WHERE clause properly" ++ nl
  ++ js "11. ALWAYS add LIMIT 100" ++ nl
  ++ nl
  ++ js "CORRECT EXAMPLES:".

(** The prompt written from the knowledge base: of the context only the
    first two of the cleaned examples enter it. *)
Definition kb_prompt (cleanExamples : list jstring) (query : jstring) : jstring :=
  kb_prompt_head
  ++ match cleanExamples with
     | [] => []
     | _ :: _ => nl ++ join (nl ++ nl) (map (fun ex => nl ++ ex) (slice0 2 cleanExamples))
     end
  ++ nl ++ nl
  ++ js "USER QUESTION: " ++ dq ++ query ++ dq ++ nl
  ++ nl
  ++ js "Generate complete, valid SPARQL (with PREFIX, proper indentation, closed braces):".

(** The prompt of the fallback, written from the vocabulary file and the
    selected examples. *)
Definition legacy_prompt (dcatContext examplesText query : jstring) : jstring :=
  js "Eres un experto en SPARQL para el cat" ++ [225%N] ++ js "logo de datos abiertos datos.gob.es." ++ nl
  ++ nl
  ++ dcatContext ++ nl
  ++ nl
  ++ js "EJEMPLOS DE CONSULTAS:" ++ nl
  ++ examplesText ++ nl
  ++ nl
  ++ js "PREGUNTA DEL USUARIO: " ++ dq ++ query ++ dq ++ nl
  ++ nl
  ++ js "INSTRUCCIONES:" ++ nl
  ++ js "1. Analiza la pregunta del usuario" ++ nl
  ++ js "2. Genera una consulta SPARQL v" ++ [225%N] ++ js "lida usando el vocabulario DCAT mostrado arriba" ++ nl
  ++ js "3. Insp" ++ [237%N] ++ js "rate en los ejemplos pero adapta la consulta a la pregunta espec" ++ [237%N] ++ js "fica" ++ nl
  ++ js "4. Usa FILTER para b" ++ [250%N] ++ js "squedas de texto (CONTAINS, LCASE)" ++ nl
  ++ js "5. Incluye LIMIT 100 para evitar resultados masivos" ++ nl
  ++ js "6. NO incluyas explicaciones, SOLO la consulta SPARQL" ++ nl
  ++ js "7. Aseg" ++ [250%N] ++ js "rate de que la sintaxis sea correcta" ++ nl
  ++ nl
  ++ js "CONSULTA SPARQL:".

(** The text of one selected example; an entry [undefined] has no
    property to read. *)
Definition example_text (idx : nat) (ex : option KeywordFallback.Example)
  : option jstring :=
  match ex with
  | Some ex =>
      Some (js "Ejemplo " ++ number_toString (idx + 1) ++ js ":" ++ nl
            ++ js "Pregunta: " ++ dq ++ KeywordFallback.query ex ++ dq ++ nl
            ++ js "Respuesta SPARQL:" ++ nl
            ++ KeywordFallback.sparql ex)
  | None => None
  end.

(** [array.map(f)] for a callback that may throw: the texts, or nothing
    when a call threw. *)
Fixpoint map_option {A B : Type} (f : A -> option B) (l : list A) : option (list B) :=
  match l with
  | [] => Some []
  | a :: r =>
      match f a with
      | Some b => option_map (cons b) (map_option f r)
      | None => None
      end
  end.

(** The iterator of a string: a high surrogate followed by a low one is
    one element, every other code unit is an element of its own. *)
Definition is_high_surrogate (c : char16) : bool := ((55296 <=? c) && (c <=? 56319))%N.
Definition is_low_surrogate (c : char16) : bool := ((56320 <=? c) && (c <=? 57343))%N.

Fixpoint code_points (s : jstring) : list jstring :=
  match s with
  | [] => []
  | c :: r =>
      match r with
      | d :: r' =>
          if is_high_surrogate c && is_low_surrogate d
          then [c; d] :: code_points r'
          else [c] :: code_points r
      | [] => [[c]]
      end
  end.

(** [s.substring(0, s.indexOf(char) + 1)]; the index is -1 when [char]
    does not occur. *)
Definition up_to_first (char s : jstring) : jstring :=
  match indexOf char s with
  | Some i => firstn (i + 1) s
  | None => []
  end.

(** The events of the loop [for (const char of accumulatedText)]. *)
Definition chunk_events (accumulatedText : jstring) : list Event :=
  map (fun char => chunk_event char (up_to_first char accumulatedText))
      (code_points accumulatedText).

(** The answer of the outer handler for what was thrown. *)
Definition failure (e : thrown) : Reply :=
  match e with
  | Error message =>
      if includes (js "ECONNREFUSED") message || includes (js "fetch failed") message
      then Document 503
             (error_payload
                (js "Cannot connect to Ollama. Make sure it is running (docker-compose up -d)")
                (Some message))
      else Document 500
             (error_payload (js "Failed to generate SPARQL query") (Some message))
  | NotAnError =>
      Document 500
        (error_payload (js "Failed to generate SPARQL query") (Some (js "Unknown error")))
  end.

Section Handler.
Context {num : Type} {NumOps : Number num}.

(** The files and the embedding provider of the retrieval service. *)
Variable env : Env num.

(** The environment of the process and the client of the language model. *)
Variable penv : ProcessEnv.
Variable invoke : Client -> jstring -> attempt Answer.

(** The vocabulary file as [readFileSync] returns it ([None]: it throws). *)
Variable vocabularyFile : option jstring.

(** What [new Date().toISOString()] gives; every request calls it once. *)
Variable toISOString : jstring.

(** The message of the error object of an exception of the retrieval
    service or of the engine. *)
Variable message_of : exn -> jstring.

(** [loadDCATContext]: the file, or a text that says it was not read. *)
Definition loadDCATContext : jstring :=
  match vocabularyFile with
  | Some content => content
  | None => js "Error: No se pudo cargar el contexto DCAT"
  end.

(** The prompt and the name of its source.  With documents of the
    knowledge base the prompt is written from their examples; the
    constant [cleanPatterns] that the handler also computes is used
    nowhere.  Without documents the prompt is written from the vocabulary
    file and the examples selected for the question. *)
Definition write_prompt (kbContext : QueryContext) (query : jstring)
  : World num -> attempt (jstring * jstring) * World num :=
  fun w =>
    if 0 <? totalDocs (context_metadata kbContext) then
      (Done (kb_prompt (cleanExamples (examples kbContext)) query,
             js "knowledge-base"), w)
    else
      let dcatContext := loadDCATContext in
      match getRelevantExamplesWithEmbeddings env query 3 w with
      | (Throw x, w') => (Raised (Error (message_of x)), w')
      | (Ok relevantExamples, w') =>
          match map_option (fun p => example_text (fst p) (snd p))
                           (indexed relevantExamples) with
          | None => (Raised (Error (message_of TypeError)), w')
          | Some texts =>
              (Done (legacy_prompt dcatContext (join (nl ++ nl) texts) query,
                     js "legacy"), w')
          end
      end.

(** The function [start] of the stream: the events that it enqueues
    before it closes the stream. *)
Definition start (prompt contextSource : jstring) (kbDocs : nat)
    (llmProvider : LLMProvider) : list Event :=
  metadata_event contextSource kbDocs llmProvider toISOString
  :: match invokeLLM (toLowerCase env) penv invoke prompt None with
     | Done llmResponse =>
         let accumulatedText := response_content llmResponse in
         chunk_events accumulatedText
         ++ [ done_event (cleanSparqlResponse accumulatedText) contextSource kbDocs
                (response_provider llmResponse) (response_model llmResponse);
              all_done ]
     | Raised e => [ error_event (message_or e (js "Unknown streaming error")) ]
     end.

(** [POST]: [body] is what [await request.json()] gives and the
    destructuring takes from it ([Raised]: one of the two throws). *)
Definition POST (body : attempt RequestBody) : World num -> Reply * World num :=
  fun w =>
    match body with
    | Raised e => (failure e, w)
    | Done b =>
        match body_query b with
        | Some (JString ((_ :: _) as query)) =>
            let stream := match body_stream b with
                          | None => true
                          | Some v => json_truthy v
                          end in
            match getContextForQuery env query w with
            | (Throw x, w1) => (failure (Error (message_of x)), w1)
            | (Ok kbContext, w1) =>
                match write_prompt kbContext query w1 with
                | (Raised e, w2) => (failure e, w2)
                | (Done (prompt, contextSource), w2) =>
                    let llmProvider := getLLMProvider (toLowerCase env) penv in
                    let kbDocs := totalDocs (context_metadata kbContext) in
                    if stream then
                      (Stream (start prompt contextSource kbDocs llmProvider), w2)
                    else
                      match invokeLLM (toLowerCase env) penv invoke prompt None with
                      | Raised e => (failure e, w2)
                      | Done llmResponse =>
                          let response := response_content llmResponse in
                          let sparql := cleanSparqlResponse response in
                          (Document 200
                             (sparql_payload sparql contextSource kbDocs
                                (response_provider llmResponse)
                                (response_model llmResponse) toISOString), w2)
                      end
                end
            end
        | _ =>
            (Document 400
               (error_payload (js "Query is required and must be a string") None), w)
        end
    end.

End Handler.

(** The code units of a text are not surrogates. *)
Definition no_surrogate (s : jstring) : bool :=
  forallb (fun c => negb (is_high_surrogate c || is_low_surrogate c)) s.

(** The texts streamed so far after each code unit of a text. *)
Definition running_prefixes (s : jstring) : list jstring :=
  map (fun k => firstn (S k) s) (seq 0 (List.length s)).

Definition event_content (e : Event) : jstring :=
  match e with
  | chunk_event content _ => content
  | _ => []
  end.

Definition event_accumulated (e : Event) : jstring :=
  match e with
  | chunk_event _ accumulated => accumulated
  | _ => []
  end.

(** The queries that an answer carries to the client: the one of a
    document, or those of the closing events of a stream. *)
Definition sent_queries (r : Reply) : list jstring :=
  match r with
  | Document _ (sparql_payload sparql _ _ _ _ _) => [sparql]
  | Document _ (error_payload _ _) => []
  | Stream events =>
      flat_map (fun e => match e with
                         | done_event sparql _ _ _ _ => [sparql]
                         | _ => []
                         end) events
  end.

End Route.

(** A request that asks for the stream, a client that answers every prompt
    with the same fenced text, and a clock. *)
Definition a_request : Route.RequestBody :=
  {| Route.body_query := Some (Route.JString Sample.a_query);
     Route.body_stream := None |}.

Definition fenced_text : jstring :=
  fence_sparql ++ nl ++ js "SELECT ?d WHERE { ?d a dcat:Dataset } LIMIT 10" ++ nl ++ fence.

Definition fenced_answer (client : LlmService.Client) (prompt : jstring)
  : LlmService.attempt LlmService.Answer :=
  LlmService.Done (LlmService.Text fenced_text).

Definition a_time : jstring := js "2025-01-01T00:00:00.000Z".

Definition a_message (x : exn) : jstring := js "error".

(* ================================================================== *)
(** * Lists *)
(* ================================================================== *)

Section ListFacts.
Context {A : Type}.

Lemma firstn_In (n : nat) (l : list A) (z : A) : In z (firstn n l) -> In z l.
Proof.
  revert n. induction l as [|x l IH]; intros [|n]; simpl; try tauto.
  intros [H | H]; [now left | right; now apply (IH n)].
Qed.

Lemma StronglySorted_firstn (R : A -> A -> Prop) (n : nat) (l : list A) :
  StronglySorted R l -> StronglySorted R (firstn n l).
Proof.
  intros Hs. revert n. induction Hs as [|x l Hl IH Hx]; intros [|n]; simpl;
    try constructor.
  - apply IH.
  - rewrite Forall_forall in *. intros z Hz. apply Hx.
    now apply firstn_In with n.
Qed.

Lemma StronglySorted_weaken (R S : A -> A -> Prop) (l : list A) :
  (forall x y, In x l -> In y l -> R x y -> S x y) ->
  StronglySorted R l -> StronglySorted S l.
Proof.
  intros HRS Hs. induction Hs as [|x l Hl IH Hx]; constructor.
  - apply IH. intros a b Ha Hb. apply HRS; now right.
  - rewrite Forall_forall in *. intros z Hz.
    apply HRS; [now left | now right | now apply Hx].
Qed.

(** The elements of a class in a prefix are a prefix of the class. *)
Lemma filter_firstn_prefix (p : A -> bool) (m : nat) (l : list A) :
  exists n, filter p (firstn m l) = firstn n (filter p l).
Proof.
  revert m. induction l as [|x l IH]; intros [|m]; simpl.
  - now exists 0.
  - now exists 0.
  - now exists 0.
  - destruct (IH m) as (n & Hn). destruct (p x).
    + exists (S n). simpl. now rewrite Hn.
    + now exists n.
Qed.

Lemma slice0_is_prefix (k : Z) (l : list A) : exists m, slice0 k l = firstn m l.
Proof. unfold slice0. destruct (k <? 0)%Z; eexists; reflexivity. Qed.

End ListFacts.

(* ================================================================== *)
(** * Properties of the sanitizer: brace repair *)
(* ================================================================== *)

(** C1 (the code does not do what the claim says).  On the scenario of the
    specification (no limit clause, one unclosed brace, no prefixes) the
    sanitizer returns the default prefix block followed by the text with
    its fences removed: the leading prose is kept, no closing brace
    is inserted and the braces stay unbalanced (one open, none closed).
    With a limit clause and two unclosed braces a single brace is
    inserted, so the output is unbalanced as well. *)
Theorem C1_scenario_left_unbalanced :
  cleanSparqlResponse scenario_raw =
    requiredPrefixes ++ js "Here you go:" ++ nl ++
    js "SELECT ?d WHERE { ?d a Dataset" ++ nl
  /\ count_char open_brace (cleanSparqlResponse scenario_raw) = 1
  /\ count_char close_brace (cleanSparqlResponse scenario_raw) = 0
  /\ includes (js "SELECT ?d WHERE { ?d a Dataset }")
       (cleanSparqlResponse scenario_raw) = false
  /\ cleanSparqlResponse two_open_raw =
       requiredPrefixes ++ js "SELECT ?s WHERE { { ?s ?p ?o" ++ nl ++ js "} LIMIT 5"
  /\ count_char open_brace (cleanSparqlResponse two_open_raw) = 2
  /\ count_char close_brace (cleanSparqlResponse two_open_raw) = 1.
Proof. vm_compute. repeat split; reflexivity. Qed.

(** The repair step never changes the number of opening braces and adds at
    most one closing brace; without a limit clause it changes nothing. *)
Lemma repair_adds_at_most_one_brace (s : jstring) :
  count_char open_brace (insert_closing_brace s) = count_char open_brace s
  /\ count_char close_brace (insert_closing_brace s) <= S (count_char close_brace s)
  /\ (search ws_limit_len s = None -> insert_closing_brace s = s).
Proof.
  unfold insert_closing_brace, count_char.
  destruct (search ws_limit_len s) as [[i n]|].
  - rewrite !count_occ_app.
    change (count_occ N.eq_dec nl open_brace) with 0.
    change (count_occ N.eq_dec [close_brace] open_brace) with 0.
    change (count_occ N.eq_dec nl close_brace) with 0.
    change (count_occ N.eq_dec [close_brace] close_brace) with 1.
    pose proof (firstn_skipn i s) as Hs.
    assert (Ho : count_occ N.eq_dec s open_brace
                 = count_occ N.eq_dec (firstn i s) open_brace
                   + count_occ N.eq_dec (skipn i s) open_brace)
      by (rewrite <- Hs at 1; apply count_occ_app).
    assert (Hc : count_occ N.eq_dec s close_brace
                 = count_occ N.eq_dec (firstn i s) close_brace
                   + count_occ N.eq_dec (skipn i s) close_brace)
      by (rewrite <- Hs at 1; apply count_occ_app).
    unfold jstring, char16 in *. repeat split; [lia | lia | discriminate].
  - repeat split; auto.
Qed.

(* ================================================================== *)
(** * Properties of the keyword fallback retriever *)
(* ================================================================== *)

Section KeywordFallbackFacts.
Import KeywordFallback.
Variable toLowerCase : jstring -> jstring.
Variable allExamples : list Example.

Lemma set_add_in_range (n idx : nat) (s : list nat) :
  idx < n -> Forall (fun i => i < n) s -> Forall (fun i => i < n) (set_add idx s).
Proof.
  intros Hidx Hs. unfold set_add.
  destruct (existsb (Nat.eqb idx) s); [assumption|].
  apply Forall_app; split; [assumption | constructor; [assumption | constructor]].
Qed.

Lemma add_in_range_keeps (sel : list nat) (idx : nat) :
  Forall (fun i => i < List.length allExamples) sel ->
  Forall (fun i => i < List.length allExamples) (add_in_range allExamples sel idx).
Proof.
  intros Hs. unfold add_in_range.
  destruct (idx <? List.length allExamples) eqn:E; [|assumption].
  apply set_add_in_range; [now apply Nat.ltb_lt | assumption].
Qed.

Lemma scan_rule_keeps (q : jstring) (sel : list nat) (rule : KeywordRule) :
  Forall (fun i => i < List.length allExamples) sel ->
  Forall (fun i => i < List.length allExamples) (scan_rule allExamples q sel rule).
Proof.
  intros Hs. unfold scan_rule.
  destruct (existsb _ (terms rule)); [|assumption].
  revert sel Hs. induction (examples rule) as [|i l IH]; intros sel Hs; simpl.
  - assumption.
  - apply IH. now apply add_in_range_keeps.
Qed.

(** The loop over the rule table skips the indices that are out of range. *)
Lemma rule_indices_in_range (q : jstring) (rules : list KeywordRule) (sel : list nat) :
  Forall (fun i => i < List.length allExamples) sel ->
  Forall (fun i => i < List.length allExamples)
         (fold_left (scan_rule allExamples q) rules sel).
Proof.
  revert sel. induction rules as [|r rules IH]; intros sel Hs; simpl.
  - assumption.
  - apply IH. now apply scan_rule_keeps.
Qed.

End KeywordFallbackFacts.

(** When a rule selects an index, every element of the result is a loaded
    example: the rule loop skips the indices that are out of range. *)
Lemma matched_rules_return_examples (toLowerCase : jstring -> jstring)
    (allExamples : list KeywordFallback.Example) (query : jstring) (k : Z) :
  fold_left (KeywordFallback.scan_rule allExamples (toLowerCase query))
            KeywordFallback.keywords [] <> [] ->
  Forall (fun element => exists ex, element = Some ex /\ In ex allExamples)
         (KeywordFallback.getRelevantExamples toLowerCase allExamples query k).
Proof.
  intros Hne. unfold KeywordFallback.getRelevantExamples, KeywordFallback.selectIndices.
  pose proof (@rule_indices_in_range allExamples (toLowerCase query)
                KeywordFallback.keywords [] (Forall_nil _)) as Hr.
  destruct (fold_left _ KeywordFallback.keywords []) as [|i sel] eqn:E;
    [contradiction|].
  apply Forall_forall. intros element Hin. apply in_map_iff in Hin.
  destruct Hin as (j & <- & Hj).
  destruct (slice0_is_prefix k (i :: sel)) as (m & Em). rewrite Em in Hj.
  apply firstn_In in Hj. rewrite Forall_forall in Hr. specialize (Hr j Hj).
  destruct (nth_error allExamples j) as [ex|] eqn:En.
  - exists ex. split; [reflexivity|]. now apply nth_error_In with j.
  - apply nth_error_None in En. lia.
Qed.

(** With no example loaded no rule can select an index. *)
Lemma no_example_no_selection (q : jstring) (rules : list KeywordFallback.KeywordRule) :
  fold_left (KeywordFallback.scan_rule [] q) rules [] = [].
Proof.
  pose proof (@rule_indices_in_range [] q rules [] (Forall_nil _)) as H.
  destruct (fold_left _ rules []) as [|i l]; [reflexivity|].
  inversion H as [|? ? Hi _]. simpl in Hi. lia.
Qed.

(** C2 (the code does not do what the claim says).  With an empty example
    sequence every query takes the default branch, which adds the indices
    0, 1 and 2 without the range test of the rule loop; for [k = 3] the
    result is three [undefined] placeholders, not the empty sequence. *)
Theorem C2_default_branch_unguarded (toLowerCase : jstring -> jstring) (query : jstring) :
  KeywordFallback.getRelevantExamples toLowerCase [] query 3 = [None; None; None].
Proof.
  unfold KeywordFallback.getRelevantExamples, KeywordFallback.selectIndices.
  rewrite no_example_no_selection. reflexivity.
Qed.

(** The same defect with one example loaded and a query no rule matches:
    indices 1 and 2 are out of range and yield placeholders. *)
Example default_branch_one_example :
  let ex := {| KeywordFallback.query := js "Dame todos los datasets";
               KeywordFallback.sparql := js "SELECT * WHERE { ?s ?p ?o } LIMIT 10" |} in
  KeywordFallback.getRelevantExamples KeywordFallback.ascii_lower [ex] (js "hola") 3
  = [Some ex; None; None].
Proof. vm_compute. reflexivity. Qed.

(* ================================================================== *)
(** * Properties of the semantic retriever and of the aggregator *)
(* ================================================================== *)

Section RetrievalFacts.
Context {num : Type} {NumOps : Number num}.

Local Ltac unfold_monad :=
  unfold loadVectorStore, getEmbeddingsModel, embedQuery, bind, try_catch,
    ret, get, put, throw, lift; simpl.

(** The search, one case per path through its body. *)
Lemma search_closed_form (env : Env num) (query : jstring) (k : Z)
    (filter : option SearchFilter) (w : World num) :
  searchKnowledgeBase env query k filter w =
  match current_store env w with
  | None => (Ok [], w)
  | Some store =>
      let loaded := {| embeddingsModel := embeddingsModel w;
                       embeddingsCache := embeddingsCache w;
                       vectorStore := Some store;
                       embedCalls := embedCalls w |} in
      match documents store with
      | [] => (Ok [], loaded)
      | _ :: _ =>
          if embeddingsModel w || modelAvailable env then
            let asked := {| embeddingsModel := true;
                            embeddingsCache := embeddingsCache w;
                            vectorStore := Some store;
                            embedCalls := embedCalls w ++ [query] |} in
            match provider env (embedCalls w) query with
            | None => (Ok [], asked)
            | Some qe =>
                match map_result (score_document qe) (candidates store filter) with
                | Ok scored => (Ok (slice0 k (sort_by by_score_desc scored)), asked)
                | Throw _ => (Ok [], asked)
                end
            end
          else (Ok [], loaded)
      end
  end.
Proof.
  destruct w as [mdl cache vs calls]. unfold searchKnowledgeBase, current_store.
  unfold_monad.
  destruct vs as [store|]; simpl.
  - destruct (documents store); [reflexivity|].
    destruct mdl; simpl.
    + destruct (provider env calls query); [|reflexivity].
      destruct (map_result _ _); reflexivity.
    + destruct (modelAvailable env); simpl; [|reflexivity].
      destruct (provider env calls query); [|reflexivity].
      destruct (map_result _ _); reflexivity.
  - destruct (storeFile env) as [store|]; simpl; [|reflexivity].
    destruct (documents store); [reflexivity|].
    destruct mdl; simpl.
    + destruct (provider env calls query); [|reflexivity].
      destruct (map_result _ _); reflexivity.
    + destruct (modelAvailable env); simpl; [|reflexivity].
      destruct (provider env calls query); [|reflexivity].
      destruct (map_result _ _); reflexivity.
Qed.

(** A search never raises: every failure inside it is caught. *)
Lemma search_returns (env : Env num) (query : jstring) (k : Z)
    (filter : option SearchFilter) (w : World num) :
  searchKnowledgeBase env query k filter w =
  (Ok (retrieved env query k filter w), after_search env query k filter w).
Proof.
  unfold retrieved, after_search. rewrite search_closed_form.
  destruct (current_store env w) as [store|]; [|reflexivity]. simpl.
  destruct (documents store); [reflexivity|].
  destruct (embeddingsModel w || modelAvailable env); [|reflexivity].
  destruct (provider env (embedCalls w) query); [|reflexivity].
  destruct (map_result _ _); reflexivity.
Qed.

(** The aggregator in terms of its three searches. *)
Lemma context_closed_form (env : Env num) (query : jstring) (w : World num) :
  let f t := Some {| filter_type := Some (js t); filter_category := None;
                     filter_difficulty := None |} in
  let r1 := retrieved env query 2 (f "vocabulary"%string) w in
  let w1 := after_search env query 2 (f "vocabulary"%string) w in
  let r2 := retrieved env query 2 (f "pattern"%string) w1 in
  let w2 := after_search env query 2 (f "pattern"%string) w1 in
  let r3 := retrieved env query 3 (f "example"%string) w2 in
  let w3 := after_search env query 3 (f "example"%string) w2 in
  getContextForQuery env query w =
  (Ok {| vocabularies := map (fun item => content (document item)) r1;
         patterns := map (fun item => content (document item)) r2;
         examples := map (fun item => content (document item)) r3;
         context_metadata :=
           {| totalDocs := List.length (r1 ++ r2 ++ r3);
              types := fold_left
                         (fun acc item => count_type (type (metadata (document item))) acc)
                         (r1 ++ r2 ++ r3) [] |} |}, w3).
Proof.
  cbv zeta.
  unfold getContextForQuery, try_catch, bind, promise_all3, searchKnowledgeBaseByType.
  rewrite !search_returns. reflexivity.
Qed.

(** On an empty index a search returns nothing, asks the provider nothing
    and leaves the index empty. *)
Lemma search_empty_index (env : Env num) (query : jstring) (k : Z)
    (filter : option SearchFilter) (w : World num) :
  index_empty env w ->
  retrieved env query k filter w = [] /\
  embedCalls (after_search env query k filter w) = embedCalls w /\
  index_empty env (after_search env query k filter w).
Proof.
  unfold index_empty, retrieved, after_search. rewrite search_closed_form.
  destruct (current_store env w) as [store|] eqn:Hs.
  - intros Hd. rewrite Hd. simpl. repeat split; try reflexivity.
    unfold current_store. simpl. exact Hd.
  - intros _. simpl. rewrite Hs. repeat split; reflexivity.
Qed.

End RetrievalFacts.

(** C5.  When the knowledge base index is absent or holds no document, a
    search returns the empty sequence without raising (and without calling
    the embedding provider), and the context aggregator returns a context
    whose [totalDocs] is 0. *)
Theorem C5_empty_index_empty_result {num : Type} {NumOps : Number num}
    (env : Env num) (w : World num) (query : jstring) (k : Z)
    (filter : option SearchFilter) :
  index_empty env w ->
  (exists w', searchKnowledgeBase env query k filter w = (Ok [], w')
              /\ embedCalls w' = embedCalls w)
  /\ (exists ctx w', getContextForQuery env query w = (Ok ctx, w')
                     /\ totalDocs (context_metadata ctx) = 0).
Proof.
  intros He. split.
  - exists (after_search env query k filter w).
    rewrite search_returns.
    destruct (@search_empty_index _ _ env query k filter w He) as (Hr & Hc & _).
    rewrite Hr. split; [reflexivity | exact Hc].
  - pose proof (context_closed_form env query w) as Hctx. cbv zeta in Hctx.
    eexists. eexists. split; [exact Hctx|]. simpl.
    match goal with
    | |- List.length (retrieved env query 2 ?f1 w ++ _) = 0 =>
        destruct (@search_empty_index _ _ env query 2 f1 _ He) as (H1 & _ & He1)
    end.
    rewrite H1. simpl.
    match goal with
    | |- List.length (retrieved env query 2 ?f2 ?w1 ++ _) = 0 =>
        destruct (@search_empty_index _ _ env query 2 f2 _ He1) as (H2 & _ & He2)
    end.
    rewrite H2. simpl.
    match goal with
    | |- List.length (retrieved env query 3 ?f3 ?w2) = 0 =>
        destruct (@search_empty_index _ _ env query 3 f3 _ He2) as (H3 & _ & _)
    end.
    rewrite H3. reflexivity.
Qed.

Lemma C5_empty_index_witness :
  (exists w', searchKnowledgeBase Sample.no_index Sample.a_query 5 None Sample.fresh
              = (Ok [], w')
              /\ embedCalls w' = embedCalls Sample.fresh)
  /\ (exists ctx w', getContextForQuery Sample.no_index Sample.a_query Sample.fresh
                     = (Ok ctx, w')
                     /\ totalDocs (context_metadata ctx) = 0).
Proof.
  apply (@C5_empty_index_empty_result float _ Sample.no_index Sample.fresh
           Sample.a_query 5 None).
  vm_compute. exact I.
Defined.

(** C10.  The aggregator always returns a context, and its [totalDocs] is
    the sum of the lengths of the three sequences it returns. *)
Theorem C10_totalDocs_is_sum {num : Type} {NumOps : Number num}
    (env : Env num) (w : World num) (query : jstring) :
  match fst (getContextForQuery env query w) with
  | Ok ctx =>
      totalDocs (context_metadata ctx) =
      List.length (vocabularies ctx) + List.length (patterns ctx)
      + List.length (examples ctx)
  | Throw _ => False
  end.
Proof.
  pose proof (context_closed_form env query w) as Hctx. cbv zeta in Hctx.
  rewrite Hctx. simpl.
  rewrite !length_app, !length_map. lia.
Qed.

(* ================================================================== *)
(** * Failures, result length and side effects of a search *)
(* ================================================================== *)

Section SearchFacts.
Context {num : Type} {NumOps : Number num}.

Lemma map_result_length {A B : Type} (f : A -> result B) (l : list A) (bs : list B) :
  map_result f l = Ok bs -> List.length bs = List.length l.
Proof.
  revert bs. induction l as [|a l IH]; intros bs; simpl.
  - intros H. injection H as <-. reflexivity.
  - destruct (f a); [|discriminate].
    destruct (map_result f l); [|discriminate].
    intros H. injection H as <-. simpl. f_equal. now apply IH.
Qed.

Lemma map_result_throw {A B : Type} (f : A -> result B) (l : list A) (x : exn) :
  map_result f l = Throw x -> exists a, In a l /\ f a = Throw x.
Proof.
  induction l as [|a l IH]; simpl; [discriminate|].
  destruct (f a) eqn:Ea.
  - destruct (map_result f l); [discriminate|].
    intros H. injection H as ->.
    destruct (IH eq_refl) as (a' & Hin & Ha'). exists a'. auto.
  - intros H. injection H as ->. exists a. auto.
Qed.

Lemma map_result_In {A B : Type} (f : A -> result B) (l : list A) (bs : list B) (b : B) :
  map_result f l = Ok bs -> In b bs -> exists a, In a l /\ f a = Ok b.
Proof.
  revert bs. induction l as [|a l IH]; intros bs; simpl.
  - intros H. injection H as <-. intros [].
  - destruct (f a) eqn:Ea; [|discriminate].
    destruct (map_result f l) eqn:El; [|discriminate].
    intros H. injection H as <-. intros [<- | Hin].
    + exists a. auto.
    + destruct (IH _ eq_refl Hin) as (a' & Ha' & Hf). exists a'. auto.
Qed.

Lemma insert_by_perm {A : Type} (cmp : A -> A -> num) (x : A) (l : list A) :
  Permutation (insert_by cmp x l) (x :: l).
Proof.
  induction l as [|y l IH]; simpl; [reflexivity|].
  destruct (nltb nzero (cmp x y)); [|reflexivity].
  rewrite IH. apply perm_swap.
Qed.

(** Sorting permutes the array. *)
Lemma sort_by_perm {A : Type} (cmp : A -> A -> num) (l : list A) :
  Permutation (sort_by cmp l) l.
Proof.
  induction l as [|x l IH]; simpl; [reflexivity|].
  rewrite insert_by_perm. now constructor.
Qed.

Lemma slice0_length {A : Type} (k : Z) (l : list A) :
  (1 <= k)%Z -> List.length (slice0 k l) = Nat.min (Z.to_nat k) (List.length l).
Proof.
  intros Hk. unfold slice0.
  destruct (k <? 0)%Z eqn:E; [apply Z.ltb_lt in E; lia|].
  apply length_firstn.
Qed.

Lemma candidates_have_embedding (store : VectorStore num)
    (filter : option SearchFilter) (doc : Document num) :
  In doc (candidates store filter) -> exists e, embedding doc = Some e.
Proof.
  unfold candidates. intros H. apply filter_In in H. destruct H as [_ H].
  unfold has_embedding in H. destruct (embedding doc) as [e|]; [|discriminate].
  now exists e.
Qed.

(** Scoring a candidate fails only on vectors of different lengths. *)
Lemma score_document_throw (qe : list num) (doc : Document num) (e : list num) (x : exn) :
  embedding doc = Some e -> score_document qe doc = Throw x ->
  List.length qe <> List.length e.
Proof.
  unfold score_document, cosineSimilarity. intros ->.
  destruct (List.length qe =? List.length e) eqn:E; simpl; [discriminate|].
  intros _. now apply Nat.eqb_neq.
Qed.

Lemma map_result_all_ok {A B : Type} (f : A -> result B) (l : list A) (bs : list B) (a : A) :
  map_result f l = Ok bs -> In a l -> exists b, f a = Ok b.
Proof.
  revert bs. induction l as [|a' l IH]; intros bs; simpl; [intros _ []|].
  destruct (f a') as [b'|] eqn:Ea; [|discriminate].
  destruct (map_result f l) as [bs'|]; [|discriminate].
  intros _ [<- | Hin]; [now exists b' | now apply (IH bs')].
Qed.

(** A search that finds no index, cannot reach the provider, or meets an
    embedding of another length than the query embedding, returns the
    empty sequence. *)
Lemma failed_search_is_empty (env : Env num) (query : jstring) (k : Z)
    (filter : option SearchFilter) (w : World num) :
  index_empty env w \/ provider_fails env w query
  \/ dimension_mismatch env w query filter ->
  retrieved env query k filter w = [].
Proof.
  unfold retrieved, index_empty, provider_fails, dimension_mismatch, qualifying.
  rewrite search_closed_form.
  destruct (current_store env w) as [store|]; [|reflexivity]. simpl.
  destruct (documents store) eqn:Hd; [reflexivity|].
  intros [H | [[[Hm Ha] | Hp] | (qe & doc & e & Hp & Hin & He & Hlen)]].
  - discriminate.
  - rewrite Hm, Ha. reflexivity.
  - rewrite Hp. destruct (embeddingsModel w || modelAvailable env); reflexivity.
  - rewrite Hp. destruct (embeddingsModel w || modelAvailable env); [|reflexivity].
    destruct (map_result (score_document qe) (candidates store filter)) eqn:Hs;
      [|reflexivity].
    exfalso. destruct (map_result_all_ok _ _ _ Hs Hin) as (b & Hb).
    unfold score_document, cosineSimilarity in Hb. rewrite He in Hb.
    apply Nat.eqb_neq in Hlen. rewrite Hlen in Hb. discriminate.
Qed.

End SearchFacts.

(** C6.  The aggregator never raises.  Its three searches run one after
    the other on the process state; each of them returns (none raises), a
    search that finds no index, whose provider request fails or that meets
    an embedding of the wrong length contributes the empty sequence, and the
    context is built from the three results whatever happened to the other
    searches. *)
Theorem C6_aggregator_absorbs_failures {num : Type} {NumOps : Number num}
    (env : Env num) (w : World num) (query : jstring) :
  let by_type t := Some {| filter_type := Some (js t); filter_category := None;
                           filter_difficulty := None |} in
  let r1 := retrieved env query 2 (by_type "vocabulary"%string) w in
  let w1 := after_search env query 2 (by_type "vocabulary"%string) w in
  let r2 := retrieved env query 2 (by_type "pattern"%string) w1 in
  let w2 := after_search env query 2 (by_type "pattern"%string) w1 in
  let r3 := retrieved env query 3 (by_type "example"%string) w2 in
  let w3 := after_search env query 3 (by_type "example"%string) w2 in
  searchKnowledgeBaseByType env query (js "vocabulary") 2 w = (Ok r1, w1)
  /\ searchKnowledgeBaseByType env query (js "pattern") 2 w1 = (Ok r2, w2)
  /\ searchKnowledgeBaseByType env query (js "example") 3 w2 = (Ok r3, w3)
  /\ (index_empty env w \/ provider_fails env w query
      \/ dimension_mismatch env w query (by_type "vocabulary"%string) -> r1 = [])
  /\ (index_empty env w1 \/ provider_fails env w1 query
      \/ dimension_mismatch env w1 query (by_type "pattern"%string) -> r2 = [])
  /\ (index_empty env w2 \/ provider_fails env w2 query
      \/ dimension_mismatch env w2 query (by_type "example"%string) -> r3 = [])
  /\ exists md,
       getContextForQuery env query w =
       (Ok {| vocabularies := map (fun item => content (document item)) r1;
              patterns := map (fun item => content (document item)) r2;
              examples := map (fun item => content (document item)) r3;
              context_metadata := md |}, w3).
Proof.
  cbv zeta. unfold searchKnowledgeBaseByType.
  repeat split; try apply search_returns; try apply failed_search_is_empty.
  eexists. apply context_closed_form.
Qed.

(** One request fails and the other two searches still contribute. *)
Example C6_one_failed_request :
  fst (getContextForQuery Sample.provider_flaky Sample.a_query Sample.fresh) =
  Ok {| vocabularies := [];
        patterns := [js "p1"];
        examples := [js "e1"; js "e2"; js "e3"];
        context_metadata :=
          {| totalDocs := 4; types := [(js "pattern", 1); (js "example", 3)] |} |}.
Proof. vm_compute. reflexivity. Qed.

(** C8 (counterexample).  The provider rejects the request: the search
    returns nothing for [k = 1] although a document of the requested type
    carries an embedding. *)
Lemma C8_provider_down_returns_nothing :
  let filter := Some {| filter_type := Some (js "vocabulary");
                        filter_category := None; filter_difficulty := None |} in
  retrieved Sample.provider_down Sample.a_query 1 filter Sample.fresh = []
  /\ List.length (qualifying Sample.provider_down Sample.fresh filter) = 1
  /\ ~ (List.length (retrieved Sample.provider_down Sample.a_query 1 filter Sample.fresh)
          < Z.to_nat 1 ->
        List.length (qualifying Sample.provider_down Sample.fresh filter) < Z.to_nat 1).
Proof.
  vm_compute. repeat split. intros H. specialize (H (le_n 1)).
  inversion H as [|? H0]. inversion H0.
Qed.

(** C8 (amended).  For [k >= 1] a search returns at most [k] documents;
    it returns fewer than [k] only when fewer than [k] documents carry an
    embedding and satisfy the filter, or when the retrieval failed (the
    embeddings model or the provider request failed, or an embedding has
    not the length of the query embedding), in which case it returns the
    empty sequence.  A search that returns anything returns as many
    documents as [k] and the number of qualifying documents allow. *)
Theorem C8_at_most_k {num : Type} {NumOps : Number num}
    (env : Env num) (w : World num) (query : jstring) (k : Z)
    (filter : option SearchFilter) :
  (1 <= k)%Z ->
  List.length (retrieved env query k filter w) <= Z.to_nat k
  /\ (List.length (retrieved env query k filter w) < Z.to_nat k ->
      List.length (qualifying env w filter) < Z.to_nat k
      \/ (retrieved env query k filter w = []
          /\ (provider_fails env w query \/ dimension_mismatch env w query filter)))
  /\ (retrieved env query k filter w = []
      \/ List.length (retrieved env query k filter w)
         = Nat.min (Z.to_nat k) (List.length (qualifying env w filter))).
Proof.
  intros Hk. unfold retrieved, qualifying, provider_fails, dimension_mismatch, qualifying.
  rewrite search_closed_form.
  destruct (current_store env w) as [store|]; simpl;
    [|split; [lia | split; [left; lia | now left]]].
  destruct (documents store) as [|d ds] eqn:Hd; simpl.
  { split; [lia|]. split; [|now left]. intros _. left. unfold candidates. rewrite Hd.
    destruct filter; simpl; lia. }
  destruct (embeddingsModel w || modelAvailable env) eqn:Hm; simpl.
  2:{ split; [lia|]. split; [|now left]. intros _. right. split; [reflexivity|].
      left. left. now apply orb_false_elim in Hm. }
  destruct (provider env (embedCalls w) query) as [qe|] eqn:Hp; simpl.
  2:{ split; [lia|]. split; [|now left]. intros _. right. split; [reflexivity|].
      left. now right. }
  destruct (map_result (score_document qe) (candidates store filter))
    as [scored | x] eqn:Hs; simpl.
  - assert (Hlen : List.length (slice0 k (sort_by by_score_desc scored))
                   = Nat.min (Z.to_nat k) (List.length (candidates store filter))).
    { rewrite slice0_length by assumption.
      rewrite (Permutation_length (sort_by_perm by_score_desc scored)).
      now rewrite (map_result_length _ _ Hs). }
    rewrite Hlen. split; [lia|]. split; [|now right]. intros H. left. lia.
  - split; [lia|]. split; [|now left]. intros _. right. split; [reflexivity|]. right.
    destruct (map_result_throw _ _ Hs) as (doc & Hin & Hthrow).
    destruct (candidates_have_embedding _ _ _ Hin) as (e & He).
    exists qe, doc, e. repeat split; try assumption.
    now apply (score_document_throw _ _ He Hthrow).
Qed.

Lemma C8_at_most_k_witness :
  List.length (retrieved Sample.mixed_env Sample.a_query 2 None Sample.fresh) <= Z.to_nat 2
  /\ (List.length (retrieved Sample.mixed_env Sample.a_query 2 None Sample.fresh) < Z.to_nat 2 ->
      List.length (qualifying Sample.mixed_env Sample.fresh None) < Z.to_nat 2
      \/ (retrieved Sample.mixed_env Sample.a_query 2 None Sample.fresh = []
          /\ (provider_fails Sample.mixed_env Sample.fresh Sample.a_query
              \/ dimension_mismatch Sample.mixed_env Sample.fresh Sample.a_query None)))
  /\ (retrieved Sample.mixed_env Sample.a_query 2 None Sample.fresh = []
      \/ List.length (retrieved Sample.mixed_env Sample.a_query 2 None Sample.fresh)
         = Nat.min (Z.to_nat 2)
                   (List.length (qualifying Sample.mixed_env Sample.fresh None))).
Proof.
  apply (@C8_at_most_k float _ Sample.mixed_env Sample.fresh Sample.a_query 2 None).
  lia.
Defined.

(** C9 (counterexample).  The cache holds the embedding of the query, yet
    the search sends the query to the provider again; and a search on a
    fresh process changes two other module-level variables, the loaded
    store and the embeddings model. *)
Lemma C9_cached_query_embedded_again :
  cache_get Sample.a_query (embeddingsCache Sample.cached) = Some [3%float; 4%float]
  /\ embedCalls Sample.cached = []
  /\ embedCalls (after_search Sample.mixed_env Sample.a_query 5 None Sample.cached)
     = [Sample.a_query]
  /\ vectorStore Sample.fresh = None
  /\ vectorStore (after_search Sample.mixed_env Sample.a_query 5 None Sample.fresh)
     = Some Sample.mixed
  /\ embeddingsModel Sample.fresh = false
  /\ embeddingsModel (after_search Sample.mixed_env Sample.a_query 5 None Sample.fresh)
     = true.
Proof. vm_compute. repeat split; reflexivity. Qed.

(* ================================================================== *)
(** * Provider requests of the example selection *)
(* ================================================================== *)

Section ExampleSelectionFacts.
Context {num : Type} {NumOps : Number num}.
Variable env : Env num.

(** The synchronous parts of the callbacks ask the provider for exactly
    the questions that the cache does not hold, in index order, and change
    nothing else. *)
Lemma start_callbacks_effect (cache : list (jstring * list num))
    (items : list (nat * KeywordFallback.Example)) (w : World num) :
  exists started,
    map_M (start_callback env cache) items w =
    (Ok started,
     {| embeddingsModel := embeddingsModel w;
        embeddingsCache := embeddingsCache w;
        vectorStore := vectorStore w;
        embedCalls :=
          embedCalls w ++
          map KeywordFallback.query (List.filter (uncached cache) (map snd items)) |}).
Proof.
  revert w. induction items as [|item items IH]; intros w.
  - exists []. simpl. unfold ret. rewrite app_nil_r. destruct w; reflexivity.
  - simpl map_M. unfold bind at 1. unfold start_callback at 1.
    simpl map. simpl List.filter. unfold uncached at 1.
    destruct (cache_get (KeywordFallback.query (snd item)) cache) as [e|].
    + unfold ret at 1. unfold bind at 1.
      destruct (IH w) as (started & E). rewrite E.
      unfold ret. eexists. reflexivity.
    + unfold embedQuery, bind at 1, get, bind at 1, put. cbv beta iota.
      set (w1 := {| embeddingsModel := embeddingsModel w;
                    embeddingsCache := embeddingsCache w;
                    vectorStore := vectorStore w;
                    embedCalls := embedCalls w ++ [KeywordFallback.query (snd item)] |}).
      destruct (IH w1) as (started & E).
      destruct (provider env (embedCalls w) (KeywordFallback.query (snd item)));
        unfold ret at 1, throw, bind at 1; cbv beta iota; rewrite E;
        unfold ret; subst w1; simpl; rewrite <- app_assoc; simpl;
        eexists; reflexivity.
Qed.

Lemma promise_all_cons {A : Type} (m : M num A) (r : list (M num A)) (w : World num) :
  promise_all (m :: r) w =
  let '(a, w1) := m w in
  let '(bs, w2) := promise_all r w1 in
  match a, bs with
  | Ok a, Ok bs => (Ok (a :: bs), w2)
  | Throw x, _ => (Throw x, w2)
  | _, Throw x => (Throw x, w2)
  end.
Proof. reflexivity. Qed.

(** The rest of the callbacks asks the provider nothing. *)
Lemma finish_callbacks_calls (qe : list num)
    (started : list (nat * KeywordFallback.Example * Pending (num := num)))
    (w : World num) :
  embedCalls (snd (promise_all (map (finish_callback qe) started) w)) = embedCalls w.
Proof.
  revert w. induction started as [|[item pending] started IH]; intros w;
    [reflexivity|].
  cbn [map]. rewrite promise_all_cons.
  destruct (finish_callback qe (item, pending) w) as [a w1] eqn:E1.
  assert (Hw1 : embedCalls w1 = embedCalls w).
  { unfold finish_callback in E1. destruct pending as [e | [e | x]].
    - unfold lift in E1. now injection E1 as _ <-.
    - unfold bind, get, put, lift in E1. now injection E1 as _ <-.
    - unfold throw in E1. now injection E1 as _ <-. }
  specialize (IH w1).
  destruct (promise_all (map (finish_callback qe) started) w1) as [bs w2].
  simpl in IH. destruct a, bs; simpl; congruence.
Qed.

(** The provider requests of one example selection: the user's query, which
    is sent whenever examples are loaded and the model is there, and then
    the example questions that the cache does not hold. *)
Lemma example_selection_calls (query : jstring) (k : Z) (w : World num) :
  embedCalls (snd (getRelevantExamplesWithEmbeddings env query k w)) =
  match loadedExamples env with
  | [] => embedCalls w
  | _ :: _ =>
      if embeddingsModel w || modelAvailable env then
        embedCalls w ++ query ::
          match provider env (embedCalls w) query with
          | Some _ => uncached_questions env w
          | None => []
          end
      else embedCalls w
  end.
Proof.
  unfold getRelevantExamplesWithEmbeddings, uncached_questions. cbv zeta.
  assert (Hsnd : forall (l : list KeywordFallback.Example), map snd (indexed l) = l).
  { intros l. unfold indexed. generalize 0 as n.
    induction l as [|a l IH]; intros n; [reflexivity|].
    simpl. now rewrite IH. }
  remember (indexed (loadedExamples env)) as items eqn:Eitems.
  assert (Hitems : map snd items = loadedExamples env) by (subst items; apply Hsnd).
  clear Eitems Hsnd.
  destruct w as [mdl cache vs calls]. simpl embeddingsModel. simpl embedCalls.
  simpl embeddingsCache.
  destruct (loadedExamples env) as [|ex exs]; [reflexivity|].
  assert (Hbody : forall qe w1,
             embeddingsCache w1 = cache ->
             embedCalls
               (snd
                  (try_catch
                     (bind get (fun w0 =>
                        bind (map_M (start_callback env (embeddingsCache w0)) items)
                          (fun started =>
                             bind (promise_all (map (finish_callback qe) started))
                               (fun examplesWithScores =>
                                  ret (map (fun item => Some (example item))
                                         (slice0 k
                                            (sort_by
                                               (fun a b => nsub (example_score b)
                                                                (example_score a))
                                               examplesWithScores)))))))
                     (fun _ => ret (KeywordFallback.getRelevantExamples
                                      (toLowerCase env) (ex :: exs) query k)) w1))
             = embedCalls w1 ++
               map KeywordFallback.query (List.filter (uncached cache) (ex :: exs))).
  { intros qe w1 Hc. unfold try_catch, bind at 1, get. cbv beta iota.
    unfold bind at 1.
    destruct (start_callbacks_effect (embeddingsCache w1) items w1) as (started & E).
    rewrite E. unfold bind at 1.
    pose proof (finish_callbacks_calls qe started
                  {| embeddingsModel := embeddingsModel w1;
                     embeddingsCache := embeddingsCache w1;
                     vectorStore := vectorStore w1;
                     embedCalls := embedCalls w1 ++
                       map KeywordFallback.query
                         (List.filter (uncached (embeddingsCache w1)) (map snd items)) |})
      as Hfin.
    destruct (promise_all (map (finish_callback qe) started) _) as [[r|x] w3];
      unfold ret; simpl in Hfin |- *; rewrite Hfin, Hitems, Hc; reflexivity. }
  unfold try_catch in *. unfold bind at 1, getEmbeddingsModel, bind at 1, get at 1.
  cbv beta iota. simpl embeddingsModel.
  destruct mdl; simpl orb.
  - unfold ret at 1. cbv beta iota.
    unfold bind at 1, embedQuery, bind at 1, get at 1, bind at 1, put at 1.
    cbv beta iota. simpl embedCalls.
    destruct (provider env calls query) as [qe|].
    + unfold ret at 1. cbv beta iota.
      rewrite (Hbody qe {| embeddingsModel := true; embeddingsCache := cache;
                             vectorStore := vs; embedCalls := calls ++ [query] |}
                 eq_refl). simpl. now rewrite <- app_assoc.
    + unfold throw, ret. reflexivity.
  - destruct (modelAvailable env).
    + unfold put at 1. cbv beta iota.
      unfold bind at 1, embedQuery, bind at 1, get at 1, bind at 1, put at 1.
      cbv beta iota. simpl embedCalls.
      destruct (provider env calls query) as [qe|].
      * unfold ret at 1. cbv beta iota.
        rewrite (Hbody qe {| embeddingsModel := true; embeddingsCache := cache;
                             vectorStore := vs; embedCalls := calls ++ [query] |}
                 eq_refl). simpl. now rewrite <- app_assoc.
      * unfold throw, ret. reflexivity.
    + unfold throw, ret. reflexivity.
Qed.

End ExampleSelectionFacts.

(** The cache holds the question of the second example, which is also the
    user's query: the query is sent to the provider all the same, the
    cached example question is not sent a second time. *)
Example example_selection_requests :
  embedCalls (snd (getRelevantExamplesWithEmbeddings Sample.mixed_env Sample.a_query 3
                     Sample.cached))
  = [Sample.a_query; js "Dame todos los datasets"; js "Datasets sobre salud"].
Proof. vm_compute. reflexivity. Qed.

(** C9 (amended).  A search neither reads nor writes the embedding cache.
    Its effects on the process are: the store is loaded and kept on first
    use; when the index holds a document the embeddings model is built on
    first use and, once it is there, the query is sent to the provider
    exactly once, whether or not the cache holds the query; otherwise the
    provider is not called.  The cache serves the example selection only:
    there the user's query is sent to the provider on every call, followed
    by the questions of the loaded examples that the cache does not hold. *)
Theorem C9_search_effects {num : Type} {NumOps : Number num}
    (env : Env num) (w : World num) (query : jstring) (k : Z)
    (filter : option SearchFilter) :
  let w' := after_search env query k filter w in
  embeddingsCache w' = embeddingsCache w
  /\ vectorStore w' = current_store env w
  /\ embeddingsModel w' =
       (if has_documents env w then embeddingsModel w || modelAvailable env
        else embeddingsModel w)
  /\ embedCalls w' =
       (if has_documents env w && (embeddingsModel w || modelAvailable env)
        then embedCalls w ++ [query] else embedCalls w)
  /\ embedCalls (snd (getRelevantExamplesWithEmbeddings env query k w)) =
       match loadedExamples env with
       | [] => embedCalls w
       | _ :: _ =>
           if embeddingsModel w || modelAvailable env then
             embedCalls w ++ query ::
               match provider env (embedCalls w) query with
               | Some _ => uncached_questions env w
               | None => []
               end
           else embedCalls w
       end.
Proof.
  cbv zeta. rewrite example_selection_calls.
  repeat match goal with |- _ /\ _ => split end; try reflexivity.
  all: revert w.
  all: intros w.
  all: unfold after_search, has_documents; rewrite search_closed_form.
  all: destruct (current_store env w) as [store|] eqn:Hs; simpl;
    [ destruct (documents store); simpl; [auto|];
      destruct (embeddingsModel w || modelAvailable env) eqn:Hm; simpl;
      [ destruct (provider env (embedCalls w) query); simpl; [|auto];
        destruct (map_result _ _); simpl; auto
      | apply orb_false_elim in Hm; destruct Hm as [Hm _]; rewrite ?Hm; auto ]
    | unfold current_store in Hs; destruct (vectorStore w); [discriminate|]; auto ].
Qed.

(* ================================================================== *)
(** * Order of the results *)
(* ================================================================== *)

Section StableInsertion.
Context {num : Type} {NumOps : Number num} {A : Type}.
Variable cmp : A -> A -> num.

(** Below, [nltb nzero (cmp x y) = true] says that [x] has to move behind
    [y]: the comparator value is positive. *)
Variable dom : list A.
Hypothesis behind_asym :
  forall x y, In x dom -> In y dom -> nltb nzero (cmp x y) = true -> nltb nzero (cmp y x) = false.
Hypothesis behind_negtrans :
  forall x y z, In x dom -> In y dom -> In z dom ->
                nltb nzero (cmp x y) = false -> nltb nzero (cmp y z) = false -> nltb nzero (cmp x z) = false.

Lemma insert_by_In (x z : A) (l : list A) :
  In z (insert_by cmp x l) <-> z = x \/ In z l.
Proof.
  split; intros H.
  - apply (Permutation_in _ (insert_by_perm cmp x l)) in H.
    destruct H as [<- | H]; auto.
  - apply (Permutation_in _ (Permutation_sym (insert_by_perm cmp x l))).
    destruct H as [-> | H]; [now left | now right].
Qed.

Lemma insert_by_sorted (x : A) (l : list A) :
  In x dom -> incl l dom ->
  StronglySorted (fun a b => nltb nzero (cmp a b) = false) l ->
  StronglySorted (fun a b => nltb nzero (cmp a b) = false) (insert_by cmp x l).
Proof.
  intros Hx Hl Hs. induction Hs as [|y r Hr IH Hy]; simpl.
  - repeat constructor.
  - assert (Hyd : In y dom) by (apply Hl; now left).
    assert (Hrd : incl r dom) by (intros z Hz; apply Hl; now right).
    destruct (nltb nzero (cmp x y)) eqn:E.
    + constructor; [now apply IH|].
      apply Forall_forall. intros z Hz. apply insert_by_In in Hz.
      destruct Hz as [-> | Hz].
      * now apply behind_asym.
      * rewrite Forall_forall in Hy. now apply Hy.
    + constructor; [now constructor|].
      constructor; [assumption|].
      apply Forall_forall. intros z Hz. rewrite Forall_forall in Hy.
      apply behind_negtrans with y; auto.
Qed.

Lemma sort_by_sorted (l : list A) :
  incl l dom -> StronglySorted (fun a b => nltb nzero (cmp a b) = false) (sort_by cmp l).
Proof.
  induction l as [|x l IH]; intros Hl; simpl; [constructor|].
  apply insert_by_sorted.
  - apply Hl. now left.
  - intros z Hz. apply Hl. right.
    now apply (Permutation_in _ (sort_by_perm cmp l)).
  - apply IH. intros z Hz. apply Hl. now right.
Qed.

Variable p : A -> bool.
Hypothesis p_closed :
  forall x y, In x dom -> In y dom -> p x = true -> nltb nzero (cmp x y) = true -> p y = false.

(** Inserting an element does not move it past an element of its class. *)
Lemma insert_by_filter (x : A) (l : list A) :
  In x dom -> incl l dom ->
  filter p (insert_by cmp x l) = filter p (x :: l).
Proof.
  intros Hx. induction l as [|y r IH]; intros Hl; [reflexivity|].
  assert (Hyd : In y dom) by (apply Hl; now left).
  assert (Hrd : incl r dom) by (intros z Hz; apply Hl; now right).
  simpl insert_by. destruct (nltb nzero (cmp x y)) eqn:E; [|reflexivity].
  simpl. rewrite (IH Hrd). simpl.
  destruct (p x) eqn:Px; [|reflexivity].
  assert (Py : p y = false) by (apply p_closed with (x := x); assumption).
  now rewrite Py.
Qed.

Lemma sort_by_filter (l : list A) :
  incl l dom -> filter p (sort_by cmp l) = filter p l.
Proof.
  induction l as [|x l IH]; intros Hl; [reflexivity|].
  simpl sort_by. rewrite insert_by_filter.
  - simpl. rewrite IH; [reflexivity|]. intros z Hz. apply Hl. now right.
  - apply Hl. now left.
  - intros z Hz. apply Hl. right.
    now apply (Permutation_in _ (sort_by_perm cmp l)).
Qed.

End StableInsertion.


Section OrderFacts.
Context {num : Type} {NumOps : Number num}.

Lemma consistent_facts (scores : list num) (a b c : num) :
  comparator_consistent scores = true ->
  In a scores -> In b scores -> In c scores ->
  nltb nzero (nsub b a) = nltb a b
  /\ nleb b a = negb (nltb a b)
  /\ (nltb a b = true -> nltb b a = false)
  /\ (nltb a b = false -> nltb b c = false -> nltb a c = false).
Proof.
  unfold comparator_consistent. intros H Ha Hb Hc.
  rewrite forallb_forall in H. specialize (H a Ha).
  rewrite forallb_forall in H. specialize (H b Hb).
  rewrite forallb_forall in H. specialize (H c Hc).
  unfold consistent_at in H.
  apply andb_prop in H. destruct H as [H H4].
  apply andb_prop in H. destruct H as [H H3].
  apply andb_prop in H. destruct H as [H1 H2].
  apply eqb_prop in H1. apply eqb_prop in H2.
  repeat split.
  - exact H1.
  - now rewrite H2.
  - intros E. rewrite E in H3. simpl in H3. now apply negb_true_iff in H3.
  - intros E1 E2. rewrite E1, E2 in H4. simpl in H4. now apply negb_true_iff in H4.
Qed.

Lemma map_result_document (qe : list num) (l : list (Document num))
    (scored : list (RetrievedDocument num)) :
  map_result (score_document qe) l = Ok scored -> map document scored = l.
Proof.
  revert scored. induction l as [|d l IH]; intros scored; simpl.
  - intros H. injection H as <-. reflexivity.
  - destruct (score_document qe d) as [r|] eqn:Ed; [|discriminate].
    destruct (map_result (score_document qe) l) as [rs|]; [|discriminate].
    intros H. injection H as <-. simpl. rewrite (IH rs eq_refl). f_equal.
    unfold score_document in Ed. destruct (embedding d); [|discriminate].
    destruct (cosineSimilarity qe l0); [|discriminate].
    injection Ed as <-. reflexivity.
Qed.

(** A search returns nothing, or the first elements of its sorted scored
    candidates, which are the qualifying documents in index order. *)
Lemma retrieved_shape (env : Env num) (query : jstring) (k : Z)
    (filter : option SearchFilter) (w : World num) :
  retrieved env query k filter w = []
  \/ (retrieved env query k filter w =
        slice0 k (sort_by by_score_desc (scored_candidates env query filter w))
      /\ map document (scored_candidates env query filter w) = qualifying env w filter).
Proof.
  unfold retrieved, scored_candidates, qualifying. rewrite search_closed_form.
  destruct (current_store env w) as [store|]; simpl; [|now left].
  destruct (documents store); [now left|].
  destruct (embeddingsModel w || modelAvailable env); simpl; [|now left].
  destruct (provider env (embedCalls w) query) as [qe|]; simpl; [|now left].
  destruct (map_result (score_document qe) (candidates store filter)) eqn:E;
    simpl; [|now left].
  right. split; [reflexivity|]. now apply map_result_document with qe.
Qed.

End OrderFacts.

(** C7 (counterexample).  The first document of the index has an all-zero
    embedding, so its score is NaN; the comparator yields NaN for the pair,
    the sort leaves the two documents in place, and the second score (1) is
    not below or equal to the first. *)
Lemma C7_nan_score_breaks_order :
  map (fun item => (id (document item), score item))
      (retrieved Sample.zero_first_env Sample.a_query 5 None Sample.fresh)
  = [(js "zero", nan); (js "unit", 1%float)]
  /\ PrimFloat.leb 1%float nan = false
  /\ ~ StronglySorted (fun x y => nleb (score y) (score x) = true)
         (retrieved Sample.zero_first_env Sample.a_query 5 None Sample.fresh).
Proof.
  split; [vm_compute; reflexivity|]. split; [vm_compute; reflexivity|].
  remember (retrieved Sample.zero_first_env Sample.a_query 5 None Sample.fresh)
    as l eqn:E.
  vm_compute in E. subst l. intros H.
  inversion H as [|? ? _ Hall]. inversion Hall as [|? ? Hy _].
  vm_compute in Hy. discriminate.
Qed.

(** C7 (amended).  Whenever the comparator orders the computed scores
    consistently (as it does when no score is NaN), the returned sequence
    is non-increasing in score, and for every score the returned documents
    with that score are the first of the candidates with that score, in
    their order in the index; the candidates are the qualifying documents
    in index order. *)
Theorem C7_sorted_and_stable {num : Type} {NumOps : Number num}
    (env : Env num) (w : World num) (query : jstring) (k : Z)
    (filter : option SearchFilter) :
  comparator_consistent (map score (scored_candidates env query filter w)) = true ->
  StronglySorted (fun x y => nleb (score y) (score x) = true)
                 (retrieved env query k filter w)
  /\ (forall c, In c (scored_candidates env query filter w) ->
        exists n, List.filter (tied (score c)) (retrieved env query k filter w)
                  = firstn n (List.filter (tied (score c))
                                     (scored_candidates env query filter w)))
  /\ (retrieved env query k filter w = []
      \/ map document (scored_candidates env query filter w) = qualifying env w filter).
Proof.
  intros Hc.
  set (scored := scored_candidates env query filter w) in *.
  assert (Hin : forall x, In x scored -> In (score x) (map score scored))
    by (intros x Hx; now apply in_map).
  destruct (retrieved_shape env query k filter w) as [-> | [-> Hdocs]].
  { repeat split; [constructor | | now left].
    intros c _. now exists 0. }
  fold scored. destruct (slice0_is_prefix k (sort_by by_score_desc scored)) as (m & ->).
  assert (Hperm : forall z, In z (sort_by by_score_desc scored) -> In z scored)
    by (intros z; apply Permutation_in, sort_by_perm).
  repeat split.
  - apply StronglySorted_firstn.
    apply StronglySorted_weaken
      with (R := fun a b => nltb nzero (by_score_desc a b) = false).
    + intros x y Hx Hy Hxy. apply Hperm in Hx. apply Hperm in Hy.
      destruct (consistent_facts _ _ _ (score x) Hc (Hin _ Hx) (Hin _ Hy) (Hin _ Hx))
        as (H1 & H2 & _).
      unfold by_score_desc in Hxy. rewrite H1 in Hxy. rewrite H2, Hxy. reflexivity.
    + apply sort_by_sorted with (dom := scored).
      * intros x y Hx Hy. unfold by_score_desc.
        destruct (consistent_facts _ _ _ (score x) Hc (Hin _ Hx) (Hin _ Hy) (Hin _ Hx))
          as (H1 & _ & H3 & _).
        destruct (consistent_facts _ _ _ (score x) Hc (Hin _ Hy) (Hin _ Hx) (Hin _ Hx))
          as (H1' & _).
        rewrite H1, H1'. exact H3.
      * intros x y z Hx Hy Hz. unfold by_score_desc.
        destruct (consistent_facts _ _ _ (score z) Hc (Hin _ Hx) (Hin _ Hy) (Hin _ Hz))
          as (H1 & _ & _ & H4).
        destruct (consistent_facts _ _ _ (score z) Hc (Hin _ Hy) (Hin _ Hz) (Hin _ Hz))
          as (H1' & _).
        destruct (consistent_facts _ _ _ (score z) Hc (Hin _ Hx) (Hin _ Hz) (Hin _ Hz))
          as (H1'' & _).
        rewrite H1, H1', H1''. exact H4.
      * apply incl_refl.
  - intros c Hcin.
    destruct (filter_firstn_prefix (tied (score c)) m (sort_by by_score_desc scored))
      as (n & Hn).
    exists n. rewrite Hn. f_equal.
    apply sort_by_filter with (dom := scored); [|apply incl_refl].
    intros x y Hx Hy Hp Hb. unfold tied in *. unfold by_score_desc in Hb.
    apply andb_prop in Hp. destruct Hp as [Hp1 Hp2].
    apply negb_true_iff in Hp1. apply negb_true_iff in Hp2.
    destruct (consistent_facts _ _ _ (score y) Hc (Hin _ Hx) (Hin _ Hy) (Hin _ Hy))
      as (H1 & _).
    rewrite H1 in Hb.
    destruct (nltb (score c) (score y)) eqn:E1; [reflexivity|].
    destruct (consistent_facts _ _ _ (score y) Hc (Hin _ Hx) (Hin _ Hcin) (Hin _ Hy))
      as (_ & _ & _ & H4).
    rewrite (H4 Hp2 E1) in Hb. discriminate.
  - now right.
Qed.

Lemma C7_sorted_and_stable_witness :
  StronglySorted (fun x y => nleb (score y) (score x) = true)
                 (retrieved Sample.mixed_env Sample.a_query 5 None Sample.fresh)
  /\ (forall c, In c (scored_candidates Sample.mixed_env Sample.a_query None Sample.fresh) ->
        exists n, filter (tied (score c))
                         (retrieved Sample.mixed_env Sample.a_query 5 None Sample.fresh)
                  = firstn n (filter (tied (score c))
                                (scored_candidates Sample.mixed_env Sample.a_query None
                                   Sample.fresh)))
  /\ (retrieved Sample.mixed_env Sample.a_query 5 None Sample.fresh = []
      \/ map document (scored_candidates Sample.mixed_env Sample.a_query None Sample.fresh)
         = qualifying Sample.mixed_env Sample.fresh None).
Proof.
  apply (@C7_sorted_and_stable float _ Sample.mixed_env Sample.fresh Sample.a_query 5 None).
  vm_compute. reflexivity.
Defined.

(** The two tied documents of the sample index keep their index order. *)
Example C7_tie_keeps_index_order :
  map (fun item => id (document item))
      (retrieved Sample.mixed_env Sample.a_query 5 None Sample.fresh)
  = [js "e1"; js "e2"; js "p1"; js "v1"; js "e3"]
  /\ map (fun item => PrimFloat.eqb (score item) 1%float)
         (retrieved Sample.mixed_env Sample.a_query 2 None Sample.fresh)
     = [true; true].
Proof. vm_compute. split; reflexivity. Qed.

(* ================================================================== *)
(** * Range of the scores *)
(* ================================================================== *)

Section CosineReal.
Local Open Scope R_scope.

Lemma fold_dot_shift (l : list (R * R)) (acc : R) :
  fold_left (fun sum p => sum + fst p * snd p) l acc
  = acc + fold_left (fun sum p => sum + fst p * snd p) l 0.
Proof.
  revert acc. induction l as [|p l IH]; intros acc; simpl; [lra|].
  rewrite IH. rewrite (IH (0 + _)). lra.
Qed.

Lemma fold_square_shift (l : list R) (acc : R) :
  fold_left (fun sum val => sum + val * val) l acc
  = acc + fold_left (fun sum val => sum + val * val) l 0.
Proof.
  revert acc. induction l as [|x l IH]; intros acc; simpl; [lra|].
  rewrite IH. rewrite (IH (0 + _)). lra.
Qed.

Lemma dotProduct_cons (x y : R) (a b : list R) :
  dotProduct (x :: a) (y :: b) = x * y + dotProduct a b.
Proof.
  unfold dotProduct. simpl. rewrite fold_dot_shift. lra.
Qed.

Lemma sumSquares_cons (x : R) (a : list R) :
  sumSquares (x :: a) = x * x + sumSquares a.
Proof.
  unfold sumSquares. simpl. rewrite fold_square_shift. lra.
Qed.

Lemma sumSquares_nonneg (a : list R) : 0 <= sumSquares a.
Proof.
  induction a as [|x a IH].
  - unfold sumSquares. simpl. lra.
  - rewrite sumSquares_cons. nra.
Qed.

(** The step of the Cauchy-Schwarz induction. *)
Lemma cauchy_schwarz_step (x y d A B : R) :
  0 <= A -> 0 <= B -> d * d <= A * B ->
  (x * y + d) * (x * y + d) <= (x * x + A) * (y * y + B).
Proof.
  intros HA HB Hd.
  assert (Hmix : 2 * x * y * d <= x * x * B + A * y * y).
  { destruct (Req_dec B 0) as [HB0 | HB0].
    - subst B. rewrite Rmult_0_r in Hd.
      assert (Hd0 : d = 0)
        by (destruct (Rtotal_order d 0) as [Hlt | [Heq | Hgt]]; [nra | exact Heq | nra]).
      subst d. nra.
    - assert (HBpos : 0 < B) by lra.
      assert (H : 0 <= B * (x * x * B + A * y * y - 2 * x * y * d)).
      { replace (B * (x * x * B + A * y * y - 2 * x * y * d))
          with ((B * x - d * y) * (B * x - d * y) + (A * B - d * d) * (y * y))
          by ring.
        pose proof (Rle_0_sqr (B * x - d * y)) as H1. unfold Rsqr in H1.
        pose proof (Rle_0_sqr y) as H2. unfold Rsqr in H2.
        assert (H3 : 0 <= (A * B - d * d) * (y * y))
          by (apply Rmult_le_pos; lra).
        lra. }
      assert (H0 : 0 <= x * x * B + A * y * y - 2 * x * y * d).
      { apply Rmult_le_reg_l with B; [exact HBpos|]. lra. }
      lra. }
  replace ((x * y + d) * (x * y + d)) with (x * x * (y * y) + 2 * x * y * d + d * d)
    by ring.
  replace ((x * x + A) * (y * y + B)) with (x * x * (y * y) + (x * x * B + A * y * y) + A * B)
    by ring.
  lra.
Qed.

Lemma cauchy_schwarz (a b : list R) :
  List.length a = List.length b ->
  dotProduct a b * dotProduct a b <= sumSquares a * sumSquares b.
Proof.
  revert b. induction a as [|x a IH]; intros [|y b] Hlen; try discriminate.
  - unfold dotProduct, sumSquares. simpl. lra.
  - rewrite dotProduct_cons, !sumSquares_cons.
    apply cauchy_schwarz_step.
    + apply sumSquares_nonneg.
    + apply sumSquares_nonneg.
    + apply IH. simpl in Hlen. lia.
Qed.

(** In exact arithmetic the cosine of two vectors of non-zero magnitude
    lies between -1 and 1. *)
Lemma cosine_exact_bound (a b : list R) (s : R) :
  cosineSimilarity a b = Ok s ->
  magnitude a <> 0 -> magnitude b <> 0 -> -1 <= s <= 1.
Proof.
  unfold cosineSimilarity.
  destruct (List.length a =? List.length b)%nat eqn:E; simpl; [|discriminate].
  apply Nat.eqb_eq in E. intros H. injection H as <-. intros Ha Hb.
  pose proof (cauchy_schwarz a b E) as Hcs.
  pose proof (sumSquares_nonneg a) as HA.
  pose proof (sumSquares_nonneg b) as HB.
  unfold magnitude in *. simpl in *.
  set (ma := sqrt (sumSquares a)) in *. set (mb := sqrt (sumSquares b)) in *.
  assert (Hma : 0 < ma) by (pose proof (sqrt_pos (sumSquares a)); fold ma in H; lra).
  assert (Hmb : 0 < mb) by (pose proof (sqrt_pos (sumSquares b)); fold mb in H; lra).
  assert (Hsa : ma * ma = sumSquares a) by (apply sqrt_sqrt; exact HA).
  assert (Hsb : mb * mb = sumSquares b) by (apply sqrt_sqrt; exact HB).
  assert (Hp : 0 < ma * mb) by nra.
  assert (Hsq : dotProduct a b * dotProduct a b <= (ma * mb) * (ma * mb)).
  { replace ((ma * mb) * (ma * mb)) with ((ma * ma) * (mb * mb)) by ring.
    rewrite Hsa, Hsb. exact Hcs. }
  assert (Hup : dotProduct a b <= ma * mb) by nra.
  assert (Hlo : - (ma * mb) <= dotProduct a b) by nra.
  split.
  - apply Rmult_le_reg_r with (ma * mb); [exact Hp|].
    unfold Rdiv. rewrite Rmult_assoc, Rinv_l by lra. lra.
  - apply Rmult_le_reg_r with (ma * mb); [exact Hp|].
    unfold Rdiv. rewrite Rmult_assoc, Rinv_l by lra. lra.
Qed.

End CosineReal.




(* ================================================================== *)
(** * Idempotence of the sanitizer *)
(* ================================================================== *)

(** C4 (the code does not do what the claim says).  A query with a
    sub-query starts with a prefix declaration, ends in a limit clause and
    has balanced braces.  The sanitizer cuts it after the first limit
    clause, which leaves two braces open, and its repair step inserts a
    single closing brace; a second pass inserts another one, so sanitizing
    twice differs from sanitizing once. *)
Theorem C4_subquery_not_idempotent :
  starts_with_prefix subquery_raw = true
  /\ ends_in_limit_clause subquery_raw = true
  /\ brace_balanced subquery_raw = true
  /\ cleanSparqlResponse subquery_raw =
       js "PREFIX dcat: <http://www.w3.org/ns/dcat#> SELECT ?d WHERE { { SELECT ?d WHERE { ?d a dcat:Dataset }"
       ++ nl ++ js "} LIMIT 5"
  /\ cleanSparqlResponse (cleanSparqlResponse subquery_raw) =
       js "PREFIX dcat: <http://www.w3.org/ns/dcat#> SELECT ?d WHERE { { SELECT ?d WHERE { ?d a dcat:Dataset }"
       ++ nl ++ js "}" ++ nl ++ js "} LIMIT 5"
  /\ cleanSparqlResponse (cleanSparqlResponse subquery_raw)
     <> cleanSparqlResponse subquery_raw.
Proof.
  vm_compute. repeat split; try reflexivity. discriminate.
Qed.

(** A code-fence marker inside well-formed text has the same effect: the
    text holds one limit clause, at its end, but the text without the
    marker holds two. *)
Example fence_marker_breaks_idempotence :
  starts_with_prefix fenced_raw = true
  /\ single_final_limit_clause fenced_raw = true
  /\ brace_balanced fenced_raw = true
  /\ includes fence fenced_raw = true
  /\ cleanSparqlResponse (cleanSparqlResponse fenced_raw)
     <> cleanSparqlResponse fenced_raw.
Proof.
  vm_compute. repeat split; try reflexivity. discriminate.
Qed.

Section SanitizerFacts.

Lemma digit_not_space (c : char16) : is_digit c = true -> is_space c = false.
Proof.
  unfold is_digit, is_space. intros H.
  apply andb_prop in H. destruct H as [H1 H2].
  apply N.leb_le in H1. apply N.leb_le in H2.
  repeat match goal with
         | |- context [N.eqb c ?n] =>
             let E := fresh in destruct (N.eqb_spec c n) as [E | E]; [lia|]
         | |- context [N.leb ?a ?b] =>
             let E := fresh in destruct (N.leb_spec a b) as [E | E]; try lia
         end; reflexivity.
Qed.

Lemma takeWhile_skipn (p : char16 -> bool) (s : jstring) :
  takeWhile p s ++ skipn (List.length (takeWhile p s)) s = s.
Proof.
  induction s as [|c r IH]; simpl; [reflexivity|].
  destruct (p c); simpl; [now rewrite IH | reflexivity].
Qed.

Lemma takeWhile_all (p : char16 -> bool) (s : jstring) :
  Forall (fun c => p c = true) (takeWhile p s).
Proof.
  induction s as [|c r IH]; simpl; [constructor|].
  destruct (p c) eqn:E; constructor; assumption.
Qed.

(** A limit clause that fills the whole text ends with a digit. *)
Lemma limit_len_full_ends_digit (s : jstring) :
  limit_len s = Some (List.length s) ->
  exists r d, s = r ++ [d] /\ is_digit d = true.
Proof.
  unfold limit_len. destruct (starts_with_ci LIMIT s); [|discriminate].
  remember (skipn 5 s) as t eqn:Et.
  remember (takeWhile is_space t) as ws eqn:Ews.
  remember (takeWhile is_digit (skipn (List.length ws) t)) as ds eqn:Eds.
  destruct ws as [|w ws']; [discriminate|].
  destruct ds as [|d0 ds']; [discriminate|].
  intros H. injection H as H.
  assert (Hs : s = firstn 5 s ++ (w :: ws') ++ (d0 :: ds') ++
                   skipn (List.length (d0 :: ds'))
                         (skipn (List.length (w :: ws')) t)).
  { rewrite <- (firstn_skipn 5 s) at 1. f_equal. rewrite <- Et.
    rewrite <- (takeWhile_skipn is_space t) at 1. rewrite <- Ews. f_equal.
    rewrite <- (takeWhile_skipn is_digit (skipn (List.length (w :: ws')) t)) at 1.
    rewrite <- Eds. reflexivity. }
  assert (Hrest : skipn (List.length (d0 :: ds'))
                        (skipn (List.length (w :: ws')) t) = []).
  { apply length_zero_iff_nil.
    apply (f_equal (@List.length _)) in Hs.
    rewrite !length_app, length_firstn in Hs.
    cbn [List.length] in Hs, H |- *. lia. }
  rewrite Hrest, app_nil_r in Hs.
  assert (Hd : Forall (fun c => is_digit c = true) (d0 :: ds'))
    by (rewrite Eds; apply takeWhile_all).
  destruct (exists_last (l := d0 :: ds')) as (r & d & Er); [discriminate|].
  rewrite Er in Hs, Hd. exists (firstn 5 s ++ (w :: ws') ++ r), d. split.
  - rewrite Hs at 1. now rewrite <- !app_assoc.
  - apply Forall_app in Hd. destruct Hd as [_ Hd]. now inversion Hd.
Qed.

Lemma lazy_limit_len_cons (c : char16) (s : jstring) :
  lazy_limit_len (c :: s) =
  match limit_len (c :: s) with
  | Some n => Some n
  | None => option_map S (lazy_limit_len s)
  end.
Proof. reflexivity. Qed.

Lemma lazy_limit_full_ends_digit (s : jstring) :
  lazy_limit_len s = Some (List.length s) ->
  exists r d, s = r ++ [d] /\ is_digit d = true.
Proof.
  induction s as [|c s IH].
  - simpl. discriminate.
  - rewrite lazy_limit_len_cons. destruct (limit_len (c :: s)) eqn:E.
    + intros H. injection H as ->. now apply limit_len_full_ends_digit.
    + destruct (lazy_limit_len s) as [n|]; [|discriminate].
      simpl. intros H. injection H as ->.
      destruct (IH eq_refl) as (r & d & -> & Hd).
      exists (c :: r), d. split; [reflexivity | assumption].
Qed.

Lemma trimEnd_ends_digit (r : jstring) (d : char16) :
  is_digit d = true -> trimEnd (r ++ [d]) = r ++ [d].
Proof.
  intros Hd. unfold trimEnd. rewrite rev_app_distr. simpl.
  rewrite (digit_not_space d Hd). simpl. now rewrite rev_involutive.
Qed.

Lemma starts_with_app (p q s : jstring) :
  starts_with (p ++ q) s = true -> starts_with p s = true.
Proof.
  revert s. induction p as [|a p IH]; intros s; simpl; [reflexivity|].
  destruct s as [|b s]; [discriminate|].
  intros H. apply andb_prop in H. destruct H as [-> H]. simpl. now apply IH.
Qed.

(** A global removal changes nothing when its literal does not occur. *)
Lemma remove_all_absent (p q s : jstring) :
  indexOf p s = None -> remove_all (lit_opt_nl (p ++ q)) s = s.
Proof.
  unfold remove_all. induction s as [|c r IH]; [reflexivity|].
  simpl indexOf. destruct (starts_with p (c :: r)) eqn:E; [discriminate|].
  destruct (indexOf p r) eqn:Ei; [discriminate|]. intros _.
  simpl remove_all_from. unfold lit_opt_nl at 1.
  destruct (starts_with (p ++ q) (c :: r)) eqn:E2.
  - apply starts_with_app in E2. congruence.
  - f_equal. now apply IH.
Qed.

Lemma remove_all_absent_lit (p s : jstring) :
  indexOf p s = None -> remove_all (lit_opt_nl p) s = s.
Proof.
  intros H. rewrite <- (app_nil_r p) at 1. now apply remove_all_absent.
Qed.

(** A text that starts with a literal is the literal followed by a rest. *)
Lemma starts_with_inv (p s : jstring) :
  starts_with p s = true -> exists r, s = p ++ r.
Proof.
  revert s. induction p as [|a p IH]; intros s; simpl.
  - now exists s.
  - destruct s as [|b s]; [discriminate|].
    intros H. apply andb_prop in H. destruct H as [H1 H2].
    apply N.eqb_eq in H1. subst b.
    destruct (IH _ H2) as (r & ->). now exists r.
Qed.

(** The limit clause is searched behind the six letters of the keyword. *)
Lemma lazy_limit_behind_PREFIX (r : jstring) :
  lazy_limit_len (PREFIX ++ r) = option_map (Nat.add 6) (lazy_limit_len r).
Proof.
  unfold PREFIX. simpl js. simpl app.
  rewrite !lazy_limit_len_cons. cbn [limit_len].
  unfold limit_len at 1 2 3 4 5 6. cbn [starts_with_ci LIMIT js eq_ci].
  simpl. destruct (lazy_limit_len r); reflexivity.
Qed.

(** A brace-balanced text that starts with a prefix declaration, holds no
    code fence and a single limit clause, at its end, is a fixed point of
    the sanitizer. *)
Lemma clean_fixed_point (x : jstring) :
  starts_with_prefix x = true ->
  single_final_limit_clause x = true ->
  includes fence x = false ->
  brace_balanced x = true ->
  cleanSparqlResponse x = x.
Proof.
  unfold starts_with_prefix, single_final_limit_clause, includes, brace_balanced.
  intros Hp Hl Hf Hb.
  destruct (lazy_limit_len x) as [n|] eqn:El; [|discriminate].
  apply Nat.eqb_eq in Hl. subst n.
  destruct (indexOf fence x) eqn:Ef; [discriminate|]. clear Hf.
  apply Nat.eqb_eq in Hb.
  destruct (starts_with_inv _ _ Hp) as (r & Hx).
  assert (Htrim : trim x = x).
  { destruct (lazy_limit_full_ends_digit _ El) as (y & d & Ey & Hd).
    assert (Hstart : trimStart x = x) by (rewrite Hx; reflexivity).
    unfold trim. rewrite Hstart, Ey. now apply trimEnd_ends_digit. }
  assert (Hsearch : search (kw_to_limit_len PREFIX) x = Some (0, List.length x)).
  { destruct x as [|c x']; [discriminate|]. simpl search.
    unfold kw_to_limit_len.
    assert (Hci : starts_with_ci PREFIX (c :: x') = true).
    { rewrite Hx. unfold PREFIX. reflexivity. }
    rewrite Hci. rewrite Hx in El |- *. rewrite lazy_limit_behind_PREFIX in El.
    rewrite skipn_app. change (List.length PREFIX) with 6.
    change (skipn 6 PREFIX) with (@nil char16). simpl app. simpl skipn.
    destruct (lazy_limit_len r) as [m|]; [|discriminate].
    simpl in El |- *. injection El as El. rewrite El. reflexivity. }
  unfold cleanSparqlResponse. rewrite Htrim.
  change fence_sparql with (fence ++ js "sparql").
  rewrite (remove_all_absent fence (js "sparql") x Ef).
  rewrite (remove_all_absent_lit fence x Ef).
  unfold match_first. rewrite Hsearch. simpl option_map.
  rewrite firstn_all. rewrite Htrim.
  assert (Hidx : indexOf PREFIX x = Some 0).
  { destruct x as [|c x']; [discriminate Hp|].
    change (indexOf PREFIX (c :: x'))
      with (if starts_with PREFIX (c :: x') then Some 0
            else option_map S (indexOf PREFIX x')).
    now rewrite Hp. }
  rewrite Hidx. cbv iota. unfold match_anchored. rewrite El. simpl option_map.
  rewrite firstn_all. unfold includes. rewrite Hidx. simpl negb. cbv iota.
  rewrite Hb. rewrite Nat.ltb_irrefl. reflexivity.
Qed.

End SanitizerFacts.

(* ================================================================== *)
(** * Idempotence of the sanitizer: texts with several limit clauses *)
(* ================================================================== *)

Section SearchFacts2.

Lemma search_cons (m : matcher) (c : char16) (s : jstring) :
  search m (c :: s) =
  match m (c :: s) with
  | Some n => Some (0, n)
  | None => option_map (fun '(i, n) => (S i, n)) (search m s)
  end.
Proof. reflexivity. Qed.

(** The leftmost match: the matcher succeeds there and fails before. *)
Lemma search_intro (m : matcher) (s : jstring) (q n : nat) :
  q <= List.length s ->
  (forall i, i < q -> m (skipn i s) = None) ->
  m (skipn q s) = Some n ->
  search m s = Some (q, n).
Proof.
  revert s. induction q as [|q IH]; intros s Hq Hnone Hsome.
  - simpl in Hsome. destruct s; simpl; now rewrite Hsome.
  - destruct s as [|c s]; [simpl in Hq; lia|].
    rewrite search_cons.
    pose proof (Hnone 0 (Nat.lt_0_succ q)) as H0. simpl in H0. rewrite H0.
    rewrite (IH s); [reflexivity | simpl in Hq; lia | | exact Hsome].
    intros i Hi. apply (Hnone (S i)). lia.
Qed.

Lemma search_elim (m : matcher) (s : jstring) (q n : nat) :
  search m s = Some (q, n) ->
  q <= List.length s
  /\ (forall i, i < q -> m (skipn i s) = None)
  /\ m (skipn q s) = Some n.
Proof.
  revert q. induction s as [|c s IH]; intros q.
  - simpl. destruct (m []) eqn:E; [|discriminate].
    intros H. injection H as <- <-. repeat split; [lia | intros; lia | exact E].
  - rewrite search_cons. destruct (m (c :: s)) eqn:E.
    + intros H. injection H as <- <-. repeat split; [lia | intros; lia | exact E].
    + destruct (search m s) as [[i k]|] eqn:Es; [|discriminate].
      simpl. intros H. injection H as <- <-.
      destruct (IH i eq_refl) as (Hi & Hnone & Hsome).
      repeat split; [simpl; lia | | exact Hsome].
      intros [|j] Hj; [exact E | apply Hnone; lia].
Qed.

(** The lazy scan for a limit clause is the leftmost match of a clause. *)
Lemma lazy_limit_is_search (s : jstring) :
  lazy_limit_len s = option_map (fun '(i, n) => i + n) (search limit_len s).
Proof.
  induction s as [|c s IH].
  - simpl. destruct (limit_len []); reflexivity.
  - rewrite lazy_limit_len_cons, search_cons.
    destruct (limit_len (c :: s)); [reflexivity|].
    rewrite IH. destruct (search limit_len s) as [[i n]|]; reflexivity.
Qed.

Lemma lazy_limit_intro (s : jstring) (p n : nat) :
  p <= List.length s ->
  (forall i, i < p -> limit_len (skipn i s) = None) ->
  limit_len (skipn p s) = Some n ->
  lazy_limit_len s = Some (p + n).
Proof.
  intros Hp Hnone Hsome. rewrite lazy_limit_is_search.
  now rewrite (search_intro limit_len s Hp Hnone Hsome).
Qed.

Lemma lazy_limit_elim (s : jstring) (k : nat) :
  lazy_limit_len s = Some k ->
  exists p n, k = p + n /\ p <= List.length s
              /\ (forall i, i < p -> limit_len (skipn i s) = None)
              /\ limit_len (skipn p s) = Some n.
Proof.
  rewrite lazy_limit_is_search.
  destruct (search limit_len s) as [[p n]|] eqn:E; [|discriminate].
  simpl. intros H. injection H as <-.
  destruct (search_elim _ _ E) as (Hp & Hnone & Hsome).
  exists p, n. auto.
Qed.

End SearchFacts2.

Section LimitClauseFacts.

Lemma skipn_takeWhile (p : char16 -> bool) (s : jstring) :
  skipn (List.length (takeWhile p s)) s = dropWhile p s.
Proof.
  induction s as [|c s IH]; simpl; [reflexivity|].
  destruct (p c); simpl; [exact IH | reflexivity].
Qed.

Lemma takeWhile_all_app (p : char16 -> bool) (l X : jstring) :
  Forall (fun c => p c = true) l -> takeWhile p (l ++ X) = l ++ takeWhile p X.
Proof.
  induction 1 as [|c l Hc Hl IH]; simpl; [reflexivity|].
  now rewrite Hc, IH.
Qed.

Lemma dropWhile_all_app (p : char16 -> bool) (l X : jstring) :
  Forall (fun c => p c = true) l -> dropWhile p (l ++ X) = dropWhile p X.
Proof.
  induction 1 as [|c l Hc Hl IH]; simpl; [reflexivity|].
  now rewrite Hc, IH.
Qed.

(** A run stops inside [l] when [l] holds an element outside the class. *)
Lemma takeWhile_app_stop (p : char16 -> bool) (l X : jstring) :
  existsb (fun c => negb (p c)) l = true ->
  takeWhile p (l ++ X) = takeWhile p l.
Proof.
  induction l as [|c l IH]; simpl; [discriminate|].
  destruct (p c); simpl; [intros H; f_equal; now apply IH | reflexivity].
Qed.

Lemma dropWhile_app_stop (p : char16 -> bool) (l X : jstring) :
  existsb (fun c => negb (p c)) l = true ->
  dropWhile p (l ++ X) = dropWhile p l ++ X /\ dropWhile p l <> [].
Proof.
  induction l as [|c l IH]; simpl; [discriminate|].
  destruct (p c); simpl; [exact IH | intros _; split; [reflexivity | discriminate]].
Qed.

Lemma takeWhile_firstn_nil (p : char16 -> bool) (k : nat) (l : jstring) :
  takeWhile p l = [] -> takeWhile p (firstn k l) = [].
Proof.
  destruct l as [|c l]; destruct k; simpl; try reflexivity.
  destruct (p c); [discriminate | reflexivity].
Qed.

Lemma dropWhile_firstn (p : char16 -> bool) (k : nat) (l : jstring) :
  dropWhile p (firstn k l) = firstn (k - List.length (takeWhile p l)) (dropWhile p l).
Proof.
  revert k. induction l as [|c l IH]; intros [|k]; simpl; try reflexivity.
  destruct (p c); simpl; [apply IH | reflexivity].
Qed.

(** The head of a non-empty run of the class. *)
Lemma takeWhile_app_head (p : char16 -> bool) (l X Y : jstring) :
  l <> [] -> takeWhile p (l ++ X) = [] -> takeWhile p (l ++ Y) = [].
Proof.
  destruct l as [|c l]; [contradiction|]. simpl. intros _.
  destruct (p c); [discriminate | reflexivity].
Qed.

Lemma starts_with_ci_app (kw P X : jstring) :
  starts_with_ci kw P = true -> starts_with_ci kw (P ++ X) = true.
Proof.
  revert P. induction kw as [|a kw IH]; intros P; simpl; [reflexivity|].
  destruct P as [|b P]; [discriminate|]. simpl.
  intros H. apply andb_prop in H. destruct H as [-> H]. simpl. now apply IH.
Qed.

Lemma starts_with_ci_long (kw P X : jstring) :
  List.length kw <= List.length P ->
  starts_with_ci kw (P ++ X) = starts_with_ci kw P.
Proof.
  revert P. induction kw as [|a kw IH]; intros P; simpl; [reflexivity|].
  destruct P as [|b P]; simpl; [lia|].
  intros H. rewrite IH by lia. reflexivity.
Qed.

(** A code unit that is not a letter of the keyword ends the comparison. *)
Lemma starts_with_ci_cut (kw P X : jstring) (c : char16) :
  List.length P < List.length kw ->
  forallb (fun a => negb (eq_ci a c)) kw = true ->
  starts_with_ci kw (P ++ c :: X) = false.
Proof.
  revert P. induction kw as [|a kw IH]; intros P; simpl; [lia|].
  intros Hlen H. apply andb_prop in H. destruct H as [Ha Hkw].
  destruct P as [|b P]; simpl.
  - apply negb_true_iff in Ha. now rewrite Ha.
  - rewrite IH; [apply andb_false_r | simpl in Hlen; lia | exact Hkw].
Qed.

Lemma limit_letter_not_space (s : jstring) :
  starts_with_ci LIMIT s = true ->
  exists c r, s = c :: r /\ is_space c = false.
Proof.
  destruct s as [|c r]; [discriminate|]. simpl.
  intros H. apply andb_prop in H. destruct H as [H _].
  exists c, r. split; [reflexivity|].
  unfold eq_ci in H. apply orb_prop in H.
  destruct H as [H | H]; apply N.eqb_eq in H; subst c; reflexivity.
Qed.

(** The three ways in which no limit clause starts at the head of a text:
    the keyword is not there, no white space follows it, or no digit
    follows the white space. *)
Lemma limit_len_none_iff (s : jstring) :
  limit_len s = None <->
  starts_with_ci LIMIT s = false
  \/ takeWhile is_space (skipn 5 s) = []
  \/ takeWhile is_digit (dropWhile is_space (skipn 5 s)) = [].
Proof.
  unfold limit_len. rewrite skipn_takeWhile.
  destruct (starts_with_ci LIMIT s); [|tauto].
  destruct (takeWhile is_space (skipn 5 s)); [tauto|].
  destruct (takeWhile is_digit (dropWhile is_space (skipn 5 s))); [tauto|].
  split; [discriminate|]. intros [H | [H | H]]; discriminate.
Qed.

Lemma limit_len_space_head (c : char16) (s : jstring) :
  is_space c = true -> limit_len (c :: s) = None.
Proof.
  intros Hc. apply limit_len_none_iff. left.
  destruct (starts_with_ci LIMIT (c :: s)) eqn:E; [|reflexivity].
  destruct (limit_letter_not_space _ E) as (c' & r & Heq & Hc').
  injection Heq as <- _. congruence.
Qed.

(** Cutting a text never makes a limit clause appear at its head. *)
Lemma limit_len_firstn_none (j : nat) (s : jstring) :
  limit_len s = None -> limit_len (firstn j s) = None.
Proof.
  rewrite !limit_len_none_iff. intros [H | [H | H]].
  - left. destruct (starts_with_ci LIMIT (firstn j s)) eqn:E; [|reflexivity].
    apply (starts_with_ci_app _ _ (skipn j s)) in E.
    rewrite firstn_skipn in E. congruence.
  - right. left. rewrite skipn_firstn_comm. now apply takeWhile_firstn_nil.
  - right. right. rewrite skipn_firstn_comm, dropWhile_firstn.
    now apply takeWhile_firstn_nil.
Qed.

(** A keyword, white space and digits make a limit clause; the clause ends
    where the digits end. *)
Lemma limit_len_shape (l5 ws ds rest : jstring) :
  List.length l5 = 5 -> starts_with_ci LIMIT l5 = true ->
  ws <> [] -> Forall (fun c => is_space c = true) ws ->
  ds <> [] -> Forall (fun c => is_digit c = true) ds ->
  takeWhile is_digit rest = [] ->
  limit_len (l5 ++ ws ++ ds ++ rest) = Some (5 + List.length ws + List.length ds).
Proof.
  intros H5 Hci Hws Hsp Hds Hdg Hrest. unfold limit_len.
  rewrite (starts_with_ci_app _ _ _ Hci).
  assert (Hskip : skipn 5 (l5 ++ ws ++ ds ++ rest) = ws ++ ds ++ rest).
  { rewrite <- H5. rewrite skipn_app, skipn_all, Nat.sub_diag. reflexivity. }
  rewrite Hskip.
  assert (Htw : takeWhile is_space (ws ++ ds ++ rest) = ws).
  { rewrite (takeWhile_all_app _ _ Hsp).
    destruct ds as [|d ds']; [contradiction|]. simpl.
    inversion Hdg as [|? ? Hd _]. rewrite (digit_not_space d Hd).
    apply app_nil_r. }
  rewrite Htw.
  assert (Hafter : skipn (List.length ws) (ws ++ ds ++ rest) = ds ++ rest).
  { rewrite skipn_app, skipn_all, Nat.sub_diag. reflexivity. }
  rewrite Hafter. rewrite (takeWhile_all_app _ _ Hdg), Hrest, app_nil_r.
  destruct ws; [contradiction|]. destruct ds; [contradiction|]. reflexivity.
Qed.

(** The parts of a limit clause found at the head of a text. *)
Lemma limit_len_parts (s : jstring) (m : nat) :
  limit_len s = Some m ->
  exists l5 ws ds rest,
    s = l5 ++ ws ++ ds ++ rest /\ m = 5 + List.length ws + List.length ds
    /\ List.length l5 = 5 /\ starts_with_ci LIMIT l5 = true
    /\ ws <> [] /\ Forall (fun c => is_space c = true) ws
    /\ ds <> [] /\ Forall (fun c => is_digit c = true) ds.
Proof.
  unfold limit_len. destruct (starts_with_ci LIMIT s) eqn:Hci; [|discriminate].
  remember (skipn 5 s) as t eqn:Et.
  remember (takeWhile is_space t) as ws eqn:Ews.
  remember (takeWhile is_digit (skipn (List.length ws) t)) as ds eqn:Eds.
  destruct ws as [|w ws']; [discriminate|].
  destruct ds as [|d0 ds']; [discriminate|].
  intros H. injection H as <-.
  exists (firstn 5 s), (w :: ws'), (d0 :: ds'),
         (skipn (List.length (d0 :: ds')) (skipn (List.length (w :: ws')) t)).
  assert (Hlen : 5 <= List.length s).
  { destruct s as [|? [|? [|? [|? [|? ?]]]]]; simpl in Hci |- *;
      rewrite ?andb_false_r in Hci; try discriminate; lia. }
  repeat split.
  - rewrite <- (firstn_skipn 5 s) at 1. f_equal. rewrite <- Et.
    rewrite <- (takeWhile_skipn is_space t) at 1. rewrite <- Ews. f_equal.
    rewrite <- (takeWhile_skipn is_digit (skipn (List.length (w :: ws')) t)) at 1.
    rewrite <- Eds. reflexivity.
  - rewrite length_firstn. lia.
  - rewrite <- (firstn_skipn 5 s) in Hci.
    rewrite starts_with_ci_long in Hci; [exact Hci|].
    change (List.length LIMIT) with 5. rewrite length_firstn. lia.
  - discriminate.
  - rewrite Ews. apply takeWhile_all.
  - discriminate.
  - rewrite Eds. apply takeWhile_all.
Qed.

(** A limit clause at the head of a text is still one when the text is cut
    at its end. *)
Lemma limit_len_firstn_self (s : jstring) (m : nat) :
  limit_len s = Some m -> limit_len (firstn m s) = Some m /\ m <= List.length s.
Proof.
  intros H. destruct (limit_len_parts _ H)
    as (l5 & ws & ds & rest & -> & -> & H5 & Hci & Hws & Hsp & Hds & Hdg).
  assert (Hcut : firstn (5 + List.length ws + List.length ds)
                        (l5 ++ ws ++ ds ++ rest) = l5 ++ ws ++ ds ++ []).
  { rewrite app_nil_r.
    replace (l5 ++ ws ++ ds ++ rest) with ((l5 ++ ws ++ ds) ++ rest)
      by (now rewrite <- !app_assoc).
    replace (5 + List.length ws + List.length ds) with (List.length (l5 ++ ws ++ ds) + 0)
      by (rewrite !length_app; lia).
    rewrite firstn_app_2. simpl. now rewrite app_nil_r. }
  rewrite Hcut. split.
  - now apply limit_len_shape.
  - rewrite !length_app. lia.
Qed.

End LimitClauseFacts.

Section FirstClauseFacts.

(** The text up to the end of its first limit clause holds that clause as
    its only one, at its end. *)
Lemma first_clause_cut (x : jstring) (n : nat) :
  lazy_limit_len x = Some n ->
  lazy_limit_len (firstn n x) = Some n /\ n <= List.length x.
Proof.
  intros H. destruct (lazy_limit_elim _ H) as (p & m & -> & Hp & Hnone & Hsome).
  destruct (limit_len_firstn_self _ Hsome) as [Hself Hm].
  rewrite length_skipn in Hm. split; [|lia].
  apply lazy_limit_intro.
  - rewrite length_firstn. lia.
  - intros i Hi. rewrite skipn_firstn_comm. apply limit_len_firstn_none.
    now apply Hnone.
  - rewrite skipn_firstn_comm. replace (p + m - p) with m by lia. exact Hself.
Qed.

Lemma lazy_limit_found (x : jstring) (i m : nat) :
  limit_len (skipn i x) = Some m -> exists n, lazy_limit_len x = Some n.
Proof.
  revert x. induction i as [|i IH]; intros x H.
  - simpl in H. destruct x as [|c x]; [discriminate H|].
    rewrite lazy_limit_len_cons, H. eauto.
  - destruct x as [|c x]; [discriminate H|].
    + rewrite lazy_limit_len_cons. destruct (limit_len (c :: x)); [eauto|].
      simpl in H. destruct (IH x H) as (n & ->). simpl. eauto.
Qed.

(** A text that ends in a limit clause ends with a digit and holds a first
    limit clause. *)
Lemma ends_in_limit_clause_facts (x : jstring) :
  ends_in_limit_clause x = true ->
  (exists r d, x = r ++ [d] /\ is_digit d = true)
  /\ exists n, lazy_limit_len x = Some n.
Proof.
  unfold ends_in_limit_clause. intros H. apply existsb_exists in H.
  destruct H as (i & Hi & H). apply in_seq in Hi.
  destruct (limit_len (skipn i x)) as [m|] eqn:E; [|discriminate].
  apply Nat.eqb_eq in H. split.
  - assert (Hfull : limit_len (skipn i x) = Some (List.length (skipn i x)))
      by (rewrite E, length_skipn; f_equal; lia).
    destruct (limit_len_full_ends_digit _ Hfull) as (r & d & Hr & Hd).
    exists (firstn i x ++ r), d. split; [|exact Hd].
    rewrite <- app_assoc, <- Hr. symmetry. apply firstn_skipn.
  - now apply lazy_limit_found with i m.
Qed.

Lemma starts_with_ext (p P X : jstring) :
  starts_with p P = true -> starts_with p (P ++ X) = true.
Proof.
  revert P. induction p as [|a p IH]; intros P; simpl; [reflexivity|].
  destruct P as [|b P]; [discriminate|]. simpl.
  intros H. apply andb_prop in H. destruct H as [-> H]. simpl. now apply IH.
Qed.

Lemma starts_with_long (p P X : jstring) :
  List.length p <= List.length P -> starts_with p (P ++ X) = starts_with p P.
Proof.
  revert P. induction p as [|a p IH]; intros P; simpl; [reflexivity|].
  destruct P as [|b P]; simpl; [lia|].
  intros H. rewrite IH by lia. reflexivity.
Qed.

Lemma starts_with_cut (p P X : jstring) (c : char16) :
  List.length P < List.length p ->
  forallb (fun a => negb (a =? c)%N) p = true ->
  starts_with p (P ++ c :: X) = false.
Proof.
  revert P. induction p as [|a p IH]; intros P; simpl; [lia|].
  intros Hlen H. apply andb_prop in H. destruct H as [Ha Hp].
  destruct P as [|b P]; simpl.
  - apply negb_true_iff in Ha. now rewrite Ha.
  - rewrite IH; [apply andb_false_r | simpl in Hlen; lia | exact Hp].
Qed.

Lemma indexOf_cons (p : jstring) (c : char16) (s : jstring) :
  indexOf p (c :: s) =
  if starts_with p (c :: s) then Some 0 else option_map S (indexOf p s).
Proof. reflexivity. Qed.

(** The literal occurs nowhere in the text. *)
Lemma indexOf_none_iff (p s : jstring) :
  indexOf p s = None <->
  forall i, i <= List.length s -> starts_with p (skipn i s) = false.
Proof.
  induction s as [|c s IH].
  - simpl. split.
    + intros H i Hi. rewrite skipn_nil. destruct (starts_with p []); [discriminate | reflexivity].
    + intros H. specialize (H 0 (le_n 0)). simpl in H. now rewrite H.
  - rewrite indexOf_cons. split.
    + destruct (starts_with p (c :: s)) eqn:E; [discriminate|].
      destruct (indexOf p s) eqn:Ei; [discriminate|]. intros _ [|i] Hi.
      * exact E.
      * simpl. apply IH; [reflexivity | simpl in Hi; lia].
    + intros H. pose proof (H 0 (Nat.le_0_l _)) as H0. simpl in H0. rewrite H0.
      assert (Hs : indexOf p s = None).
      { apply IH. intros i Hi. apply (H (S i)). simpl. lia. }
      now rewrite Hs.
Qed.

(** A literal that does not occur in a text does not occur in its prefixes. *)
Lemma indexOf_none_firstn (p x : jstring) (n : nat) :
  indexOf p x = None -> indexOf p (firstn n x) = None.
Proof.
  rewrite !indexOf_none_iff. intros H i Hi.
  destruct (starts_with p (skipn i (firstn n x))) eqn:E; [|reflexivity].
  rewrite skipn_firstn_comm in E.
  apply (starts_with_ext _ _ (skipn (n - i) (skipn i x))) in E.
  rewrite firstn_skipn in E.
  destruct (Nat.le_gt_cases i (List.length x)) as [Hle | Hgt].
  - rewrite (H i Hle) in E. discriminate.
  - rewrite skipn_all2 in E by lia.
    rewrite <- (skipn_all x) in E. rewrite (H _ (le_n _)) in E. discriminate.
Qed.

(** The sanitizer on a text that starts with a prefix declaration, ends
    with a digit, holds no code fence and holds a limit clause: the text is
    cut after its first limit clause, then the brace repair applies. *)
Lemma clean_to_first_limit (x : jstring) (n : nat) :
  starts_with_prefix x = true ->
  (exists r d, x = r ++ [d] /\ is_digit d = true) ->
  indexOf fence x = None ->
  lazy_limit_len x = Some n ->
  cleanSparqlResponse x =
  if count_char close_brace (firstn n x) <? count_char open_brace (firstn n x)
  then insert_closing_brace (firstn n x)
  else firstn n x.
Proof.
  unfold starts_with_prefix. intros Hp (y & d & Ey & Hd) Ef El.
  destruct (starts_with_inv _ _ Hp) as (r & Hx).
  destruct (first_clause_cut _ El) as [Hcut Hn].
  set (t := firstn n x) in *.
  assert (Hlen_t : List.length t = n) by (unfold t; rewrite length_firstn; lia).
  assert (Htrim : trim x = x).
  { assert (Hstart : trimStart x = x) by (rewrite Hx; reflexivity).
    unfold trim. rewrite Hstart, Ey. now apply trimEnd_ends_digit. }
  assert (Hn6 : exists n', n = 6 + n' /\ t = PREFIX ++ firstn n' r).
  { rewrite Hx in El. rewrite lazy_limit_behind_PREFIX in El.
    destruct (lazy_limit_len r) as [n'|]; [|discriminate].
    simpl in El. injection El as <-. exists n'. split; [reflexivity|].
    unfold t. rewrite Hx. reflexivity. }
  destruct Hn6 as (n' & Hn' & Ht).
  assert (Htrim_t : trim t = t).
  { assert (Hstart : trimStart t = t) by (rewrite Ht; reflexivity).
    rewrite <- Hlen_t in Hcut.
    destruct (lazy_limit_full_ends_digit _ Hcut) as (y' & d' & Ey' & Hd').
    unfold trim. rewrite Hstart, Ey'. now apply trimEnd_ends_digit. }
  assert (Hsearch : search (kw_to_limit_len PREFIX) x = Some (0, n)).
  { destruct x as [|c x']; [discriminate|]. simpl search.
    unfold kw_to_limit_len.
    assert (Hci : starts_with_ci PREFIX (c :: x') = true).
    { rewrite Hx. unfold PREFIX. reflexivity. }
    rewrite Hci. rewrite Hx in El |- *. rewrite lazy_limit_behind_PREFIX in El.
    rewrite skipn_app. change (List.length PREFIX) with 6.
    change (skipn 6 PREFIX) with (@nil char16). simpl app. simpl skipn.
    destruct (lazy_limit_len r) as [m|]; [|discriminate].
    simpl in El |- *. injection El as El. rewrite El. reflexivity. }
  assert (Hpt : starts_with PREFIX t = true) by (rewrite Ht; reflexivity).
  assert (Hidx : indexOf PREFIX t = Some 0).
  { destruct t as [|c t']; [discriminate Hpt|].
    rewrite indexOf_cons. now rewrite Hpt. }
  unfold cleanSparqlResponse. rewrite Htrim.
  change fence_sparql with (fence ++ js "sparql").
  rewrite (remove_all_absent fence (js "sparql") x Ef).
  rewrite (remove_all_absent_lit fence x Ef).
  unfold match_first. rewrite Hsearch. simpl option_map.
  change (skipn 0 x) with x. fold t. cbv iota. rewrite Htrim_t.
  assert (Hft : firstn n t = t) by (apply firstn_all2; lia).
  rewrite Hidx. cbv iota. unfold match_anchored. rewrite Hcut. simpl option_map.
  rewrite !Hft. unfold includes. rewrite Hidx. simpl negb. cbv iota. reflexivity.
Qed.

End FirstClauseFacts.

Section InsertionFacts.

Lemma skipn_keeps_last (A A0 : jstring) (c : char16) (i : nat) :
  A = A0 ++ [c] -> i < List.length A -> exists A1, skipn i A = A1 ++ [c].
Proof.
  intros -> Hi. rewrite length_app in Hi. simpl in Hi.
  exists (skipn i A0). rewrite skipn_app.
  replace (i - List.length A0) with 0 by lia. reflexivity.
Qed.

Lemma ends_outside_class (p : char16 -> bool) (A1 : jstring) (c : char16) :
  p c = false -> existsb (fun a => negb (p a)) (A1 ++ [c]) = true.
Proof.
  intros Hc. rewrite existsb_app. simpl. rewrite Hc. simpl. apply orb_true_r.
Qed.

(** The line feed and the brace put behind a text that does not end with
    white space never complete a limit clause that starts in this text. *)
Lemma limit_len_insert_none (A1 Z Z' : jstring) (c : char16) :
  is_space c = false ->
  limit_len ((A1 ++ [c]) ++ Z') = None ->
  limit_len ((A1 ++ [c]) ++ 10%N :: 125%N :: Z) = None.
Proof.
  intros Hc Hnone. set (A' := A1 ++ [c]) in *.
  destruct (Nat.lt_ge_cases (List.length A') 5) as [Hshort | Hlong].
  - apply limit_len_none_iff. left.
    apply starts_with_ci_cut; [exact Hshort | reflexivity].
  - assert (Hskip : forall X, skipn 5 (A' ++ X) = skipn 5 A' ++ X).
    { intros X. rewrite skipn_app. replace (5 - List.length A') with 0 by lia.
      reflexivity. }
    apply limit_len_none_iff in Hnone. apply limit_len_none_iff.
    rewrite Hskip in Hnone |- *.
    destruct (Nat.eq_dec (List.length A') 5) as [H5 | H5].
    + assert (Hnil : skipn 5 A' = []) by (apply skipn_all2; lia).
      rewrite Hnil. right. right. reflexivity.
    + destruct (@skipn_keeps_last A' A1 c 5 eq_refl ltac:(lia)) as (A3 & EA3).
      assert (Hex : existsb (fun a => negb (is_space a)) (skipn 5 A') = true)
        by (rewrite EA3; now apply ends_outside_class).
      assert (Hne : skipn 5 A' <> [])
        by (rewrite EA3; intros E; now apply app_eq_nil in E as [_ E]).
      destruct Hnone as [H | [H | H]].
      * left. change (List.length LIMIT) with 5 in *.
        rewrite starts_with_ci_long in H |- *
          by (change (List.length LIMIT) with 5; lia).
        exact H.
      * right. left. now apply takeWhile_app_head with Z'.
      * right. right.
        destruct (dropWhile_app_stop is_space (skipn 5 A') Z' Hex) as [E1 Hd].
        destruct (dropWhile_app_stop is_space (skipn 5 A') (10%N :: 125%N :: Z) Hex)
          as [E2 _].
        rewrite E1 in H. rewrite E2. now apply takeWhile_app_head with Z'.
Qed.

Lemma limit_len_starts_ci (s : jstring) (m : nat) :
  limit_len s = Some m -> starts_with_ci LIMIT s = true.
Proof.
  unfold limit_len. destruct (starts_with_ci LIMIT s); [reflexivity | discriminate].
Qed.

Lemma search_found (m : matcher) (s : jstring) (i n : nat) :
  m (skipn i s) = Some n ->
  exists q k, search m s = Some (q, k) /\ q <= i.
Proof.
  revert s. induction i as [|i IH]; intros s H.
  - simpl in H. exists 0, n. split; [|lia]. destruct s; simpl; now rewrite H.
  - destruct s as [|c s].
    + simpl in H. exists 0, n. split; [|lia]. simpl. now rewrite H.
    + rewrite search_cons. destruct (m (c :: s)) as [k|].
      * exists 0, k. split; [reflexivity | lia].
      * simpl in H. destruct (IH s H) as (q & k & -> & Hq).
        exists (S q), k. split; [reflexivity | lia].
Qed.

(** Where the closing brace goes in a text whose only limit clause is at its
    end: behind the part [A] that precedes the white space in front of
    the clause. *)
Lemma insert_shape (t : jstring) :
  lazy_limit_len t = Some (List.length t) ->
  exists A ws0 C,
    t = A ++ ws0 ++ C
    /\ insert_closing_brace t = A ++ 10%N :: 125%N :: ws0 ++ C
    /\ Forall (fun c => is_space c = true) ws0
    /\ limit_len C = Some (List.length C)
    /\ (forall A0 c, A = A0 ++ [c] -> is_space c = false)
    /\ (forall i, i < List.length A + List.length ws0 -> limit_len (skipn i t) = None).
Proof.
  intros H. destruct (lazy_limit_elim _ H) as (p & m & Hlen & Hp & Hnone & Hsome).
  assert (Hws_p : ws_limit_len (skipn p t) = Some m).
  { unfold ws_limit_len.
    destruct (limit_letter_not_space _ (limit_len_starts_ci _ Hsome))
      as (c & r & Er & Hc).
    rewrite Er in Hsome |- *. simpl. rewrite Hc. simpl. now rewrite Hsome. }
  destruct (search_found ws_limit_len t p Hws_p) as (q & k & Hsearch & Hqp).
  destruct (search_elim _ _ Hsearch) as (Hq & Hnone_q & Hsome_q).
  unfold ws_limit_len in Hsome_q.
  set (B := skipn q t) in *. set (ws0 := takeWhile is_space B) in *.
  destruct (limit_len (skipn (List.length ws0) B)) as [m'|] eqn:Em'; [|discriminate].
  assert (HB : B = ws0 ++ skipn (List.length ws0) B)
    by (symmetry; apply takeWhile_skipn).
  assert (Hsp : Forall (fun c => is_space c = true) ws0) by apply takeWhile_all.
  assert (Hpos : skipn (List.length ws0) B = skipn (List.length ws0 + q) t)
    by (unfold B; apply skipn_skipn).
  assert (Hqp' : List.length ws0 + q = p).
  { destruct (Nat.lt_trichotomy (List.length ws0 + q) p) as [Hlt | [Heq | Hgt]].
    - rewrite Hpos in Em'. rewrite (Hnone _ Hlt) in Em'. discriminate.
    - exact Heq.
    - exfalso.
      assert (Hsk : skipn p t = skipn (p - q) ws0 ++ skipn (List.length ws0) B).
      { replace p with ((p - q) + q) at 1 by lia.
        rewrite <- skipn_skipn. fold B. rewrite HB at 1.
        rewrite skipn_app. replace (p - q - List.length ws0) with 0 by lia.
        reflexivity. }
      destruct (skipn (p - q) ws0) as [|c r] eqn:Ew.
      + apply (f_equal (@List.length _)) in Ew. rewrite length_skipn in Ew.
        simpl in Ew. lia.
      + assert (Hc : is_space c = true).
        { rewrite Forall_forall in Hsp. apply Hsp.
          rewrite <- (firstn_skipn (p - q) ws0). apply in_or_app. right.
          rewrite Ew. now left. }
        rewrite Hsk in Hsome. simpl in Hsome.
        rewrite (@limit_len_space_head c _ Hc) in Hsome. discriminate. }
  rewrite Hpos, Hqp' in Em'. rewrite Hsome in Em'. injection Em' as <-.
  rewrite Hpos, Hqp' in HB.
  assert (Hm : m = List.length (skipn p t)) by (rewrite length_skipn; lia).
  exists (firstn q t), ws0, (skipn p t). repeat split.
  - rewrite <- HB. unfold B. symmetry. apply firstn_skipn.
  - unfold insert_closing_brace. rewrite Hsearch. fold B. rewrite HB at 1.
    reflexivity.
  - exact Hsp.
  - rewrite <- Hm. exact Hsome.
  - intros A0 c EA. destruct (is_space c) eqn:Hc; [exfalso | reflexivity].
    assert (Hq1 : q = S (List.length A0)).
    { apply (f_equal (@List.length _)) in EA.
      rewrite length_firstn, length_app in EA. simpl in EA. lia. }
    assert (Hprev : skipn (List.length A0) t = c :: B).
    { rewrite <- (firstn_skipn q t) at 1. fold B. rewrite EA.
      rewrite <- app_assoc. rewrite skipn_app, skipn_all, Nat.sub_diag.
      reflexivity. }
    assert (Hcontra : ws_limit_len (skipn (List.length A0) t) = None)
      by (apply Hnone_q; lia).
    unfold ws_limit_len in Hcontra. rewrite Hprev in Hcontra.
    simpl in Hcontra. rewrite Hc in Hcontra. simpl in Hcontra. fold ws0 in Hcontra.
    rewrite Hpos, Hqp', Hsome in Hcontra. discriminate.
  - intros i Hi. apply Hnone. rewrite length_firstn in Hi. lia.
Qed.

(** After the insertion the limit clause still is the only one, at the end. *)
Lemma inserted_single_clause (A ws0 C : jstring) :
  Forall (fun c => is_space c = true) ws0 ->
  limit_len C = Some (List.length C) ->
  (forall A0 c, A = A0 ++ [c] -> is_space c = false) ->
  (forall i, i < List.length A + List.length ws0 ->
             limit_len (skipn i (A ++ ws0 ++ C)) = None) ->
  lazy_limit_len (A ++ 10%N :: 125%N :: ws0 ++ C)
  = Some (List.length (A ++ 10%N :: 125%N :: ws0 ++ C)).
Proof.
  intros Hsp HC Hlast Hnone.
  replace (List.length (A ++ 10%N :: 125%N :: ws0 ++ C))
    with ((List.length A + 2 + List.length ws0) + List.length C)
    by (rewrite length_app; simpl; rewrite length_app; lia).
  apply lazy_limit_intro.
  - rewrite length_app. simpl. rewrite length_app. lia.
  - intros i Hi.
    destruct (Nat.lt_ge_cases i (List.length A)) as [HiA | HiA].
    + rewrite skipn_app. replace (i - List.length A) with 0 by lia.
      simpl skipn at 2.
      destruct (exists_last (l := A)) as (A0 & c & EA);
        [intros ->; simpl in HiA; lia|].
      destruct (@skipn_keeps_last A A0 c i EA HiA) as (A1 & E1). rewrite E1.
      apply limit_len_insert_none with (ws0 ++ C).
      * now apply (Hlast A0 c).
      * specialize (Hnone i ltac:(lia)). rewrite skipn_app in Hnone.
        replace (i - List.length A) with 0 in Hnone by lia.
        simpl skipn at 2 in Hnone. now rewrite E1 in Hnone.
    + rewrite skipn_app. rewrite (skipn_all2 A) by lia. simpl app.
      remember (i - List.length A) as j eqn:Ej.
      destruct j as [|[|j]].
      * simpl. now apply limit_len_space_head.
      * simpl. apply limit_len_none_iff. left. reflexivity.
      * simpl skipn. rewrite skipn_app.
        replace (j - List.length ws0) with 0 by lia. simpl skipn at 2.
        destruct (skipn j ws0) as [|c r] eqn:Ew.
        { apply (f_equal (@List.length _)) in Ew. rewrite length_skipn in Ew.
          simpl in Ew. lia. }
        simpl. apply limit_len_space_head.
        rewrite Forall_forall in Hsp. apply Hsp.
        rewrite <- (firstn_skipn j ws0). apply in_or_app. right.
        rewrite Ew. now left.
  - rewrite skipn_app. rewrite (skipn_all2 A) by lia. simpl app.
    replace (List.length A + 2 + List.length ws0 - List.length A)
      with (S (S (List.length ws0))) by lia.
    simpl skipn. rewrite skipn_app, skipn_all, Nat.sub_diag. simpl. exact HC.
Qed.

End InsertionFacts.

Section RepairFacts.

(** Nothing in front of the six letters of the keyword can be the place of
    the insertion. *)
Lemma search_ws_behind_PREFIX (r : jstring) :
  search ws_limit_len (PREFIX ++ r) =
  option_map (fun '(i, n) => (6 + i, n)) (search ws_limit_len r).
Proof.
  unfold PREFIX. simpl js. simpl app.
  rewrite !search_cons.
  unfold ws_limit_len at 1 2 3 4 5 6. cbn [takeWhile is_space].
  simpl. destruct (search ws_limit_len r) as [[i n]|]; reflexivity.
Qed.

Lemma insert_keeps_PREFIX (t : jstring) :
  starts_with PREFIX t = true ->
  starts_with PREFIX (insert_closing_brace t) = true.
Proof.
  intros Hp. destruct (starts_with_inv _ _ Hp) as (r & ->).
  unfold insert_closing_brace. rewrite search_ws_behind_PREFIX.
  destruct (search ws_limit_len r) as [[i n]|]; simpl; [|exact Hp].
  reflexivity.
Qed.

(** The inserted line feed and brace do not complete a code fence. *)
Lemma indexOf_fence_insert (A B : jstring) :
  indexOf fence (A ++ B) = None ->
  indexOf fence (A ++ 10%N :: 125%N :: B) = None.
Proof.
  rewrite !indexOf_none_iff. intros H i Hi.
  destruct (Nat.lt_ge_cases i (List.length A)) as [HiA | HiA].
  - rewrite skipn_app. replace (i - List.length A) with 0 by lia. simpl skipn at 2.
    destruct (Nat.lt_ge_cases (List.length (skipn i A)) 3) as [Hs | Hl].
    + apply starts_with_cut; [exact Hs | reflexivity].
    + rewrite starts_with_long by exact Hl.
      rewrite <- (starts_with_long fence (skipn i A) B) by exact Hl.
      specialize (H i). rewrite skipn_app in H.
      replace (i - List.length A) with 0 in H by lia. simpl skipn at 2 in H.
      apply H. rewrite length_app. lia.
  - rewrite skipn_app. rewrite (skipn_all2 A) by lia. simpl app.
    remember (i - List.length A) as j eqn:Ej.
    destruct j as [|[|j]]; [reflexivity | reflexivity |].
    simpl skipn.
    specialize (H (List.length A + j)). rewrite skipn_app in H.
    rewrite (skipn_all2 A) in H by lia. simpl app in H.
    replace (List.length A + j - List.length A) with j in H by lia.
    apply H. rewrite length_app in Hi |- *. simpl in Hi. lia.
Qed.

Lemma count_char_insert (c : char16) (A B : jstring) :
  count_char c (A ++ 10%N :: 125%N :: B) =
  count_char c (A ++ B) + count_char c [10%N; 125%N].
Proof.
  unfold count_char.
  change (A ++ 10%N :: 125%N :: B) with (A ++ [10%N; 125%N] ++ B).
  rewrite !count_occ_app. unfold jstring, char16 in *. lia.
Qed.

(** The sanitizer is idempotent on a well-formed text, with any number of
    limit clauses, as long as the part that ends with the first limit
    clause leaves at most one brace open. *)
Lemma clean_idempotent_first_statement (x : jstring) :
  starts_with_prefix x = true ->
  ends_in_limit_clause x = true ->
  includes fence x = false ->
  unclosed_braces (first_statement x) <= 1 ->
  cleanSparqlResponse (cleanSparqlResponse x) = cleanSparqlResponse x.
Proof.
  unfold includes, unclosed_braces, first_statement. intros Hp He Hf Hd.
  destruct (indexOf fence x) eqn:Ef; [discriminate|]. clear Hf.
  destruct (ends_in_limit_clause_facts _ He) as (Hlast & n & El).
  rewrite El in Hd.
  rewrite (@clean_to_first_limit x n Hp Hlast Ef El).
  destruct (first_clause_cut _ El) as [Hcut Hn].
  set (t := firstn n x) in *.
  assert (Hlen_t : List.length t = n) by (unfold t; rewrite length_firstn; lia).
  rewrite <- Hlen_t in Hcut.
  assert (Hpt : starts_with_prefix t = true).
  { unfold starts_with_prefix in *. destruct (starts_with_inv _ _ Hp) as (r & Hx).
    assert (H6 : 6 <= n).
    { rewrite Hx in El. rewrite lazy_limit_behind_PREFIX in El.
      destruct (lazy_limit_len r); [|discriminate]. simpl in El.
      injection El as <-. lia. }
    unfold t. rewrite Hx. rewrite firstn_app.
    change (List.length PREFIX) with 6. rewrite firstn_all2
      by (change (List.length PREFIX) with 6; lia).
    now apply starts_with_ext. }
  assert (Hft : indexOf fence t = None) by (now apply indexOf_none_firstn).
  assert (Hself : firstn (List.length t) t = t) by apply firstn_all.
  destruct (count_char close_brace t <? count_char open_brace t) eqn:Hlt.
  - (* one brace is missing: it is inserted, and the result is balanced *)
    apply Nat.ltb_lt in Hlt.
    destruct (insert_shape _ Hcut)
      as (A & ws0 & C & Et & Ey & Hsp & HC & HlastA & Hnone).
    assert (Hy : lazy_limit_len (insert_closing_brace t)
                 = Some (List.length (insert_closing_brace t))).
    { rewrite Ey. apply inserted_single_clause; try assumption.
      now rewrite <- Et. }
    assert (Hpy : starts_with_prefix (insert_closing_brace t) = true)
      by (now apply insert_keeps_PREFIX).
    assert (Hfy : indexOf fence (insert_closing_brace t) = None).
    { rewrite Ey. apply indexOf_fence_insert. now rewrite <- Et. }
    assert (Hbal : (count_char close_brace (insert_closing_brace t)
                    <? count_char open_brace (insert_closing_brace t)) = false).
    { apply Nat.ltb_ge. rewrite Ey, !count_char_insert, <- Et.
      change (count_char open_brace [10%N; 125%N]) with 0.
      change (count_char close_brace [10%N; 125%N]) with 1. lia. }
    rewrite (@clean_to_first_limit _ _ Hpy (lazy_limit_full_ends_digit _ Hy) Hfy Hy).
    rewrite firstn_all. now rewrite Hbal.
  - rewrite (@clean_to_first_limit t _ Hpt (lazy_limit_full_ends_digit _ Hcut) Hft Hcut).
    rewrite Hself. now rewrite Hlt.
Qed.

(** With two or more braces left open each pass inserts one more brace, so
    the second pass differs from the first. *)
Lemma clean_not_idempotent_two_open (x : jstring) :
  starts_with_prefix x = true ->
  ends_in_limit_clause x = true ->
  includes fence x = false ->
  2 <= unclosed_braces (first_statement x) ->
  cleanSparqlResponse (cleanSparqlResponse x) <> cleanSparqlResponse x.
Proof.
  unfold includes, unclosed_braces, first_statement. intros Hp He Hf Hd.
  destruct (indexOf fence x) eqn:Ef; [discriminate|]. clear Hf.
  destruct (ends_in_limit_clause_facts _ He) as (Hlast & n & El).
  rewrite El in Hd.
  rewrite (@clean_to_first_limit x n Hp Hlast Ef El).
  destruct (first_clause_cut _ El) as [Hcut Hn].
  set (t := firstn n x) in *.
  assert (Hlen_t : List.length t = n) by (unfold t; rewrite length_firstn; lia).
  rewrite <- Hlen_t in Hcut.
  assert (Hpt : starts_with PREFIX t = true).
  { unfold starts_with_prefix in *. destruct (starts_with_inv _ _ Hp) as (r & Hx).
    assert (H6 : 6 <= n).
    { rewrite Hx in El. rewrite lazy_limit_behind_PREFIX in El.
      destruct (lazy_limit_len r); [|discriminate]. simpl in El.
      injection El as <-. lia. }
    unfold t. rewrite Hx. rewrite firstn_app.
    change (List.length PREFIX) with 6. rewrite firstn_all2
      by (change (List.length PREFIX) with 6; lia).
    now apply starts_with_ext. }
  assert (Hft : indexOf fence t = None) by (now apply indexOf_none_firstn).
  assert (Hlt : (count_char close_brace t <? count_char open_brace t) = true)
    by (apply Nat.ltb_lt; lia).
  rewrite Hlt.
  destruct (insert_shape _ Hcut)
    as (A & ws0 & C & Et & Ey & Hsp & HC & HlastA & Hnone).
  assert (Hy : lazy_limit_len (insert_closing_brace t)
               = Some (List.length (insert_closing_brace t))).
  { rewrite Ey. apply inserted_single_clause; try assumption.
    now rewrite <- Et. }
  assert (Hpy : starts_with_prefix (insert_closing_brace t) = true)
    by (now apply insert_keeps_PREFIX).
  assert (Hfy : indexOf fence (insert_closing_brace t) = None).
  { rewrite Ey. apply indexOf_fence_insert. now rewrite <- Et. }
  assert (Hopen : (count_char close_brace (insert_closing_brace t)
                   <? count_char open_brace (insert_closing_brace t)) = true).
  { apply Nat.ltb_lt. rewrite Ey, !count_char_insert, <- Et.
    change (count_char open_brace [10%N; 125%N]) with 0.
    change (count_char close_brace [10%N; 125%N]) with 1. lia. }
  rewrite (@clean_to_first_limit _ _ Hpy (lazy_limit_full_ends_digit _ Hy) Hfy Hy).
  rewrite firstn_all. rewrite Hopen.
  destruct (insert_shape _ Hy) as (A' & ws' & C' & Et' & Ey' & _).
  intros Heq. rewrite Ey' in Heq. rewrite Et' in Heq.
  apply (f_equal (@List.length _)) in Heq.
  rewrite !length_app in Heq. simpl in Heq. rewrite !length_app in Heq. lia.
Qed.

End RepairFacts.

(** X4.  When the sanitizer is idempotent.  On a text that starts with a prefix
    declaration, ends in a limit clause and holds no code-fence marker,
    sanitizing twice equals sanitizing once exactly when the part of the
    text that ends with its first limit clause leaves at most one grouping
    brace open: the repair step inserts one brace per pass.  When that
    clause is the only one and the braces are balanced the sanitizer is
    the identity. *)
Theorem sanitizer_idempotent_iff (x : jstring) :
  starts_with_prefix x = true ->
  ends_in_limit_clause x = true ->
  includes fence x = false ->
  (cleanSparqlResponse (cleanSparqlResponse x) = cleanSparqlResponse x
   <-> unclosed_braces (first_statement x) <= 1)
  /\ (single_final_limit_clause x = true -> brace_balanced x = true ->
      cleanSparqlResponse x = x).
Proof.
  intros Hp He Hf. split; [split|].
  - intros Hidem.
    destruct (Nat.le_gt_cases (unclosed_braces (first_statement x)) 1) as [H | H];
      [exact H | exfalso].
    now apply (clean_not_idempotent_two_open x Hp He Hf H).
  - now apply clean_idempotent_first_statement.
  - intros Hs Hb. now apply clean_fixed_point.
Qed.

Lemma sanitizer_idempotent_iff_witness :
  (cleanSparqlResponse (cleanSparqlResponse one_open_raw) = cleanSparqlResponse one_open_raw
   <-> unclosed_braces (first_statement one_open_raw) <= 1)
  /\ (single_final_limit_clause one_open_raw = true -> brace_balanced one_open_raw = true ->
      cleanSparqlResponse one_open_raw = one_open_raw).
Proof.
  apply (sanitizer_idempotent_iff one_open_raw); vm_compute; reflexivity.
Defined.

(** The two cases of the theorem on concrete texts: a single limit clause
    (the text is returned as it is) and two limit clauses with one brace
    left open (the brace is inserted once). *)
Example idempotent_cases :
  cleanSparqlResponse simple_raw = simple_raw
  /\ cleanSparqlResponse one_open_raw =
       js "PREFIX dcat: <http://www.w3.org/ns/dcat#> SELECT ?d WHERE { ?d a dcat:Dataset"
       ++ nl ++ js "} LIMIT 5"
  /\ cleanSparqlResponse (cleanSparqlResponse one_open_raw)
     = cleanSparqlResponse one_open_raw.
Proof. vm_compute. repeat split; reflexivity. Qed.

(* ================================================================== *)
(** * Further properties of the semantic retriever *)
(* ================================================================== *)

Section RetrieverFacts.
Context {num : Type} {NumOps : Number num}.

Lemma slice0_In {A : Type} (k : Z) (l : list A) (x : A) :
  In x (slice0 k l) -> In x l.
Proof.
  destruct (slice0_is_prefix k l) as (m & ->). apply firstn_In.
Qed.

Lemma slice0_nonneg {A : Type} (k : Z) (l : list A) :
  (0 <= k)%Z -> slice0 k l = firstn (Z.to_nat k) l.
Proof.
  intros Hk. unfold slice0.
  destruct (k <? 0)%Z eqn:E; [apply Z.ltb_lt in E; lia | reflexivity].
Qed.

(** What a search returns was scored by that search. *)
Lemma retrieved_In_scored (env : Env num) (query : jstring) (k : Z)
    (filter : option SearchFilter) (w : World num) (item : RetrievedDocument num) :
  In item (retrieved env query k filter w) ->
  In item (scored_candidates env query filter w).
Proof.
  destruct (retrieved_shape env query k filter w) as [-> | [-> _]]; [intros []|].
  intros H. apply slice0_In in H.
  eapply Permutation_in; [apply sort_by_perm | exact H].
Qed.

Lemma scored_candidate_facts (env : Env num) (query : jstring)
    (filter : option SearchFilter) (w : World num) (item : RetrievedDocument num) :
  In item (scored_candidates env query filter w) ->
  In (document item) (qualifying env w filter)
  /\ exists qe e, provider env (embedCalls w) query = Some qe
                  /\ embedding (document item) = Some e
                  /\ cosineSimilarity qe e = Ok (score item).
Proof.
  unfold scored_candidates.
  destruct (provider env (embedCalls w) query) as [qe|]; [|intros []].
  destruct (map_result (score_document qe) (qualifying env w filter)) as [scored|] eqn:Hs;
    [|intros []].
  intros Hin. destruct (map_result_In _ _ _ Hs Hin) as (doc & Hdoc & Hsc).
  unfold score_document in Hsc.
  destruct (embedding doc) as [e|] eqn:He; [|discriminate].
  destruct (cosineSimilarity qe e) as [s|] eqn:Hc; [|discriminate].
  injection Hsc as <-. simpl. split; [assumption|].
  exists qe, e. auto.
Qed.

Lemma qualifying_facts (env : Env num) (w : World num)
    (filter : option SearchFilter) (doc : Document num) :
  In doc (qualifying env w filter) ->
  (exists store, current_store env w = Some store /\ In doc (documents store))
  /\ has_embedding doc = true
  /\ match filter with
     | Some f => matches_filter f doc = true
     | None => True
     end.
Proof.
  unfold qualifying. destruct (current_store env w) as [store|]; [|intros []].
  unfold candidates. intros H. apply filter_In in H. destruct H as [H He].
  destruct filter as [f|].
  - apply filter_In in H. destruct H as [H Hf].
    split; [exists store; auto | auto].
  - split; [exists store; auto | auto].
Qed.

(** A filter on a non-empty type lets only the documents of that type
    through. *)
Lemma type_filter_sound (t : jstring) (doc : Document num) :
  t <> [] ->
  matches_filter {| filter_type := Some t; filter_category := None;
                    filter_difficulty := None |} doc = true ->
  type (metadata doc) = t.
Proof.
  intros Ht. unfold matches_filter. simpl.
  destruct t as [|c t]; [contradiction|]. simpl.
  unfold jstring_eqb.
  destruct (list_eq_dec N.eq_dec (type (metadata doc)) (c :: t)) as [E|E];
    simpl; [auto | discriminate].
Qed.

Lemma typed_results (env : Env num) (query t : jstring) (k : Z) (w : World num) :
  t <> [] ->
  Forall (fun item => type (metadata (document item)) = t)
         (retrieved env query k
            (Some {| filter_type := Some t; filter_category := None;
                     filter_difficulty := None |}) w).
Proof.
  intros Ht. apply Forall_forall. intros item Hin.
  apply retrieved_In_scored in Hin. apply scored_candidate_facts in Hin.
  destruct Hin as [Hq _]. apply qualifying_facts in Hq.
  destruct Hq as (_ & _ & Hf). now apply type_filter_sound.
Qed.

Lemma retrieved_length_le (env : Env num) (query : jstring) (k : Z)
    (filter : option SearchFilter) (w : World num) :
  (0 <= k)%Z -> List.length (retrieved env query k filter w) <= Z.to_nat k.
Proof.
  intros Hk.
  destruct (retrieved_shape env query k filter w) as [-> | [-> _]]; [simpl; lia|].
  rewrite slice0_nonneg by assumption. rewrite length_firstn. lia.
Qed.

(** Scoring succeeds on documents whose embeddings have the length of the
    query embedding. *)
Lemma scoring_succeeds (qe : list num) (l : list (Document num)) :
  Forall (fun doc => has_embedding doc = true) l ->
  forallb (fun doc => match embedding doc with
                      | Some e => List.length e =? List.length qe
                      | None => true
                      end) l = true ->
  exists scored, map_result (score_document qe) l = Ok scored
                 /\ map document scored = l.
Proof.
  induction l as [|doc l IH]; intros He Hd.
  - exists []. auto.
  - inversion He as [|? ? He1 He2]; subst. simpl in Hd.
    apply andb_true_iff in Hd. destruct Hd as [Hd1 Hd2].
    destruct (IH He2 Hd2) as (scored & Hs & Hm).
    simpl. unfold score_document at 1. unfold has_embedding in He1.
    destruct (embedding doc) as [e|]; [|discriminate].
    unfold cosineSimilarity. apply Nat.eqb_eq in Hd1.
    rewrite <- Hd1, Nat.eqb_refl. simpl. rewrite Hs.
    eexists. split; [reflexivity|]. simpl. now rewrite Hm.
Qed.

(** The state a search leaves behind. *)
Lemma search_leaves (env : Env num) (query : jstring) (k : Z)
    (filter : option SearchFilter) (w : World num) :
  let w' := after_search env query k filter w in
  current_store env w' = current_store env w
  /\ has_documents env w' = has_documents env w
  /\ (embeddingsModel w' || modelAvailable env) = (embeddingsModel w || modelAvailable env)
  /\ embedCalls w' =
       (if has_documents env w && (embeddingsModel w || modelAvailable env)
        then embedCalls w ++ [query] else embedCalls w).
Proof.
  cbv zeta. unfold after_search. rewrite search_closed_form.
  unfold has_documents, current_store.
  destruct (vectorStore w) as [s|] eqn:Hv; [|destruct (storeFile env) as [s|] eqn:Hf];
    try (destruct (documents s) eqn:Hd);
    try (destruct (embeddingsModel w || modelAvailable env) eqn:Hm);
    try (destruct (provider env (embedCalls w) query) as [qe|];
         [destruct (map_result _ _)|]);
    simpl; rewrite ?Hv, ?Hf, ?Hd, ?Hm; simpl; rewrite ?Hd, ?Hm; auto.
Qed.

End RetrieverFacts.

(** X1.  Every document a search returns is a document of the index the
    search works on, it passes the filter of the call, it carries an
    embedding, and its score is the cosine similarity of the answer of the
    provider for the query with that embedding. *)
Theorem X1_results_come_from_the_index {num : Type} {NumOps : Number num}
    (env : Env num) (w : World num) (query : jstring) (k : Z)
    (filter : option SearchFilter) :
  Forall (fun item =>
            (exists store, current_store env w = Some store
                           /\ In (document item) (documents store))
            /\ match filter with
               | Some f => matches_filter f (document item) = true
               | None => True
               end
            /\ exists qe e, provider env (embedCalls w) query = Some qe
                            /\ embedding (document item) = Some e
                            /\ cosineSimilarity qe e = Ok (score item))
         (retrieved env query k filter w).
Proof.
  apply Forall_forall. intros item Hin.
  apply retrieved_In_scored in Hin. apply scored_candidate_facts in Hin.
  destruct Hin as [Hq Hs]. apply qualifying_facts in Hq.
  destruct Hq as (Hstore & _ & Hf). auto.
Qed.

(** X2.  A search by type returns (it never raises), and for a non-empty
    type every document it returns has that type. *)
Theorem X2_typed_search_returns_the_type {num : Type} {NumOps : Number num}
    (env : Env num) (w : World num) (query t : jstring) (k : Z) :
  t <> [] ->
  exists r w', searchKnowledgeBaseByType env query t k w = (Ok r, w')
               /\ Forall (fun item => type (metadata (document item)) = t) r.
Proof.
  intros Ht. unfold searchKnowledgeBaseByType. rewrite search_returns.
  do 2 eexists. split; [reflexivity|]. now apply typed_results.
Qed.

Lemma X2_typed_search_witness :
  js "example" <> []
  /\ exists r w', searchKnowledgeBaseByType Sample.mixed_env Sample.a_query
                    (js "example") 3 Sample.fresh = (Ok r, w')
                  /\ Forall (fun item => type (metadata (document item)) = js "example") r.
Proof.
  split; [discriminate|].
  apply (@X2_typed_search_returns_the_type _ _ Sample.mixed_env Sample.fresh
           Sample.a_query (js "example") 3).
  discriminate.
Defined.

(** An empty type is no filter: the search returns documents of every
    type. *)
Example empty_type_is_no_filter :
  map (fun item => type (metadata (document item)))
      (retrieved Sample.mixed_env Sample.a_query 3
         (Some {| filter_type := Some []; filter_category := None;
                  filter_difficulty := None |}) Sample.fresh)
  = [js "example"; js "example"; js "pattern"].
Proof. vm_compute. reflexivity. Qed.

(** X3.  When the index holds documents, the provider answers and every
    embedding of a qualifying document has the length of the query
    embedding, a search with [k >= 0] returns exactly as many documents as
    [k] and the number of qualifying documents allow; the documents it
    returns, together with those it leaves out, are the qualifying
    documents, each of them once; with [k] at least the number of
    qualifying documents all of them are returned. *)
Theorem X3_nothing_lost_nothing_invented {num : Type} {NumOps : Number num}
    (env : Env num) (w : World num) (query : jstring) (k : Z)
    (filter : option SearchFilter) (qe : list num) :
  has_documents env w = true ->
  embeddingsModel w || modelAvailable env = true ->
  provider env (embedCalls w) query = Some qe ->
  forallb (fun doc => match embedding doc with
                      | Some e => List.length e =? List.length qe
                      | None => true
                      end) (qualifying env w filter) = true ->
  (0 <= k)%Z ->
  List.length (retrieved env query k filter w)
  = Nat.min (Z.to_nat k) (List.length (qualifying env w filter))
  /\ (exists rest, Permutation (map document (retrieved env query k filter w) ++ rest)
                               (qualifying env w filter))
  /\ ((Z.of_nat (List.length (qualifying env w filter)) <= k)%Z ->
      Permutation (map document (retrieved env query k filter w))
                  (qualifying env w filter)).
Proof.
  intros Hdocs Hmodel Hprov Hdim Hk.
  assert (Hq : forall doc, In doc (qualifying env w filter) -> has_embedding doc = true).
  { intros doc Hin. now apply qualifying_facts in Hin. }
  destruct (@scoring_succeeds _ _ qe (qualifying env w filter)
              (proj2 (Forall_forall _ _) Hq) Hdim) as (scored & Hs & Hm).
  assert (Hr : retrieved env query k filter w
               = firstn (Z.to_nat k) (sort_by by_score_desc scored)).
  { unfold retrieved. rewrite search_closed_form.
    unfold has_documents, qualifying in *.
    destruct (current_store env w) as [store|]; [|discriminate]. simpl.
    destruct (documents store); [discriminate|].
    rewrite Hmodel, Hprov, Hs. simpl. now apply slice0_nonneg. }
  assert (Hp : Permutation (map document (sort_by by_score_desc scored))
                           (qualifying env w filter)).
  { rewrite <- Hm. apply Permutation_map. apply sort_by_perm. }
  assert (Hl : List.length (sort_by by_score_desc scored)
               = List.length (qualifying env w filter)).
  { rewrite <- (Permutation_length Hp). now rewrite length_map. }
  rewrite Hr. repeat split.
  - rewrite length_firstn. now rewrite Hl.
  - exists (map document (skipn (Z.to_nat k) (sort_by by_score_desc scored))).
    rewrite <- map_app, firstn_skipn. exact Hp.
  - intros Hall. rewrite firstn_all2 by lia. exact Hp.
Qed.

Lemma X3_nothing_lost_witness :
  List.length (retrieved Sample.mixed_env Sample.a_query 2 None Sample.fresh)
  = Nat.min (Z.to_nat 2) (List.length (qualifying Sample.mixed_env Sample.fresh None))
  /\ (exists rest,
        Permutation (map document (retrieved Sample.mixed_env Sample.a_query 2 None
                                     Sample.fresh) ++ rest)
                    (qualifying Sample.mixed_env Sample.fresh None))
  /\ ((Z.of_nat (List.length (qualifying Sample.mixed_env Sample.fresh None)) <= 2)%Z ->
      Permutation (map document (retrieved Sample.mixed_env Sample.a_query 2 None
                                   Sample.fresh))
                  (qualifying Sample.mixed_env Sample.fresh None)).
Proof.
  apply (@X3_nothing_lost_nothing_invented _ _ Sample.mixed_env Sample.fresh
           Sample.a_query 2 None [3%float; 4%float]);
    try reflexivity.
  lia.
Defined.

Section AggregatorFacts.
Context {num : Type} {NumOps : Number num}.

(** The tally of a sequence of documents of one type. *)
Lemma tally_one_type (t : jstring) (items : list (RetrievedDocument num))
    (acc : list (jstring * nat)) :
  Forall (fun item => type (metadata (document item)) = t) items ->
  fold_left (fun acc item => count_type (type (metadata (document item))) acc) items acc
  = Nat.iter (List.length items) (count_type t) acc.
Proof.
  revert acc. induction items as [|item items IH]; intros acc H; [reflexivity|].
  inversion H as [|? ? H1 H2]; subst. simpl fold_left. rewrite IH by assumption.
  simpl List.length. rewrite Nat.iter_succ_r. reflexivity.
Qed.

End AggregatorFacts.

(** X5.  The aggregator returns at most two vocabulary texts, two pattern
    texts and three example texts, so [totalDocs] is at most seven; its
    tally [types] holds, in this order, the keys vocabulary, pattern and
    example with the number of texts of each kind, a kind without text
    having no key. *)
Theorem X5_context_sizes_and_tally {num : Type} {NumOps : Number num}
    (env : Env num) (w : World num) (query : jstring) :
  match fst (getContextForQuery env query w) with
  | Ok ctx =>
      List.length (vocabularies ctx) <= 2
      /\ List.length (patterns ctx) <= 2
      /\ List.length (examples ctx) <= 3
      /\ totalDocs (context_metadata ctx) <= 7
      /\ types (context_metadata ctx) =
           List.filter (fun entry => 0 <? snd entry)
             [ (js "vocabulary", List.length (vocabularies ctx));
               (js "pattern", List.length (patterns ctx));
               (js "example", List.length (examples ctx)) ]
  | Throw _ => False
  end.
Proof.
  rewrite context_closed_form. cbv zeta. cbn [fst]. cbv beta iota.
  set (fv := Some {| filter_type := Some (js "vocabulary"); filter_category := None;
                     filter_difficulty := None |}).
  set (fp := Some {| filter_type := Some (js "pattern"); filter_category := None;
                     filter_difficulty := None |}).
  set (fe := Some {| filter_type := Some (js "example"); filter_category := None;
                     filter_difficulty := None |}).
  set (r1 := retrieved env query 2 fv w).
  set (w1 := after_search env query 2 fv w).
  set (r2 := retrieved env query 2 fp w1).
  set (w2 := after_search env query 2 fp w1).
  set (r3 := retrieved env query 3 fe w2).
  assert (L1 : List.length r1 <= 2)
    by (apply (@retrieved_length_le _ _ env query 2 fv w); lia).
  assert (L2 : List.length r2 <= 2)
    by (apply (@retrieved_length_le _ _ env query 2 fp w1); lia).
  assert (L3 : List.length r3 <= 3)
    by (apply (@retrieved_length_le _ _ env query 3 fe w2); lia).
  assert (T1 : Forall (fun item => type (metadata (document item)) = js "vocabulary") r1)
    by (apply typed_results; discriminate).
  assert (T2 : Forall (fun item => type (metadata (document item)) = js "pattern") r2)
    by (apply typed_results; discriminate).
  assert (T3 : Forall (fun item => type (metadata (document item)) = js "example") r3)
    by (apply typed_results; discriminate).
  cbn [vocabularies patterns examples context_metadata totalDocs types].
  rewrite !length_map, !length_app.
  repeat split; try lia.
  rewrite !fold_left_app.
  rewrite (tally_one_type _ T1), (tally_one_type _ T2), (tally_one_type _ T3).
  destruct (List.length r1) as [|[|[|n1]]]; [| | |lia];
    destruct (List.length r2) as [|[|[|n2]]]; try lia;
    destruct (List.length r3) as [|[|[|[|n3]]]]; try lia; reflexivity.
Qed.

(** X6.  One call of the aggregator sends the query to the provider three
    times (once per type, nothing is reused between the three searches)
    when the index holds documents and the embeddings model can be
    obtained, and never otherwise. *)
Theorem X6_aggregator_asks_three_times {num : Type} {NumOps : Number num}
    (env : Env num) (w : World num) (query : jstring) :
  embedCalls (snd (getContextForQuery env query w)) =
  embedCalls w ++
    (if has_documents env w && (embeddingsModel w || modelAvailable env)
     then [query; query; query] else []).
Proof.
  rewrite context_closed_form. cbv zeta. cbn [snd].
  set (fv := Some {| filter_type := Some (js "vocabulary"); filter_category := None;
                     filter_difficulty := None |}).
  set (fp := Some {| filter_type := Some (js "pattern"); filter_category := None;
                     filter_difficulty := None |}).
  set (fe := Some {| filter_type := Some (js "example"); filter_category := None;
                     filter_difficulty := None |}).
  set (w1 := after_search env query 2 fv w).
  set (w2 := after_search env query 2 fp w1).
  destruct (search_leaves env query 2 fv w) as (_ & D1 & M1 & C1).
  destruct (search_leaves env query 2 fp w1) as (_ & D2 & M2 & C2).
  destruct (search_leaves env query 3 fe w2) as (_ & _ & _ & C3).
  fold w1 in D1, M1, C1. fold w2 in D2, M2, C2.
  rewrite C3, D2, M2, C2, D1, M1, C1.
  destruct (has_documents env w && (embeddingsModel w || modelAvailable env)).
  - rewrite <- !app_assoc. reflexivity.
  - now rewrite app_nil_r.
Qed.

(* ================================================================== *)
(** * Further properties of the example selection *)
(* ================================================================== *)

Section SelectionFacts.
Context {num : Type} {NumOps : Number num}.
Variable env : Env num.

Lemma start_callbacks_closed (cache : list (jstring * list num))
    (items : list (nat * KeywordFallback.Example)) (w : World num) :
  map_M (start_callback env cache) items w =
  (Ok (started_callbacks env cache (embedCalls w) items),
   {| embeddingsModel := embeddingsModel w;
      embeddingsCache := embeddingsCache w;
      vectorStore := vectorStore w;
      embedCalls :=
        embedCalls w ++
        map KeywordFallback.query (List.filter (uncached cache) (map snd items)) |}).
Proof.
  revert w. induction items as [|item items IH]; intros w.
  - simpl. unfold ret. rewrite app_nil_r. destruct w; reflexivity.
  - simpl map_M. unfold bind at 1. unfold start_callback at 1.
    simpl map. simpl List.filter. unfold uncached at 1. simpl started_callbacks.
    destruct (cache_get (KeywordFallback.query (snd item)) cache) as [e|].
    + unfold ret at 1. unfold bind at 1. rewrite IH. unfold ret. reflexivity.
    + unfold embedQuery, bind at 1, get, bind at 1, put. cbv beta iota.
      set (w1 := {| embeddingsModel := embeddingsModel w;
                    embeddingsCache := embeddingsCache w;
                    vectorStore := vectorStore w;
                    embedCalls := embedCalls w ++ [KeywordFallback.query (snd item)] |}).
      destruct (provider env (embedCalls w) (KeywordFallback.query (snd item)));
        unfold ret at 1, throw, bind at 1; cbv beta iota; rewrite (IH w1);
        unfold ret; subst w1; simpl; rewrite <- app_assoc; simpl; reflexivity.
Qed.

Lemma finish_callbacks_closed (qe : list num)
    (started : list (nat * KeywordFallback.Example * Pending (num := num)))
    (w : World num) :
  promise_all (map (finish_callback qe) started) w =
  (map_result (finish_result qe) started,
   {| embeddingsModel := embeddingsModel w;
      embeddingsCache := final_cache started (embeddingsCache w);
      vectorStore := vectorStore w;
      embedCalls := embedCalls w |}).
Proof.
  revert w. induction started as [|[item pending] started IH]; intros w.
  - simpl. unfold ret. destruct w; reflexivity.
  - cbn [map]. rewrite promise_all_cons.
    cbn [map_result]. unfold final_cache. cbn [fold_left]. fold (final_cache started).
    unfold finish_callback at 1, finish_result at 1. cbn [fst snd].
    destruct pending as [e | [e | x]].
    + unfold lift at 1. rewrite IH.
      destruct (score_example qe item e); destruct (map_result _ started); reflexivity.
    + unfold bind at 1, get, bind at 1, put, lift at 1. cbv beta iota.
      rewrite IH. cbn [embeddingsModel embeddingsCache vectorStore embedCalls].
      destruct (score_example qe item e); destruct (map_result _ started); reflexivity.
    + unfold throw at 1. rewrite IH.
      destruct (map_result _ started); reflexivity.
Qed.

Lemma indexed_snd {A : Type} (l : list A) : map snd (indexed l) = l.
Proof.
  unfold indexed. generalize 0 as n.
  induction l as [|a l IH]; intros n; [reflexivity|].
  simpl. now rewrite IH.
Qed.

Lemma bind_run {A B : Type} (m : M num A) (f : A -> M num B) (w : World num) :
  bind m f w = match m w with
               | (Ok a, w') => f a w'
               | (Throw e, w') => (Throw e, w')
               end.
Proof. reflexivity. Qed.

Lemma try_catch_run {A : Type} (body : M num A) (handler : exn -> M num A)
    (w : World num) :
  try_catch body handler w = match body w with
                             | (Ok a, w') => (Ok a, w')
                             | (Throw e, w') => handler e w'
                             end.
Proof. reflexivity. Qed.

Lemma getEmbeddingsModel_run (w : World num) :
  getEmbeddingsModel env w =
  if embeddingsModel w || modelAvailable env
  then (Ok tt, {| embeddingsModel := true;
                  embeddingsCache := embeddingsCache w;
                  vectorStore := vectorStore w;
                  embedCalls := embedCalls w |})
  else (Throw ProviderError, w).
Proof.
  unfold getEmbeddingsModel, bind, get, ret, put, throw.
  destruct w as [mdl cache vs calls]. simpl.
  destruct mdl; simpl; [reflexivity|]. destruct (modelAvailable env); reflexivity.
Qed.

Lemma embedQuery_run (text : jstring) (w : World num) :
  embedQuery env text w =
  (match provider env (embedCalls w) text with
   | Some v => Ok v
   | None => Throw ProviderError
   end,
   {| embeddingsModel := embeddingsModel w;
      embeddingsCache := embeddingsCache w;
      vectorStore := vectorStore w;
      embedCalls := embedCalls w ++ [text] |}).
Proof.
  unfold embedQuery, bind, get, put, ret, throw.
  destruct (provider env (embedCalls w) text); reflexivity.
Qed.

(** An example selection in closed form. *)
Lemma selection_closed_form (query : jstring) (k : Z) (w : World num) :
  getRelevantExamplesWithEmbeddings env query k w =
  match loadedExamples env with
  | [] => (Ok [], w)
  | _ :: _ =>
      let fallback := KeywordFallback.getRelevantExamples (toLowerCase env)
                        (loadedExamples env) query k in
      if embeddingsModel w || modelAvailable env then
        match provider env (embedCalls w) query with
        | None =>
            (Ok fallback,
             {| embeddingsModel := true;
                embeddingsCache := embeddingsCache w;
                vectorStore := vectorStore w;
                embedCalls := embedCalls w ++ [query] |})
        | Some qe =>
            let started := started_callbacks env (embeddingsCache w)
                             (embedCalls w ++ [query])
                             (indexed (loadedExamples env)) in
            let w' := {| embeddingsModel := true;
                         embeddingsCache := final_cache started (embeddingsCache w);
                         vectorStore := vectorStore w;
                         embedCalls := embedCalls w ++ query :: uncached_questions env w |} in
            match map_result (finish_result qe) started with
            | Ok examplesWithScores =>
                (Ok (map (fun item => Some (example item))
                       (slice0 k (sort_by (fun a b => nsub (example_score b)
                                                           (example_score a))
                                          examplesWithScores))), w')
            | Throw _ => (Ok fallback, w')
            end
        end
      else (Ok fallback, w)
  end.
Proof.
  unfold getRelevantExamplesWithEmbeddings, uncached_questions. cbv zeta.
  pose proof (indexed_snd (loadedExamples env)) as Hitems.
  remember (indexed (loadedExamples env)) as items eqn:Eitems. clear Eitems.
  destruct (loadedExamples env) as [|ex exs] eqn:Hex; [reflexivity|].
  rewrite try_catch_run, bind_run, getEmbeddingsModel_run.
  destruct (embeddingsModel w || modelAvailable env); [|reflexivity].
  rewrite bind_run, embedQuery_run.
  cbn [embeddingsModel embeddingsCache vectorStore embedCalls].
  destruct (provider env (embedCalls w) query) as [qe|]; [|reflexivity].
  rewrite bind_run. unfold get at 1.
  rewrite bind_run, start_callbacks_closed.
  cbn [embeddingsModel embeddingsCache vectorStore embedCalls].
  rewrite bind_run, finish_callbacks_closed.
  cbn [embeddingsModel embeddingsCache vectorStore embedCalls].
  rewrite Hitems, <- app_assoc. cbn [app].
  destruct (map_result (finish_result qe) _); unfold ret; reflexivity.
Qed.

Lemma jstring_eqb_eq (a b : jstring) : jstring_eqb a b = true <-> a = b.
Proof.
  unfold jstring_eqb. destruct (list_eq_dec N.eq_dec a b); split; auto; discriminate.
Qed.

Lemma cache_get_set_same (key : jstring) (v : list num) (c : list (jstring * list num)) :
  cache_get key (cache_set key v c) = Some v.
Proof.
  induction c as [|[k0 v0] c IH]; simpl.
  - assert (E : jstring_eqb key key = true) by now apply jstring_eqb_eq.
    now rewrite E.
  - destruct (jstring_eqb k0 key) eqn:E; simpl; rewrite E; auto.
Qed.

Lemma cache_get_set_other (key key' : jstring) (v : list num)
    (c : list (jstring * list num)) :
  key' <> key -> cache_get key' (cache_set key v c) = cache_get key' c.
Proof.
  intros Hne. induction c as [|[k0 v0] c IH]; simpl.
  - destruct (jstring_eqb key key') eqn:E; [|reflexivity].
    apply jstring_eqb_eq in E. congruence.
  - destruct (jstring_eqb k0 key) eqn:E; simpl.
    + apply jstring_eqb_eq in E. subst k0.
      destruct (jstring_eqb key key') eqn:E'; [|reflexivity].
      apply jstring_eqb_eq in E'. congruence.
    + destruct (jstring_eqb k0 key'); auto.
Qed.

Lemma cache_get_In (key : jstring) (v : list num) (c : list (jstring * list num)) :
  cache_get key c = Some v -> In (key, v) c.
Proof.
  induction c as [|[k0 v0] c IH]; simpl; [discriminate|].
  destruct (jstring_eqb k0 key) eqn:E.
  - apply jstring_eqb_eq in E. subst. intros H. injection H as ->. now left.
  - intros H. right. now apply IH.
Qed.

Lemma started_fst (cache : list (jstring * list num)) (calls : list jstring)
    (items : list (nat * KeywordFallback.Example)) :
  map fst (started_callbacks env cache calls items) = items.
Proof.
  revert calls. induction items as [|item items IH]; intros calls; [reflexivity|].
  simpl. destruct (cache_get _ cache); simpl; now rewrite IH.
Qed.

(** A callback holds the cached embedding of its question, or the answer
    of the provider for a question that the cache did not hold. *)
Lemma started_pending (cache : list (jstring * list num)) (calls : list jstring)
    (items : list (nat * KeywordFallback.Example)) :
  Forall (fun s =>
            match snd s with
            | Cached e => cache_get (KeywordFallback.query (snd (fst s))) cache = Some e
            | Asked r =>
                cache_get (KeywordFallback.query (snd (fst s))) cache = None
                /\ exists calls',
                     r = match provider env calls' (KeywordFallback.query (snd (fst s))) with
                         | Some v => Ok v
                         | None => Throw ProviderError
                         end
            end)
         (started_callbacks env cache calls items).
Proof.
  revert calls. induction items as [|item items IH]; intros calls; [constructor|].
  simpl. destruct (cache_get _ cache) as [e|] eqn:E; constructor; simpl; eauto.
Qed.

Lemma final_cache_cons
    (s : nat * KeywordFallback.Example * Pending (num := num))
    (st : list (nat * KeywordFallback.Example * Pending (num := num)))
    (c : list (jstring * list num)) :
  final_cache (s :: st) c =
  final_cache st (match snd s with
                  | Asked (Ok e) => cache_set (KeywordFallback.query (snd (fst s))) e c
                  | _ => c
                  end).
Proof. reflexivity. Qed.

(** A key that the cache holds is still held once the callbacks have run. *)
Lemma final_cache_present (key : jstring)
    (st : list (nat * KeywordFallback.Example * Pending (num := num)))
    (c : list (jstring * list num)) :
  cache_get key c <> None -> cache_get key (final_cache st c) <> None.
Proof.
  revert c. induction st as [|s st IH]; intros c Hc; [assumption|].
  rewrite final_cache_cons. apply IH.
  destruct (snd s) as [e | [e | x]]; try assumption.
  destruct (list_eq_dec N.eq_dec key (KeywordFallback.query (snd (fst s)))) as [<- | Hne].
  - rewrite cache_get_set_same. discriminate.
  - now rewrite cache_get_set_other.
Qed.

(** The answer of the provider for a question is stored. *)
Lemma final_cache_stores
    (st : list (nat * KeywordFallback.Example * Pending (num := num)))
    (c : list (jstring * list num))
    (s : nat * KeywordFallback.Example * Pending (num := num)) (e : list num) :
  In s st -> snd s = Asked (Ok e) ->
  cache_get (KeywordFallback.query (snd (fst s))) (final_cache st c) <> None.
Proof.
  revert c. induction st as [|s0 st IH]; intros c Hin Hs; [destruct Hin|].
  destruct Hin as [<- | Hin].
  - rewrite final_cache_cons, Hs. apply final_cache_present.
    rewrite cache_get_set_same. discriminate.
  - rewrite final_cache_cons. now apply IH.
Qed.

(** An entry of the cache is never replaced by callbacks that were started
    on that cache: they store the questions that it did not hold. *)
Lemma final_cache_keeps (key : jstring) (v : list num)
    (c0 : list (jstring * list num))
    (st : list (nat * KeywordFallback.Example * Pending (num := num)))
    (c : list (jstring * list num)) :
  Forall (fun s => match snd s with
                   | Asked _ => cache_get (KeywordFallback.query (snd (fst s))) c0 = None
                   | Cached _ => True
                   end) st ->
  cache_get key c0 = Some v ->
  cache_get key c = Some v -> cache_get key (final_cache st c) = Some v.
Proof.
  intros Hst H0. revert c. induction Hst as [|s st Hs Hst IH]; intros c Hc; [assumption|].
  rewrite final_cache_cons. apply IH.
  destruct (snd s) as [e | [e | x]]; try assumption.
  rewrite cache_get_set_other; [assumption|].
  intros ->. rewrite Hs in H0. discriminate.
Qed.

Lemma filter_none {A : Type} (p : A -> bool) (l : list A) :
  (forall x, In x l -> p x = false) -> List.filter p l = [].
Proof.
  induction l as [|a l IH]; intros H; [reflexivity|].
  simpl. rewrite (H a (or_introl eq_refl)). apply IH.
  intros x Hx. apply H. now right.
Qed.

Lemma map_result_ok_map {A B C : Type} (f : A -> result B) (g : B -> C) (h : A -> C)
    (l : list A) :
  Forall (fun a => exists b, f a = Ok b /\ g b = h a) l ->
  exists bs, map_result f l = Ok bs /\ map g bs = map h l.
Proof.
  induction 1 as [|a l (b & Hb & Hg) _ (bs & Hbs & Hm)].
  - exists []. auto.
  - exists (b :: bs). simpl. rewrite Hb, Hbs. split; [reflexivity|].
    simpl. now rewrite Hg, Hm.
Qed.

End SelectionFacts.



(** X9.  When the provider answers every request with a vector of one
    length [d] and the cached embeddings have that length, an example
    selection over a non-empty example file with [k >= 0] returns loaded
    examples only (no placeholder), as many as [k] and the number of
    examples allow; together with the examples left out they are the
    loaded examples, each once. *)
Theorem X9_selection_returns_loaded_examples {num : Type} {NumOps : Number num}
    (env : Env num) (w : World num) (query : jstring) (k : Z) (d : nat) :
  loadedExamples env <> [] ->
  embeddingsModel w || modelAvailable env = true ->
  (forall calls text, match provider env calls text with
                      | Some v => List.length v = d
                      | None => False
                      end) ->
  forallb (fun entry => List.length (snd entry) =? d) (embeddingsCache w) = true ->
  (0 <= k)%Z ->
  exists chosen,
    fst (getRelevantExamplesWithEmbeddings env query k w) = Ok (map Some chosen)
    /\ List.length chosen = Nat.min (Z.to_nat k) (List.length (loadedExamples env))
    /\ exists rest, Permutation (chosen ++ rest) (loadedExamples env).
Proof.
  intros Hex Hmodel Hprov Hcache Hk.
  rewrite selection_closed_form. cbv zeta.
  destruct (loadedExamples env) as [|ex exs] eqn:E; [contradiction|].
  rewrite <- E. rewrite Hmodel.
  pose proof (Hprov (embedCalls w) query) as Hq.
  destruct (provider env (embedCalls w) query) as [qe|]; [|contradiction].
  set (started := started_callbacks env (embeddingsCache w) (embedCalls w ++ [query])
                    (indexed (loadedExamples env))).
  pose proof (started_pending env (embeddingsCache w) (embedCalls w ++ [query])
                (indexed (loadedExamples env))) as Hpend.
  pose proof (started_fst env (embeddingsCache w) (embedCalls w ++ [query])
                (indexed (loadedExamples env))) as Hfst.
  fold started in Hpend, Hfst.
  assert (Hscore : forall (item : nat * KeywordFallback.Example) (e : list num),
             List.length e = d ->
             exists b, score_example qe item e = Ok b /\ example b = snd item).
  { intros item e He. unfold score_example, cosineSimilarity.
    rewrite Hq, He, Nat.eqb_refl. simpl. eexists. split; reflexivity. }
  destruct (@map_result_ok_map _ _ _ (finish_result qe) (@example num)
              (fun s => snd (fst s)) started) as (scored & Hs & Hm).
  { eapply Forall_impl; [|exact Hpend].
    intros s Hp. cbv beta in Hp |- *. unfold finish_result.
    destruct (snd s) as [e | r].
    - apply Hscore. apply cache_get_In in Hp.
      apply (proj1 (forallb_forall _ _) Hcache) in Hp. now apply Nat.eqb_eq in Hp.
    - destruct Hp as (_ & calls' & ->).
      pose proof (Hprov calls' (KeywordFallback.query (snd (fst s)))) as Hv.
      destruct (provider env calls' _) as [v|]; [|contradiction].
      now apply Hscore. }
  rewrite Hs. cbn [fst].
  assert (Hload : map (@example num) scored = loadedExamples env).
  { rewrite Hm, <- map_map, Hfst. apply indexed_snd. }
  set (sorted := sort_by (fun a b => nsub (example_score b) (example_score a)) scored).
  assert (Hp : Permutation (map (@example num) sorted) (loadedExamples env)).
  { rewrite <- Hload. apply Permutation_map. apply sort_by_perm. }
  rewrite slice0_nonneg by assumption.
  exists (map (@example num) (firstn (Z.to_nat k) sorted)).
  split; [now rewrite map_map|]. split.
  - rewrite length_map, length_firstn.
    rewrite <- (Permutation_length Hp), length_map. reflexivity.
  - exists (map (@example num) (skipn (Z.to_nat k) sorted)).
    rewrite <- map_app, firstn_skipn. exact Hp.
Qed.

Lemma X9_selection_witness :
  exists chosen,
    fst (getRelevantExamplesWithEmbeddings Sample.mixed_env Sample.a_query 2
           Sample.cached) = Ok (map Some chosen)
    /\ List.length chosen
       = Nat.min (Z.to_nat 2) (List.length (loadedExamples Sample.mixed_env))
    /\ exists rest, Permutation (chosen ++ rest) (loadedExamples Sample.mixed_env).
Proof.
  apply (@X9_selection_returns_loaded_examples _ _ Sample.mixed_env Sample.cached
           Sample.a_query 2 2).
  - discriminate.
  - reflexivity.
  - intros calls text. reflexivity.
  - reflexivity.
  - lia.
Defined.

(** X10.  An example selection over a non-empty example file whose provider
    request for the query fails, or whose embeddings model cannot be
    obtained, does not raise: it returns what the keyword retriever
    returns for the same query and [k]. *)
Theorem X10_selection_falls_back_to_keywords {num : Type} {NumOps : Number num}
    (env : Env num) (w : World num) (query : jstring) (k : Z) :
  loadedExamples env <> [] ->
  provider_fails env w query ->
  fst (getRelevantExamplesWithEmbeddings env query k w)
  = Ok (KeywordFallback.getRelevantExamples (toLowerCase env) (loadedExamples env)
          query k).
Proof.
  intros Hex Hfail. rewrite selection_closed_form. cbv zeta.
  destruct (loadedExamples env) as [|ex exs] eqn:E; [contradiction|].
  destruct Hfail as [[Hm Ha] | Hp].
  - rewrite Hm, Ha. reflexivity.
  - rewrite Hp. destruct (embeddingsModel w || modelAvailable env); reflexivity.
Qed.

Lemma X10_selection_fallback_witness :
  fst (getRelevantExamplesWithEmbeddings Sample.provider_down Sample.a_query 3
         Sample.fresh)
  = Ok (KeywordFallback.getRelevantExamples (toLowerCase Sample.provider_down)
          (loadedExamples Sample.provider_down) Sample.a_query 3).
Proof.
  apply (@X10_selection_falls_back_to_keywords _ _ Sample.provider_down Sample.fresh
           Sample.a_query 3).
  - discriminate.
  - right. reflexivity.
Defined.

(** Without a loaded example the selection returns the empty sequence and
    leaves the process as it was, whereas the keyword retriever returns
    three placeholders. *)
Example selection_without_examples :
  let env := {| storeFile := None; loadedExamples := [];
                modelAvailable := true;
                provider := fun _ _ => Some [1%float; 0%float];
                toLowerCase := KeywordFallback.ascii_lower |} in
  getRelevantExamplesWithEmbeddings env Sample.a_query 3 Sample.fresh
  = (Ok [], Sample.fresh)
  /\ KeywordFallback.getRelevantExamples (toLowerCase env) (loadedExamples env)
       Sample.a_query 3 = [None; None; None].
Proof. vm_compute. split; reflexivity. Qed.

(* ================================================================== *)
(** * Further properties of the cosine similarity and of the keyword
      retriever *)
(* ================================================================== *)

Section CosineInvariances.
Local Open Scope R_scope.

Lemma dotProduct_nil_r (a : list R) : dotProduct a [] = 0.
Proof. unfold dotProduct. now rewrite combine_nil. Qed.

Lemma dotProduct_comm (a b : list R) : dotProduct a b = dotProduct b a.
Proof.
  revert b. induction a as [|x a IH]; intros b.
  - now rewrite dotProduct_nil_r.
  - destruct b as [|y b]; [now rewrite dotProduct_nil_r|].
    rewrite !dotProduct_cons, IH. ring.
Qed.

Lemma dotProduct_self (a : list R) : dotProduct a a = sumSquares a.
Proof.
  induction a as [|x a IH]; [reflexivity|].
  now rewrite dotProduct_cons, sumSquares_cons, IH.
Qed.

Lemma dotProduct_scale (c : R) (a b : list R) :
  dotProduct (map (Rmult c) a) b = c * dotProduct a b.
Proof.
  revert b. induction a as [|x a IH]; intros b.
  - unfold dotProduct. simpl. ring.
  - destruct b as [|y b].
    + rewrite !dotProduct_nil_r. ring.
    + simpl map. rewrite !dotProduct_cons, IH. ring.
Qed.

Lemma sumSquares_scale (c : R) (a : list R) :
  sumSquares (map (Rmult c) a) = (c * c) * sumSquares a.
Proof.
  induction a as [|x a IH].
  - unfold sumSquares. simpl. ring.
  - simpl map. rewrite !sumSquares_cons, IH. ring.
Qed.

Lemma magnitude_scale (c : R) (a : list R) :
  0 <= c -> magnitude (map (Rmult c) a) = c * magnitude a.
Proof.
  intros Hc. unfold magnitude. rewrite sumSquares_scale.
  rewrite sqrt_mult; [|nra|apply sumSquares_nonneg].
  now rewrite sqrt_square.
Qed.

End CosineInvariances.



Section KeywordSelectionFacts.
Import KeywordFallback.
Variable toLowerCase : jstring -> jstring.
Variable allExamples : list Example.

Lemma set_add_spec (idx : nat) (s : list nat) :
  NoDup s -> NoDup (set_add idx s) /\ (forall i, In i (set_add idx s) <-> i = idx \/ In i s).
Proof.
  intros Hs. unfold set_add.
  destruct (existsb (Nat.eqb idx) s) eqn:E.
  - split; [assumption|]. intros i. split; [auto|].
    intros [-> | H]; [|assumption].
    apply existsb_exists in E. destruct E as (j & Hj & Ej).
    apply Nat.eqb_eq in Ej. now subst.
  - assert (Hn : ~ In idx s).
    { intros Hin. assert (existsb (Nat.eqb idx) s = true); [|congruence].
      apply existsb_exists. exists idx. split; [assumption | apply Nat.eqb_refl]. }
    split.
    + apply (Permutation_NoDup (l := idx :: s)).
      * apply Permutation_cons_append.
      * now constructor.
    + intros i. rewrite in_app_iff. simpl. intuition.
Qed.

Lemma set_add_small (idx : nat) (s : list nat) :
  idx < 10 -> small_set s -> small_set (set_add idx s).
Proof.
  intros Hi [Hn Hf]. destruct (set_add_spec idx Hn) as [Hn' Hin].
  split; [assumption|]. apply Forall_forall. intros i H. apply Hin in H.
  destruct H as [-> | H]; [assumption|].
  now apply (proj1 (Forall_forall _ _) Hf).
Qed.

Lemma add_in_range_small (sel : list nat) (idx : nat) :
  idx < 10 -> small_set sel -> small_set (add_in_range allExamples sel idx).
Proof.
  intros Hi Hs. unfold add_in_range.
  destruct (idx <? List.length allExamples); [now apply set_add_small | assumption].
Qed.

Lemma scan_rule_small (q : jstring) (sel : list nat) (rule : KeywordRule) :
  Forall (fun i => i < 10) (examples rule) ->
  small_set sel -> small_set (scan_rule allExamples q sel rule).
Proof.
  intros Hr Hs. unfold scan_rule.
  destruct (existsb _ (terms rule)); [|assumption].
  revert sel Hs. induction Hr as [|i l Hi Hl IH]; intros sel Hs; simpl;
    [assumption|].
  apply IH. now apply add_in_range_small.
Qed.

Lemma rules_small (q : jstring) (rules : list KeywordRule) (sel : list nat) :
  Forall (fun rule => Forall (fun i => i < 10) (examples rule)) rules ->
  small_set sel -> small_set (fold_left (scan_rule allExamples q) rules sel).
Proof.
  intros Hr. revert sel. induction Hr as [|r rules H1 H2 IH]; intros sel Hs; simpl;
    [assumption|].
  apply IH. now apply scan_rule_small.
Qed.

Lemma keywords_below_ten :
  Forall (fun rule => Forall (fun i => i < 10) (examples rule)) keywords.
Proof. unfold keywords. repeat constructor. Qed.

Lemma selectIndices_small (query : jstring) :
  small_set (selectIndices toLowerCase allExamples query)
  /\ selectIndices toLowerCase allExamples query <> [].
Proof.
  unfold selectIndices. cbv zeta.
  pose proof (@rules_small (toLowerCase query) keywords [] keywords_below_ten
                (conj (NoDup_nil _) (Forall_nil _))) as Hs.
  destruct (fold_left _ keywords []) as [|i sel].
  - split; [|discriminate]. split; [|repeat constructor].
    repeat constructor; simpl; intuition discriminate.
  - split; [assumption | discriminate].
Qed.

Lemma small_set_length (s : list nat) : small_set s -> List.length s <= 10.
Proof.
  intros [Hn Hf].
  change 10 with (List.length (seq 0 10)).
  apply NoDup_incl_length; [assumption|].
  intros i Hi. apply in_seq. apply (proj1 (Forall_forall _ _) Hf) in Hi. lia.
Qed.

End KeywordSelectionFacts.

(** X11.  With at least three loaded examples every element the keyword
    retriever returns is a loaded example: the indices of the rules are
    checked against the number of examples, and the three indices of the
    default branch are then in range. *)
Theorem X11_fallback_with_three_examples (toLowerCase : jstring -> jstring)
    (allExamples : list KeywordFallback.Example) (query : jstring) (k : Z) :
  3 <= List.length allExamples ->
  Forall (fun element => exists ex, element = Some ex /\ In ex allExamples)
         (KeywordFallback.getRelevantExamples toLowerCase allExamples query k).
Proof.
  intros Hlen.
  assert (Hr : Forall (fun i => i < List.length allExamples)
                      (KeywordFallback.selectIndices toLowerCase allExamples query)).
  { unfold KeywordFallback.selectIndices. cbv zeta.
    pose proof (@rule_indices_in_range allExamples (toLowerCase query)
                  KeywordFallback.keywords [] (Forall_nil _)) as Hr.
    destruct (fold_left _ KeywordFallback.keywords []) as [|i sel]; [|assumption].
    repeat constructor; lia. }
  unfold KeywordFallback.getRelevantExamples.
  apply Forall_forall. intros element Hin. apply in_map_iff in Hin.
  destruct Hin as (j & <- & Hj). apply slice0_In in Hj.
  apply (proj1 (Forall_forall _ _) Hr) in Hj.
  destruct (nth_error allExamples j) as [ex|] eqn:E.
  - exists ex. split; [reflexivity|]. now apply nth_error_In in E.
  - apply nth_error_None in E. lia.
Qed.

Lemma X11_fallback_witness :
  3 <= List.length Sample.three_examples
  /\ Forall (fun element => exists ex, element = Some ex /\ In ex Sample.three_examples)
            (KeywordFallback.getRelevantExamples KeywordFallback.ascii_lower
               Sample.three_examples (js "hola") 3).
Proof.
  split; [simpl; lia|].
  apply (@X11_fallback_with_three_examples KeywordFallback.ascii_lower
           Sample.three_examples (js "hola") 3).
  simpl. lia.
Defined.

(** X12.  For [k >= 1] the keyword retriever returns at least one element
    and at most [k] and at most ten elements, whatever the example file
    holds; no index of an example is selected twice. *)
Theorem X12_fallback_selection_size (toLowerCase : jstring -> jstring)
    (allExamples : list KeywordFallback.Example) (query : jstring) (k : Z) :
  (1 <= k)%Z ->
  1 <= List.length (KeywordFallback.getRelevantExamples toLowerCase allExamples query k)
    <= Nat.min (Z.to_nat k) 10
  /\ NoDup (KeywordFallback.selectIndices toLowerCase allExamples query).
Proof.
  intros Hk.
  destruct (selectIndices_small toLowerCase allExamples query) as [Hs Hne].
  pose proof (small_set_length Hs) as Hlen.
  unfold KeywordFallback.getRelevantExamples.
  rewrite length_map, slice0_length by assumption.
  destruct (KeywordFallback.selectIndices toLowerCase allExamples query) as [|i sel];
    [contradiction|].
  simpl List.length in *. split; [lia|]. apply Hs.
Qed.

Lemma X12_fallback_size_witness :
  (1 <= 3)%Z
  /\ 1 <= List.length (KeywordFallback.getRelevantExamples KeywordFallback.ascii_lower
                         [] (js "datos de salud en csv") 3)
       <= Nat.min (Z.to_nat 3) 10
  /\ NoDup (KeywordFallback.selectIndices KeywordFallback.ascii_lower []
              (js "datos de salud en csv")).
Proof.
  split; [lia|].
  apply (@X12_fallback_selection_size KeywordFallback.ascii_lower []
           (js "datos de salud en csv") 3).
  lia.
Defined.

(* ================================================================== *)
(** * Further properties of the sanitizer *)
(* ================================================================== *)

Section FenceFacts.

Lemma remove_all_from_skip (m : matcher) (k : nat) (s : jstring) :
  remove_all_from m k s = remove_all m (skipn k s).
Proof.
  revert k. induction s as [|c r IH]; intros k.
  - rewrite skipn_nil. reflexivity.
  - destruct k as [|k]; [reflexivity|]. simpl. apply IH.
Qed.

Lemma remove_all_cons (m : matcher) (c : char16) (r : jstring) :
  remove_all m (c :: r) =
  match m (c :: r) with
  | Some (S k) => remove_all m (skipn k r)
  | _ => c :: remove_all m r
  end.
Proof.
  unfold remove_all at 1. simpl.
  destruct (m (c :: r)) as [[|k]|]; try reflexivity.
  apply remove_all_from_skip.
Qed.

Lemma fence_match (s : jstring) :
  match lit_opt_nl fence s with
  | Some n => starts_with fence s = true /\ (n = 3 \/ n = 4)
  | None => starts_with fence s = false
  end.
Proof.
  unfold lit_opt_nl. destruct (starts_with fence s); [|reflexivity].
  destruct (skipn (List.length fence) s) as [|c r]; [simpl; auto|].
  repeat match goal with
         | |- context [match ?x with _ => _ end] => is_var x; destruct x
         end; simpl; auto.
Qed.

Lemma starts_with_fence_cons (c : char16) (s : jstring) :
  starts_with fence (c :: s) = (backtick =? c)%N && starts_with [backtick; backtick] s.
Proof. reflexivity. Qed.

Lemma one_backtick_kept (s : jstring) :
  starts_with [backtick] s = false ->
  starts_with [backtick] (remove_all (lit_opt_nl fence) s) = false.
Proof.
  destruct s as [|c r]; [reflexivity|]. intros H.
  rewrite remove_all_cons.
  pose proof (fence_match (c :: r)) as Hm.
  destruct (lit_opt_nl fence (c :: r)) as [n|].
  - destruct Hm as [Hm _]. rewrite starts_with_fence_cons in Hm.
    change (starts_with [backtick] (c :: r)) with ((backtick =? c)%N && true) in H.
    destruct (backtick =? c)%N; discriminate.
  - exact H.
Qed.

Lemma two_backticks_kept (s : jstring) :
  starts_with [backtick; backtick] s = false ->
  starts_with [backtick; backtick] (remove_all (lit_opt_nl fence) s) = false.
Proof.
  destruct s as [|c r]; [reflexivity|]. intros H.
  rewrite remove_all_cons.
  pose proof (fence_match (c :: r)) as Hm.
  destruct (lit_opt_nl fence (c :: r)) as [n|].
  - destruct Hm as [Hm _]. rewrite starts_with_fence_cons in Hm.
    apply andb_true_iff in Hm. destruct Hm as [Hc Hr].
    change (starts_with [backtick; backtick] (c :: r))
      with ((backtick =? c)%N && starts_with [backtick] r) in H.
    rewrite Hc in H. cbn [andb] in H.
    destruct r as [|d r']; [discriminate|].
    change (starts_with [backtick; backtick] (d :: r'))
      with ((backtick =? d)%N && starts_with [backtick] r') in Hr.
    change (starts_with [backtick] (d :: r')) with ((backtick =? d)%N && true) in H.
    destruct (backtick =? d)%N; discriminate.
  - change (starts_with [backtick; backtick] (c :: r))
      with ((backtick =? c)%N && starts_with [backtick] r) in H.
    change ((backtick =? c)%N
            && starts_with [backtick] (remove_all (lit_opt_nl fence) r) = false).
    destruct (backtick =? c)%N; [|reflexivity]. cbn [andb] in *.
    now apply one_backtick_kept.
Qed.

(** Once the fence markers have been removed the text holds none: the
    code units around a removed marker never join into a new one. *)
Lemma remove_fences_free (s : jstring) :
  indexOf fence (remove_all (lit_opt_nl fence) s) = None.
Proof.
  remember (List.length s) as n eqn:En.
  assert (Hn : List.length s <= n) by lia. clear En.
  revert s Hn. induction n as [|n IH]; intros s Hn.
  - destruct s; [reflexivity | simpl in Hn; lia].
  - destruct s as [|c r]; [reflexivity|]. simpl in Hn.
    rewrite remove_all_cons.
    pose proof (fence_match (c :: r)) as Hm.
    destruct (lit_opt_nl fence (c :: r)) as [k|].
    + destruct Hm as [_ [-> | ->]]; apply IH; rewrite length_skipn; lia.
    + rewrite indexOf_cons.
      assert (Hs : starts_with fence (c :: remove_all (lit_opt_nl fence) r) = false).
      { rewrite starts_with_fence_cons in *.
        destruct (backtick =? c)%N; [|reflexivity]. cbn [andb] in *.
        now apply two_backticks_kept. }
      rewrite Hs, IH by lia. reflexivity.
Qed.

Lemma indexOf_none_skipn (p x : jstring) (n : nat) :
  indexOf p x = None -> indexOf p (skipn n x) = None.
Proof.
  rewrite !indexOf_none_iff. intros H i Hi.
  rewrite length_skipn in Hi. rewrite skipn_skipn.
  destruct (Nat.le_gt_cases (i + n) (List.length x)) as [Hle | Hgt].
  - now apply H.
  - rewrite skipn_all2 by lia. rewrite <- (skipn_all x). apply H. lia.
Qed.

(** Trimming keeps a contiguous part of the text. *)
Lemma trim_substring (s : jstring) : exists i n, trim s = firstn n (skipn i s).
Proof.
  unfold trim, trimEnd, trimStart.
  exists (List.length (takeWhile is_space s)).
  rewrite <- (skipn_takeWhile is_space s).
  set (t := skipn _ s).
  rewrite <- (skipn_takeWhile is_space (rev t)).
  rewrite skipn_rev, rev_involutive. eexists. reflexivity.
Qed.

Lemma indexOf_none_trim (p s : jstring) :
  indexOf p s = None -> indexOf p (trim s) = None.
Proof.
  intros H. destruct (trim_substring s) as (i & n & ->).
  now apply indexOf_none_firstn, indexOf_none_skipn.
Qed.

Lemma indexOf_none_match_first (p : jstring) (m : matcher) (s t : jstring) :
  indexOf p s = None -> match_first m s = Some t -> indexOf p t = None.
Proof.
  unfold match_first. intros H.
  destruct (search m s) as [[i n]|]; [|discriminate].
  simpl. intros E. injection E as <-.
  now apply indexOf_none_firstn, indexOf_none_skipn.
Qed.

Lemma indexOf_fence_behind (P s : jstring) :
  forallb (fun c => negb (backtick =? c)%N) P = true ->
  indexOf fence s = None -> indexOf fence (P ++ s) = None.
Proof.
  intros HP Hs. induction P as [|c P IH]; [assumption|].
  cbn [forallb] in HP. apply andb_true_iff in HP. destruct HP as [Hc HP].
  change ((c :: P) ++ s) with (c :: (P ++ s)).
  rewrite indexOf_cons, starts_with_fence_cons.
  apply negb_true_iff in Hc. rewrite Hc. cbn [andb]. now rewrite IH.
Qed.

Lemma indexOf_fence_inserted (s : jstring) :
  indexOf fence s = None -> indexOf fence (insert_closing_brace s) = None.
Proof.
  intros H. unfold insert_closing_brace.
  destruct (search ws_limit_len s) as [[i n]|]; [|assumption].
  apply (indexOf_fence_insert (firstn i s) (skipn i s)).
  now rewrite firstn_skipn.
Qed.

End FenceFacts.

Section StageFacts.

(** The text that reaches the last two steps of the sanitizer (the
    default prefixes and the brace repair) holds no code fence, and it
    holds no limit clause or ends with its first one. *)
Lemma clean_stages (response : jstring) :
  exists body,
    cleanSparqlResponse response =
      (let sparql := if negb (includes PREFIX body) then requiredPrefixes ++ body
                     else body in
       if count_char close_brace sparql <? count_char open_brace sparql
       then insert_closing_brace sparql else sparql)
    /\ indexOf fence body = None
    /\ (lazy_limit_len body = None \/ lazy_limit_len body = Some (List.length body)).
Proof.
  unfold cleanSparqlResponse. cbv zeta.
  eexists. split; [reflexivity|].
  set (s2 := remove_all (lit_opt_nl fence) _).
  assert (H2 : indexOf fence s2 = None) by apply remove_fences_free.
  set (s3 := match match_first (kw_to_limit_len PREFIX) s2 with
             | Some m => trim m
             | None => _
             end).
  assert (H3 : indexOf fence s3 = None).
  { subst s3. destruct (match_first (kw_to_limit_len PREFIX) s2) as [m|] eqn:E1.
    - apply indexOf_none_trim. eapply indexOf_none_match_first; eassumption.
    - destruct (match_first (kw_to_limit_len SELECT) s2) as [m|] eqn:E2; [|assumption].
      apply indexOf_none_trim. eapply indexOf_none_match_first; eassumption. }
  set (s4 := match indexOf PREFIX s3 with
             | Some (S i) => substring_from (S i) s3
             | _ => s3
             end).
  assert (H4 : indexOf fence s4 = None).
  { subst s4. destruct (indexOf PREFIX s3) as [[|i]|]; try assumption.
    unfold substring_from. now apply indexOf_none_skipn. }
  unfold match_anchored.
  destruct (lazy_limit_len s4) as [n|] eqn:E; simpl.
  - destruct (first_clause_cut _ E) as [Hcut Hn].
    split; [now apply indexOf_none_firstn|].
    right. rewrite Hcut, length_firstn. f_equal. lia.
  - auto.
Qed.

Lemma no_limit_start_sound (P s : jstring) (i : nat) :
  no_limit_start P = true -> i < List.length P ->
  limit_len (skipn i (P ++ s)) = None.
Proof.
  revert i. induction P as [|c P IH]; intros i HP Hi; [simpl in Hi; lia|].
  cbn [no_limit_start] in HP. apply andb_true_iff in HP. destruct HP as [Hc HP].
  destruct i as [|i].
  - cbn [skipn]. unfold limit_len.
    assert (Hs : starts_with_ci LIMIT ((c :: P) ++ s) = false).
    { change (starts_with_ci LIMIT ((c :: P) ++ s))
        with (eq_ci 76%N c && starts_with_ci (js "IMIT") (P ++ s)).
      destruct (eq_ci 76%N c); [|reflexivity]. cbn [negb orb andb] in Hc |- *.
      destruct P as [|d P]; [discriminate|].
      change (starts_with_ci (js "IMIT") ((d :: P) ++ s))
        with (eq_ci 73%N d && starts_with_ci (js "MIT") (P ++ s)).
      apply negb_true_iff in Hc. now rewrite Hc. }
    now rewrite Hs.
  - cbn [List.length] in Hi. cbn [skipn app]. apply IH; [assumption | lia].
Qed.

Lemma lazy_limit_behind (P s : jstring) :
  no_limit_start P = true ->
  lazy_limit_len (P ++ s) = option_map (Nat.add (List.length P)) (lazy_limit_len s).
Proof.
  intros HP. induction P as [|c P IH].
  - simpl. destruct (lazy_limit_len s); reflexivity.
  - change ((c :: P) ++ s) with (c :: (P ++ s)).
    rewrite lazy_limit_len_cons.
    pose proof (@no_limit_start_sound (c :: P) s 0 HP) as H0.
    cbn [skipn app List.length] in H0. rewrite H0 by lia.
    cbn [no_limit_start] in HP. apply andb_true_iff in HP. destruct HP as [_ HP].
    rewrite (IH HP). destruct (lazy_limit_len s); reflexivity.
Qed.

(** The brace repair keeps a text that ends with its first limit clause,
    or that holds none, in that shape. *)
Lemma insert_keeps_shape (t : jstring) :
  lazy_limit_len t = None \/ lazy_limit_len t = Some (List.length t) ->
  lazy_limit_len (insert_closing_brace t) = None
  \/ lazy_limit_len (insert_closing_brace t)
     = Some (List.length (insert_closing_brace t)).
Proof.
  intros [Hn | Hs].
  - left. unfold insert_closing_brace.
    destruct (search ws_limit_len t) as [[i n]|] eqn:E; [|assumption].
    exfalso. apply search_elim in E. destruct E as (_ & _ & E).
    unfold ws_limit_len in E.
    destruct (limit_len (skipn (List.length (takeWhile is_space (skipn i t))) (skipn i t)))
      as [m|] eqn:El; [|discriminate].
    rewrite skipn_skipn in El.
    destruct (lazy_limit_found _ _ El) as (k & Hk). congruence.
  - right. destruct (insert_shape _ Hs) as (A & ws0 & C & Et & Ei & Hws & HC & HA & Hno).
    rewrite Ei. apply inserted_single_clause; try assumption.
    now rewrite <- Et.
Qed.

Lemma requiredPrefixes_no_limit : no_limit_start requiredPrefixes = true.
Proof. vm_compute. reflexivity. Qed.

Lemma indexOf_some (p s : jstring) (j : nat) :
  indexOf p s = Some j -> starts_with p (skipn j s) = true.
Proof.
  revert j. induction s as [|c s IH]; intros j.
  - simpl. destruct (starts_with p []) eqn:E; [|discriminate].
    intros H. injection H as <-. exact E.
  - rewrite indexOf_cons. destruct (starts_with p (c :: s)) eqn:E.
    + intros H. injection H as <-. exact E.
    + destruct (indexOf p s) as [j'|]; [|discriminate].
      simpl. intros H. injection H as <-. simpl. now apply IH.
Qed.

Lemma includes_intro (p s : jstring) (j : nat) :
  starts_with p (skipn j s) = true -> includes p s = true.
Proof.
  intros H. unfold includes. destruct (indexOf p s) eqn:E; [reflexivity|].
  exfalso. rewrite indexOf_none_iff in E.
  destruct (Nat.le_gt_cases j (List.length s)) as [Hle | Hgt].
  - rewrite (E j Hle) in H. discriminate.
  - rewrite skipn_all2 in H by lia. rewrite <- (skipn_all s) in H.
    rewrite (E _ (le_n _)) in H. discriminate.
Qed.

(** The brace repair does not cut a prefix keyword in two. *)
Lemma insert_keeps_includes_PREFIX (s : jstring) :
  includes PREFIX s = true -> includes PREFIX (insert_closing_brace s) = true.
Proof.
  unfold includes at 1. destruct (indexOf PREFIX s) as [j|] eqn:Ej; [|discriminate].
  intros _. apply indexOf_some in Ej.
  unfold insert_closing_brace.
  destruct (search ws_limit_len s) as [[i n]|] eqn:Es;
    [|now apply (includes_intro _ _ j)].
  apply search_elim in Es. destruct Es as (Hi & _ & Hm).
  destruct (starts_with_inv _ _ Ej) as (rest & Erest).
  destruct (Nat.le_gt_cases i j) as [Hij | Hij].
  - (* the keyword starts behind the insertion point *)
    apply (includes_intro _ _ (j + 2)).
    replace (skipn (j + 2) (firstn i s ++ nl ++ [close_brace] ++ skipn i s))
      with (skipn j s); [assumption|].
    rewrite skipn_app, length_firstn, Nat.min_l by assumption.
    rewrite (skipn_all2 (firstn i s)) by (rewrite length_firstn; lia).
    replace (j + 2 - i) with (S (S (j - i))) by lia.
    simpl. rewrite skipn_skipn. f_equal. lia.
  - destruct (Nat.le_gt_cases (j + 6) i) as [Hji | Hji].
    + (* the keyword ends before the insertion point *)
      apply (includes_intro _ _ j).
      rewrite skipn_app.
      apply starts_with_ext.
      rewrite skipn_firstn_comm, Erest.
      replace (i - j) with (6 + (i - j - 6)) by lia.
      reflexivity.
    + (* the insertion point cannot lie inside the keyword *)
      exfalso.
      assert (Hsk : skipn i s = skipn (i - j) (skipn j s)).
      { rewrite skipn_skipn. f_equal. lia. }
      rewrite Hsk, Erest in Hm.
      destruct (i - j) as [|[|[|[|[|[|d]]]]]] eqn:Ed; try lia;
        vm_compute in Hm; discriminate.
Qed.

End StageFacts.

(** X13.  The output of the sanitizer always holds a prefix declaration
    keyword: a text without one gets the three default prefixes in front,
    and the brace repair never cuts the keyword in two. *)
Theorem X13_output_declares_prefixes (response : jstring) :
  includes PREFIX (cleanSparqlResponse response) = true.
Proof.
  destruct (clean_stages response) as (body & -> & _ & _). cbv zeta.
  assert (H : includes PREFIX (if negb (includes PREFIX body)
                               then requiredPrefixes ++ body else body) = true).
  { destruct (includes PREFIX body) eqn:E; [exact E|]. reflexivity. }
  destruct (_ <? _); [now apply insert_keeps_includes_PREFIX | exact H].
Qed.

(** X14.  The output of the sanitizer never holds a code-fence marker,
    whatever the response holds (markers next to each other, markers glued
    to text): what is left of the markers are runs of at most two
    backticks. *)
Theorem X14_output_has_no_code_fence (response : jstring) :
  includes fence (cleanSparqlResponse response) = false.
Proof.
  destruct (clean_stages response) as (body & -> & Hf & _). cbv zeta.
  assert (H : indexOf fence (if negb (includes PREFIX body)
                             then requiredPrefixes ++ body else body) = None).
  { destruct (negb (includes PREFIX body)); [|assumption].
    apply indexOf_fence_behind; [reflexivity | assumption]. }
  match goal with
  | |- includes fence ?out = false => assert (H' : indexOf fence out = None)
  end.
  { destruct (_ <? _); [now apply indexOf_fence_inserted | exact H]. }
  unfold includes at 1. now rewrite H'.
Qed.

(** Five backticks in a row leave two. *)
Example glued_fences :
  cleanSparqlResponse (js "SELECT ?s WHERE { ?s ?p `````o } LIMIT 5")
  = requiredPrefixes ++ js "SELECT ?s WHERE { ?s ?p ``o } LIMIT 5".
Proof. vm_compute. reflexivity. Qed.

(** X15.  The output of the sanitizer holds no limit clause, or it ends
    with its first limit clause: nothing of the response is kept behind
    the first limit clause. *)
Theorem X15_output_ends_with_its_limit_clause (response : jstring) :
  lazy_limit_len (cleanSparqlResponse response) = None
  \/ single_final_limit_clause (cleanSparqlResponse response) = true.
Proof.
  assert (H : lazy_limit_len (cleanSparqlResponse response) = None
              \/ lazy_limit_len (cleanSparqlResponse response)
                 = Some (List.length (cleanSparqlResponse response))).
  { destruct (clean_stages response) as (body & -> & _ & Hl). cbv zeta.
    assert (H : let sparql := if negb (includes PREFIX body)
                              then requiredPrefixes ++ body else body in
                lazy_limit_len sparql = None
                \/ lazy_limit_len sparql = Some (List.length sparql)).
    { cbv zeta. destruct (negb (includes PREFIX body)); [|assumption].
      rewrite (@lazy_limit_behind requiredPrefixes body requiredPrefixes_no_limit),
        length_app.
      destruct Hl as [-> | ->]; [left | right]; reflexivity. }
    cbv zeta in H. destruct (_ <? _); [now apply insert_keeps_shape | exact H]. }
  destruct H as [H | H]; [now left | right].
  unfold single_final_limit_clause. rewrite H. apply Nat.eqb_refl.
Qed.

(** X16.  On a text that starts with a prefix declaration, ends in a
    limit clause and holds no code fence, the sanitizer returns the part
    that ends with the first limit clause; when that part leaves a brace
    open, a line feed and one closing brace are inserted in it, in front
    of the white space that precedes the limit clause, and one brace less
    is left open. *)
Theorem X16_repair_inserts_before_the_limit_clause (x : jstring) :
  starts_with_prefix x = true ->
  ends_in_limit_clause x = true ->
  includes fence x = false ->
  (unclosed_braces (first_statement x) = 0 ->
   cleanSparqlResponse x = first_statement x)
  /\ (1 <= unclosed_braces (first_statement x) ->
      exists A ws C,
        first_statement x = A ++ ws ++ C
        /\ cleanSparqlResponse x = A ++ nl ++ [close_brace] ++ ws ++ C
        /\ Forall (fun c => is_space c = true) ws
        /\ limit_len C = Some (List.length C)
        /\ (forall A0 c, A = A0 ++ [c] -> is_space c = false)
        /\ unclosed_braces (cleanSparqlResponse x)
           = unclosed_braces (first_statement x) - 1).
Proof.
  intros Hp He Hf.
  destruct (ends_in_limit_clause_facts _ He) as [Hd (n & Hn)].
  assert (Hf' : indexOf fence x = None).
  { unfold includes in Hf. destruct (indexOf fence x); [discriminate | reflexivity]. }
  pose proof (clean_to_first_limit Hp Hd Hf' Hn) as Hc.
  unfold first_statement. rewrite Hn.
  destruct (first_clause_cut _ Hn) as [Hcut Hle].
  unfold unclosed_braces. split.
  - intros H0. rewrite Hc.
    destruct (_ <? _) eqn:E; [apply Nat.ltb_lt in E; lia | reflexivity].
  - intros H1. rewrite Hc.
    destruct (_ <? _) eqn:E; [|apply Nat.ltb_ge in E; lia].
    assert (Hfull : lazy_limit_len (firstn n x) = Some (List.length (firstn n x))).
    { rewrite Hcut, length_firstn. f_equal. lia. }
    destruct (insert_shape _ Hfull) as (A & ws0 & C & Et & Ei & Hws & HC & HA & _).
    exists A, ws0, C. rewrite Ei. repeat split; try assumption.
    rewrite !count_char_insert, <- Et.
    change (count_char open_brace [10%N; 125%N]) with 0.
    change (count_char close_brace [10%N; 125%N]) with 1.
    lia.
Qed.

Lemma X16_repair_witness :
  (unclosed_braces (first_statement one_open_raw) = 0 ->
   cleanSparqlResponse one_open_raw = first_statement one_open_raw)
  /\ (1 <= unclosed_braces (first_statement one_open_raw) ->
      exists A ws C,
        first_statement one_open_raw = A ++ ws ++ C
        /\ cleanSparqlResponse one_open_raw = A ++ nl ++ [close_brace] ++ ws ++ C
        /\ Forall (fun c => is_space c = true) ws
        /\ limit_len C = Some (List.length C)
        /\ (forall A0 c, A = A0 ++ [c] -> is_space c = false)
        /\ unclosed_braces (cleanSparqlResponse one_open_raw)
           = unclosed_braces (first_statement one_open_raw) - 1).
Proof.
  apply (@X16_repair_inserts_before_the_limit_clause one_open_raw);
    vm_compute; reflexivity.
Defined.

(* ================================================================== *)
(** * Properties of the tokenizer: padding, masks and special tokens *)
(* ================================================================== *)

Section PaddingFacts.
Import Tokenizer.

Lemma firstn_repeat {A : Type} (x : A) (k n : nat) :
  firstn k (repeat x n) = repeat x (Nat.min k n).
Proof.
  revert n. induction k as [|k IH]; intros n; [reflexivity|].
  destruct n as [|n]; [reflexivity|]. simpl. now rewrite IH.
Qed.

Lemma pad_closed (this : SimpleTokenizer) (ids : list Z) (maxLength : Z) :
  (0 <= maxLength)%Z ->
  pad this ids maxLength
  = firstn (Z.to_nat maxLength)
      (ids ++ repeat (padTokenId (config this)) (Z.to_nat maxLength)).
Proof.
  intros H0. unfold pad. rewrite firstn_app.
  destruct (maxLength <=? Z.of_nat (List.length ids))%Z eqn:E.
  - apply Z.leb_le in E. rewrite slice0_nonneg by assumption.
    replace (Z.to_nat maxLength - List.length ids) with 0 by lia.
    simpl. now rewrite app_nil_r.
  - apply Z.leb_gt in E. rewrite firstn_all2 by lia. f_equal.
    rewrite firstn_repeat. f_equal. lia.
Qed.

Lemma map_repeat {A B : Type} (f : A -> B) (x : A) (n : nat) :
  map f (repeat x n) = repeat (f x) n.
Proof. induction n as [|n IH]; [reflexivity|]. simpl. now rewrite IH. Qed.

End PaddingFacts.

(** X17.  For a length [maxLength >= 0] padding returns exactly
    [maxLength] ids: the given ids followed by pad ids, cut after
    [maxLength] of them; padding what has been padded to the same length
    changes nothing. *)
Theorem X17_pad_gives_the_requested_length (this : Tokenizer.SimpleTokenizer)
    (ids : list Z) (maxLength : Z) :
  (0 <= maxLength)%Z ->
  Tokenizer.pad this ids maxLength
  = firstn (Z.to_nat maxLength)
      (ids ++ repeat (Tokenizer.padTokenId (Tokenizer.config this)) (Z.to_nat maxLength))
  /\ List.length (Tokenizer.pad this ids maxLength) = Z.to_nat maxLength
  /\ Tokenizer.pad this (Tokenizer.pad this ids maxLength) maxLength
     = Tokenizer.pad this ids maxLength.
Proof.
  intros H0.
  assert (Hlen : List.length (Tokenizer.pad this ids maxLength) = Z.to_nat maxLength).
  { rewrite pad_closed by assumption.
    rewrite length_firstn, length_app, repeat_length. lia. }
  split; [now apply pad_closed|]. split; [exact Hlen|].
  unfold Tokenizer.pad at 1. rewrite Hlen.
  replace (maxLength <=? Z.of_nat (Z.to_nat maxLength))%Z with true
    by (symmetry; apply Z.leb_le; lia).
  rewrite slice0_nonneg by assumption. apply firstn_all2. lia.
Qed.

Lemma X17_pad_witness :
  (0 <= 5)%Z
  /\ Tokenizer.pad (Tokenizer.new_SimpleTokenizer None None) [7; 8; 9]%Z 5
     = firstn (Z.to_nat 5)
         ([7; 8; 9]%Z ++
          repeat (Tokenizer.padTokenId
                    (Tokenizer.config (Tokenizer.new_SimpleTokenizer None None)))
                 (Z.to_nat 5))
  /\ List.length (Tokenizer.pad (Tokenizer.new_SimpleTokenizer None None) [7; 8; 9]%Z 5)
     = Z.to_nat 5
  /\ Tokenizer.pad (Tokenizer.new_SimpleTokenizer None None)
       (Tokenizer.pad (Tokenizer.new_SimpleTokenizer None None) [7; 8; 9]%Z 5) 5
     = Tokenizer.pad (Tokenizer.new_SimpleTokenizer None None) [7; 8; 9]%Z 5.
Proof.
  split; [lia|].
  apply (@X17_pad_gives_the_requested_length
           (Tokenizer.new_SimpleTokenizer None None) [7; 8; 9]%Z 5).
  lia.
Defined.

(** A negative length drops ids from the end instead. *)
Example pad_negative_length :
  Tokenizer.pad (Tokenizer.new_SimpleTokenizer None None) [7; 8; 9]%Z (-1) = [7; 8]%Z.
Proof. reflexivity. Qed.

(** X18.  When no given id is the pad id, the attention mask of the
    padded sequence holds a one for every id that was kept and a zero for
    every pad id that was added. *)
Theorem X18_mask_marks_the_kept_ids (this : Tokenizer.SimpleTokenizer)
    (ids : list Z) (maxLength : Z) :
  ~ In (Tokenizer.padTokenId (Tokenizer.config this)) ids ->
  (0 <= maxLength)%Z ->
  Tokenizer.createAttentionMask this (Tokenizer.pad this ids maxLength)
  = repeat 1%Z (Nat.min (List.length ids) (Z.to_nat maxLength))
    ++ repeat 0%Z (Z.to_nat maxLength - List.length ids).
Proof.
  intros Hno H0. rewrite pad_closed by assumption.
  rewrite firstn_app, firstn_repeat. unfold Tokenizer.createAttentionMask.
  rewrite map_app, map_repeat, Z.eqb_refl. f_equal.
  - rewrite Nat.min_comm.
    rewrite <- (length_firstn (Z.to_nat maxLength) ids).
    assert (Hin : forall id, In id (firstn (Z.to_nat maxLength) ids) ->
                             id <> Tokenizer.padTokenId (Tokenizer.config this)).
    { intros id Hid Heq. apply firstn_In in Hid. congruence. }
    induction (firstn (Z.to_nat maxLength) ids) as [|id l IH]; [reflexivity|].
    simpl. rewrite IH by (intros; apply Hin; now right).
    pose proof (Hin id (or_introl eq_refl)) as Hne.
    apply Z.eqb_neq in Hne. now rewrite Hne.
  - f_equal. lia.
Qed.

Lemma X18_mask_witness :
  ~ In (Tokenizer.padTokenId (Tokenizer.config (Tokenizer.new_SimpleTokenizer None None)))
       [7; 8; 9]%Z
  /\ Tokenizer.createAttentionMask (Tokenizer.new_SimpleTokenizer None None)
       (Tokenizer.pad (Tokenizer.new_SimpleTokenizer None None) [7; 8; 9]%Z 5)
     = repeat 1%Z (Nat.min (List.length [7; 8; 9]%Z) (Z.to_nat 5))
       ++ repeat 0%Z (Z.to_nat 5 - List.length [7; 8; 9]%Z).
Proof.
  assert (H : ~ In (Tokenizer.padTokenId
                      (Tokenizer.config (Tokenizer.new_SimpleTokenizer None None)))
                   [7; 8; 9]%Z).
  { simpl. intros [H | [H | [H | []]]]; discriminate. }
  split; [exact H|].
  apply (@X18_mask_marks_the_kept_ids (Tokenizer.new_SimpleTokenizer None None)
           [7; 8; 9]%Z 5 H).
  lia.
Defined.

Section DecodeFacts.
Import Tokenizer.
Variable this : SimpleTokenizer.

Lemma decode_app_special (ids extra : list Z) :
  forallb (isSpecialToken this) extra = true ->
  decode this (ids ++ extra) true = decode this ids true.
Proof.
  intros He. unfold decode. cbv zeta. f_equal.
  rewrite map_app, filter_app.
  rewrite <- app_nil_r. f_equal.
  induction extra as [|id extra IH]; [reflexivity|].
  cbn [forallb] in He. apply andb_true_iff in He. destruct He as [Hid He].
  cbn [map List.filter]. rewrite Hid. cbn [andb]. now apply IH.
Qed.

Lemma decode_filter_special (ids : list Z) :
  decode this ids true
  = decode this (List.filter (fun id => negb (isSpecialToken this id)) ids) true.
Proof.
  unfold decode. cbv zeta. cbn [andb]. f_equal.
  induction ids as [|id ids IH]; [reflexivity|].
  cbn [map List.filter]. destruct (isSpecialToken this id) eqn:E; cbn [negb].
  - exact IH.
  - cbn [map List.filter]. rewrite E. now rewrite IH.
Qed.

End DecodeFacts.

(** X19.  Decoding with [skipSpecialTokens] ignores the pad, end and
    unknown ids altogether: it gives what decoding the other ids gives, so
    pad ids added behind a sequence and the end id added by [encode] do not
    change the decoded text. *)
Theorem X19_decode_ignores_special_tokens (toLowerCase : jstring -> jstring)
    (this : Tokenizer.SimpleTokenizer) (ids : list Z) (n : nat) (text : jstring) :
  Tokenizer.decode this ids true
  = Tokenizer.decode this
      (List.filter (fun id => negb (Tokenizer.isSpecialToken this id)) ids) true
  /\ Tokenizer.decode this
       (ids ++ repeat (Tokenizer.padTokenId (Tokenizer.config this)) n) true
     = Tokenizer.decode this ids true
  /\ Tokenizer.decode this (Tokenizer.encode toLowerCase this text true) true
     = Tokenizer.decode this (Tokenizer.encode toLowerCase this text false) true.
Proof.
  split; [apply decode_filter_special|]. split.
  - apply decode_app_special. induction n as [|n IH]; [reflexivity|].
    cbn [repeat forallb]. rewrite IH.
    unfold Tokenizer.isSpecialToken. now rewrite Z.eqb_refl.
  - unfold Tokenizer.encode. cbv zeta. apply decode_app_special.
    cbn [forallb]. unfold Tokenizer.isSpecialToken.
    rewrite Z.eqb_refl, orb_true_r. reflexivity.
Qed.

(* ================================================================== *)
(** * Properties of the tokenizer: tokens and the basic vocabulary *)
(* ================================================================== *)

Section TokenFacts.
Import Tokenizer.

Lemma match_all_from_skip (m : matcher) (k : nat) (s : jstring) :
  match_all_from m k s = match_all m (skipn k s).
Proof.
  revert k. induction s as [|c r IH]; intros k.
  - rewrite skipn_nil. reflexivity.
  - destruct k as [|k]; [reflexivity|]. simpl. apply IH.
Qed.

Lemma match_all_cons (m : matcher) (c : char16) (r : jstring) :
  match_all m (c :: r) =
  match m (c :: r) with
  | Some (S k) => firstn (S k) (c :: r) :: match_all m (skipn k r)
  | _ => match_all m r
  end.
Proof.
  unfold match_all at 1. simpl.
  destruct (m (c :: r)) as [[|k]|]; try reflexivity.
  now rewrite match_all_from_skip.
Qed.

Lemma replace_all_from_skip (m : matcher) (f : jstring -> jstring) (k : nat)
    (s : jstring) :
  replace_all_from m f k s = replace_all m f (skipn k s).
Proof.
  revert k. induction s as [|c r IH]; intros k.
  - rewrite skipn_nil. reflexivity.
  - destruct k as [|k]; [reflexivity|]. simpl. apply IH.
Qed.

Lemma replace_all_cons (m : matcher) (f : jstring -> jstring) (c : char16)
    (r : jstring) :
  replace_all m f (c :: r) =
  match m (c :: r) with
  | Some (S k) => f (firstn (S k) (c :: r)) ++ replace_all m f (skipn k r)
  | _ => c :: replace_all m f r
  end.
Proof.
  unfold replace_all at 1. simpl.
  destruct (m (c :: r)) as [[|k]|]; try reflexivity.
  now rewrite replace_all_from_skip.
Qed.

Lemma firstn_takeWhile (p : char16 -> bool) (s : jstring) :
  firstn (List.length (takeWhile p s)) s = takeWhile p s.
Proof.
  induction s as [|c s IH]; [reflexivity|].
  simpl. destruct (p c); [|reflexivity]. simpl. now rewrite IH.
Qed.

Lemma forallb_firstn {A : Type} (p : A -> bool) (n : nat) (l : list A) :
  forallb p l = true -> forallb p (firstn n l) = true.
Proof.
  intros H. apply forallb_forall. intros x Hx. apply firstn_In in Hx.
  now apply (proj1 (forallb_forall _ _) H).
Qed.

Lemma forallb_skipn {A : Type} (p : A -> bool) (n : nat) (l : list A) :
  forallb p l = true -> forallb p (skipn n l) = true.
Proof.
  intros H. apply forallb_forall. intros x Hx.
  apply (proj1 (forallb_forall _ _) H).
  rewrite <- (firstn_skipn n l). apply in_or_app. now right.
Qed.

(** A token is a punctuation mark or a word, and it is a part of the
    text: what holds for every code unit of the text holds for every code
    unit of a token. *)
Lemma tokenize_tokens (P : char16 -> bool) (s : jstring) :
  forallb P s = true ->
  Forall (fun tk => forallb P tk = true
                    /\ ((exists c, tk = [c] /\ is_punct c = true)
                        \/ is_a_word tk = true))
         (tokenize s).
Proof.
  unfold tokenize.
  remember (List.length s) as n eqn:En.
  assert (Hn : List.length s <= n) by lia. clear En.
  revert s Hn. induction n as [|n IH]; intros s Hn HP.
  - destruct s; [constructor | simpl in Hn; lia].
  - destruct s as [|c r]; [constructor|]. simpl in Hn.
    rewrite match_all_cons.
    destruct (token_len (c :: r)) as [[|k]|] eqn:E.
    + apply IH; [lia|]. apply (forallb_skipn P 1 (c :: r) HP).
    + constructor.
      * split; [now apply forallb_firstn|].
        unfold token_len in E. destruct (is_punct c) eqn:Ep.
        -- injection E as <-. left. exists c. auto.
        -- right. destruct (takeWhile is_word (c :: r)) as [|d w] eqn:Ew;
             [discriminate|].
           assert (Hk : S k = List.length (takeWhile is_word (c :: r))).
           { rewrite Ew. injection E as E. simpl. congruence. }
           rewrite Hk, firstn_takeWhile, Ew.
           unfold is_a_word. apply forallb_forall.
           rewrite <- Ew. apply Forall_forall, takeWhile_all.
      * apply IH; [rewrite length_skipn; lia|].
        apply (forallb_skipn P (S k) (c :: r) HP).
    + apply IH; [lia|]. apply (forallb_skipn P 1 (c :: r) HP).
Qed.

(** A lookup only meets the keys that share a property of the key looked
    up. *)
Lemma map_get_filter {V : Type} (p : jstring -> bool) (key : jstring)
    (m : list (jstring * V)) :
  p key = true ->
  map_get jstring_eqb key m
  = map_get jstring_eqb key (List.filter (fun entry => p (fst entry)) m).
Proof.
  intros Hk. induction m as [|[k v] m IH]; [reflexivity|].
  simpl. destruct (jstring_eqb k key) eqn:E.
  - apply jstring_eqb_eq in E. subst k. rewrite Hk. simpl.
    assert (E : jstring_eqb key key = true) by now apply jstring_eqb_eq.
    now rewrite E.
  - destruct (p k); [|exact IH]. simpl. now rewrite E, IH.
Qed.

Lemma punct_cases (c : char16) :
  is_punct c = true ->
  In c [63; 123; 125; 46; 44; 59; 40; 41; 91; 93]%N.
Proof.
  unfold is_punct. intros H.
  repeat (apply orb_true_iff in H; destruct H as [H | H]);
    apply N.eqb_eq in H; subst; simpl; tauto.
Qed.

End TokenFacts.



(** The keywords of a query encode to the unknown id. *)
Example keywords_encode_to_unknown :
  Tokenizer.encode KeywordFallback.ascii_lower (Tokenizer.new_SimpleTokenizer None None)
    (js "SELECT ?s WHERE { ?s a dcat:Dataset } LIMIT 10") true
  = [2; 25; 2; 2; 26; 25; 2; 35; 2; 2; 27; 2; 2; 1]%Z.
Proof. vm_compute. reflexivity. Qed.

(* ================================================================== *)
(** * Properties of the tokenizer: the round trip of known words *)
(* ================================================================== *)

Section MapFacts.
Import Tokenizer.
Context {K V : Type}.
Variable eqb : K -> K -> bool.
Hypothesis eqb_eq : forall a b, eqb a b = true <-> a = b.

Lemma map_set_fresh (key : K) (v : V) (m : list (K * V)) :
  ~ In key (map fst m) -> map_set eqb key v m = m ++ [(key, v)].
Proof.
  induction m as [|[k0 v0] m IH]; intros Hn; [reflexivity|].
  simpl. destruct (eqb k0 key) eqn:E.
  - apply eqb_eq in E. subst. exfalso. apply Hn. now left.
  - rewrite IH; [reflexivity|]. intros H. apply Hn. now right.
Qed.

Lemma fold_map_set_fresh (l acc : list (K * V)) :
  NoDup (map fst (acc ++ l)) ->
  fold_left (fun m entry => map_set eqb (fst entry) (snd entry) m) l acc = acc ++ l.
Proof.
  revert acc. induction l as [|[k v] l IH]; intros acc Hn.
  - now rewrite app_nil_r.
  - cbn [fold_left fst snd]. rewrite map_set_fresh.
    + rewrite IH; rewrite <- app_assoc; [reflexivity | exact Hn].
    + rewrite map_app in Hn. apply NoDup_remove_2 in Hn.
      intros H. apply Hn. apply in_or_app. now left.
Qed.

(** A map built from entries with distinct keys holds the entries as they
    are. *)
Lemma map_of_entries_distinct (l : list (K * V)) :
  NoDup (map fst l) -> map_of_entries eqb l = l.
Proof. intros H. unfold map_of_entries. now rewrite fold_map_set_fresh. Qed.

Lemma map_get_Some_In (key : K) (v : V) (m : list (K * V)) :
  map_get eqb key m = Some v -> In (key, v) m.
Proof.
  induction m as [|[k0 v0] m IH]; simpl; [discriminate|].
  destruct (eqb k0 key) eqn:E.
  - apply eqb_eq in E. subst. intros H. injection H as ->. now left.
  - intros H. right. now apply IH.
Qed.

Lemma map_get_distinct (key : K) (v : V) (m : list (K * V)) :
  NoDup (map fst m) -> In (key, v) m -> map_get eqb key m = Some v.
Proof.
  induction m as [|[k0 v0] m IH]; intros Hn Hin; [destruct Hin|].
  simpl in Hn. inversion Hn as [|? ? Hk Hm]; subst.
  simpl. destruct Hin as [Heq | Hin].
  - injection Heq as -> ->.
    assert (E : eqb key key = true) by now apply eqb_eq.
    now rewrite E.
  - destruct (eqb k0 key) eqn:E; [|now apply IH].
    apply eqb_eq in E. subst. exfalso. apply Hk.
    apply in_map_iff. exists (key, v). auto.
Qed.

End MapFacts.

Section WordFacts.
Import Tokenizer.

Lemma word_not_space (c : char16) : is_word c = true -> is_space c = false.
Proof.
  unfold is_word, is_space. intros H.
  repeat match goal with
         | |- context [N.eqb c ?n] =>
             let E := fresh in destruct (N.eqb_spec c n) as [E | E];
             [subst; discriminate H|]
         end.
  repeat match type of H with
         | context [N.eqb c ?n] =>
             let E := fresh in destruct (N.eqb_spec c n) as [E | E];
             [subst; reflexivity|]
         end.
  repeat match goal with
         | |- context [N.leb ?a ?b] =>
             let E := fresh in destruct (N.leb_spec a b) as [E | E]
         | H : context [N.leb ?a ?b] |- _ =>
             let E := fresh in destruct (N.leb_spec a b) as [E | E]
         end; simpl in *; try reflexivity; try discriminate; lia.
Qed.

Lemma word_not_punct (c : char16) : is_word c = true -> is_punct c = false.
Proof.
  unfold is_word, is_punct. intros H.
  repeat match goal with
         | |- context [N.eqb c ?n] =>
             let E := fresh in destruct (N.eqb_spec c n) as [E | E];
             [subst; discriminate H|]
         end.
  reflexivity.
Qed.

Lemma join_cons (w : jstring) (words : list jstring) :
  join (js " ") (w :: words) = w ++ tail_of words.
Proof. reflexivity. Qed.

Lemma tail_of_cons (w : jstring) (words : list jstring) :
  tail_of (w :: words) = 32%N :: w ++ tail_of words.
Proof. reflexivity. Qed.

Lemma is_a_word_inv (w : jstring) :
  is_a_word w = true ->
  exists c r, w = c :: r /\ is_word c = true
              /\ Forall (fun x => is_word x = true) (c :: r).
Proof.
  unfold is_a_word. destruct w as [|c r]; [discriminate|].
  intros H. exists c, r. split; [reflexivity|].
  assert (HF : Forall (fun x => is_word x = true) (c :: r))
    by (apply Forall_forall; apply forallb_forall; exact H).
  split; [now inversion HF | exact HF].
Qed.

Lemma takeWhile_word_tail (words : list jstring) :
  takeWhile is_word (tail_of words) = [].
Proof. destruct words; reflexivity. Qed.

Lemma takeWhile_space_word (w rest : jstring) :
  is_a_word w = true -> takeWhile is_space (w ++ rest) = [].
Proof.
  intros H. destruct (is_a_word_inv _ H) as (c & r & -> & Hc & _).
  simpl. now rewrite (word_not_space _ Hc).
Qed.

(** Tokenizing words that are joined by single spaces gives the words. *)
Lemma tokenize_tail (words : list jstring) :
  forallb is_a_word words = true -> tokenize (tail_of words) = words.
Proof.
  unfold tokenize. induction words as [|w words IH]; intros H; [reflexivity|].
  cbn [forallb] in H. apply andb_true_iff in H. destruct H as [Hw H].
  rewrite tail_of_cons, match_all_cons.
  change (token_len (32%N :: w ++ tail_of words)) with (@None nat).
  destruct (is_a_word_inv _ Hw) as (c & r & -> & Hc & HF).
  change ((c :: r) ++ tail_of words) with (c :: (r ++ tail_of words)).
  rewrite match_all_cons.
  assert (Ht : takeWhile is_word (c :: r ++ tail_of words) = c :: r).
  { change (c :: r ++ tail_of words) with ((c :: r) ++ tail_of words).
    rewrite (takeWhile_all_app _ _ HF), takeWhile_word_tail. apply app_nil_r. }
  unfold token_len. rewrite (word_not_punct _ Hc), Ht.
  cbn [List.length]. f_equal.
  - cbn [firstn]. f_equal. rewrite firstn_app, firstn_all, Nat.sub_diag.
    cbn [firstn]. apply app_nil_r.
  - rewrite skipn_app, skipn_all, Nat.sub_diag. cbn [skipn app]. now apply IH.
Qed.

Lemma tokenize_join (words : list jstring) :
  forallb is_a_word words = true -> tokenize (join (js " ") words) = words.
Proof.
  destruct words as [|w words]; [reflexivity|]. intros H.
  change (join (js " ") (w :: words)) with (skipn 1 (tail_of (w :: words))).
  rewrite <- (tokenize_tail _ H) at 2.
  unfold tokenize. rewrite tail_of_cons, match_all_cons.
  change (token_len (32%N :: w ++ tail_of words)) with (@None nat).
  reflexivity.
Qed.

(** A text without the code units that a replacement looks for is left
    as it is. *)
Lemma replace_all_none (m : matcher) (f : jstring -> jstring) (s : jstring) :
  (forall i, m (skipn i s) = None) -> replace_all m f s = s.
Proof.
  induction s as [|c r IH]; intros H; [reflexivity|].
  rewrite replace_all_cons. pose proof (H 0) as H0. cbn [skipn] in H0.
  rewrite H0. f_equal. apply IH.
  intros i. apply (H (S i)).
Qed.

Lemma plain_tail (words : list jstring) :
  forallb is_a_word words = true -> forallb plain (tail_of words) = true.
Proof.
  induction words as [|w words IH]; intros H; [reflexivity|].
  cbn [forallb] in H. apply andb_true_iff in H. destruct H as [Hw H].
  rewrite tail_of_cons. cbn [forallb]. rewrite forallb_app, (IH H), andb_true_r.
  change (plain 32%N) with true. cbn [andb].
  destruct (is_a_word_inv _ Hw) as (c & r & -> & _ & HF).
  apply forallb_forall. intros x Hx. unfold plain.
  now rewrite (proj1 (Forall_forall _ _) HF x Hx).
Qed.

Lemma plain_not_punct (c : char16) : plain c = true -> is_punct c = false.
Proof.
  unfold plain. intros H. apply orb_true_iff in H. destruct H as [H | H].
  - now apply word_not_punct.
  - apply N.eqb_eq in H. now subst.
Qed.

Lemma ws_punct_none (s : jstring) :
  forallb plain s = true -> ws_punct_len s = None.
Proof.
  intros H. unfold ws_punct_len.
  destruct (takeWhile is_space s) as [|c ws] eqn:E; [reflexivity|].
  destruct (skipn (List.length (c :: ws)) s) as [|d rest] eqn:Es; [reflexivity|].
  assert (Hd : plain d = true).
  { apply (proj1 (forallb_forall _ _) (forallb_skipn plain (List.length (c :: ws)) s H)).
    rewrite Es. now left. }
  now rewrite (plain_not_punct _ Hd).
Qed.

Lemma punct_ws_none (s : jstring) :
  forallb plain s = true -> punct_ws_len s = None.
Proof.
  intros H. unfold punct_ws_len. destruct s as [|c r]; [reflexivity|].
  cbn [forallb] in H. apply andb_true_iff in H. destruct H as [Hc _].
  now rewrite (plain_not_punct _ Hc).
Qed.

Lemma replace_ws_tail (words : list jstring) :
  forallb is_a_word words = true ->
  replace_all ws_run_len (fun _ => js " ") (tail_of words) = tail_of words.
Proof.
  induction words as [|w words IH]; intros H; [reflexivity|].
  cbn [forallb] in H. apply andb_true_iff in H. destruct H as [Hw H].
  rewrite tail_of_cons, replace_all_cons.
  unfold ws_run_len at 1. cbn [takeWhile]. change (is_space 32%N) with true.
  cbv iota. rewrite (takeWhile_space_word _ _ Hw). cbn [List.length firstn skipn app].
  change (js " ") with [32%N]. cbn [app]. f_equal.
  destruct (is_a_word_inv _ Hw) as (c & r & -> & _ & HF).
  clear Hw. induction HF as [|x l Hx HF IHl]; [now apply IH|].
  change ((x :: l) ++ tail_of words) with (x :: (l ++ tail_of words)).
  rewrite replace_all_cons. unfold ws_run_len at 1. cbn [takeWhile].
  rewrite (word_not_space _ Hx). now rewrite IHl.
Qed.

Lemma ends_with_word (words : list jstring) (w : jstring) :
  forallb is_a_word (w :: words) = true ->
  exists y d, w ++ tail_of words = y ++ [d] /\ is_word d = true.
Proof.
  revert w. induction words as [|w' words IH]; intros w H.
  - cbn [forallb] in H. apply andb_true_iff in H. destruct H as [Hw _].
    destruct (is_a_word_inv _ Hw) as (c & r & -> & _ & HF).
    destruct (exists_last (l := c :: r)) as (y & d & E); [discriminate|].
    exists y, d. cbn [tail_of flat_map]. rewrite app_nil_r. split; [exact E|].
    apply (proj1 (Forall_forall _ _) HF). rewrite E. apply in_or_app. right. now left.
  - cbn [forallb] in H. apply andb_true_iff in H. destruct H as [_ H].
    destruct (IH w' H) as (y & d & E & Hd).
    exists (w ++ 32%N :: y), d. split; [|exact Hd].
    rewrite tail_of_cons, E, <- app_assoc. reflexivity.
Qed.

Lemma trim_joined (words : list jstring) :
  forallb is_a_word words = true ->
  trim (join (js " ") words) = join (js " ") words.
Proof.
  destruct words as [|w words]; [reflexivity|]. intros H.
  rewrite join_cons. unfold trim.
  assert (Hs : trimStart (w ++ tail_of words) = w ++ tail_of words).
  { cbn [forallb] in H. apply andb_true_iff in H. destruct H as [Hw _].
    destruct (is_a_word_inv _ Hw) as (c & r & -> & Hc & _).
    unfold trimStart. simpl. now rewrite (word_not_space _ Hc). }
  rewrite Hs. destruct (ends_with_word _ _ H) as (y & d & -> & Hd).
  unfold trimEnd. rewrite rev_app_distr. simpl.
  rewrite (word_not_space _ Hd). simpl. now rewrite rev_involutive.
Qed.

Lemma plain_joined (words : list jstring) :
  forallb is_a_word words = true -> forallb plain (join (js " ") words) = true.
Proof.
  destruct words as [|w words]; [reflexivity|]. intros H.
  apply (forallb_skipn plain 1 (tail_of (w :: words))). now apply plain_tail.
Qed.

Lemma replace_ws_joined (words : list jstring) :
  forallb is_a_word words = true ->
  replace_all ws_run_len (fun _ => js " ") (join (js " ") words)
  = join (js " ") words.
Proof.
  destruct words as [|w words]; [reflexivity|]. intros H.
  pose proof (replace_ws_tail _ H) as Ht.
  rewrite tail_of_cons, replace_all_cons in Ht.
  cbn [forallb] in H. apply andb_true_iff in H. destruct H as [Hw H].
  unfold ws_run_len at 1 in Ht. cbn [takeWhile] in Ht.
  change (is_space 32%N) with true in Ht. cbv iota in Ht.
  rewrite (takeWhile_space_word _ _ Hw) in Ht.
  cbn [List.length firstn skipn app] in Ht. change (js " ") with [32%N] in Ht.
  cbn [app] in Ht. now injection Ht.
Qed.

(** Words joined by single spaces are normalized, and detokenized words
    are the words joined by single spaces. *)
Lemma normalize_joined (toLowerCase : jstring -> jstring) (words : list jstring) :
  forallb is_a_word words = true ->
  toLowerCase (join (js " ") words) = join (js " ") words ->
  normalizeText toLowerCase (join (js " ") words) = join (js " ") words.
Proof.
  intros H Hl. unfold normalizeText.
  now rewrite trim_joined, replace_ws_joined.
Qed.

Lemma detokenize_words (words : list jstring) :
  forallb is_a_word words = true -> detokenize words = join (js " ") words.
Proof.
  intros H. unfold detokenize.
  pose proof (plain_joined _ H) as Hp.
  rewrite (replace_all_none ws_punct_len); [rewrite (replace_all_none punct_ws_len)|].
  - now apply trim_joined.
  - intros i. apply punct_ws_none. now apply forallb_skipn.
  - intros i. apply ws_punct_none. now apply forallb_skipn.
Qed.

End WordFacts.

(** X21.  With a vocabulary whose ids are distinct, encoding a lower-case
    text of words separated by single spaces and decoding the ids gives
    back the words that the vocabulary knows (those it maps to an id that
    is no special token), separated by single spaces: known words survive
    the round trip, unknown words vanish. *)
Theorem X21_known_words_round_trip (toLowerCase : jstring -> jstring)
    (vocabData : option (list (jstring * Z))) (config : option Tokenizer.PartialConfig)
    (words : list jstring) :
  let this := Tokenizer.new_SimpleTokenizer vocabData config in
  forallb Tokenizer.is_a_word words = true ->
  toLowerCase (join (js " ") words) = join (js " ") words ->
  NoDup (map fst (Tokenizer.vocab this)) ->
  NoDup (map snd (Tokenizer.vocab this)) ->
  Tokenizer.decode this (Tokenizer.encode toLowerCase this (join (js " ") words) false)
    true
  = join (js " ") (List.filter (Tokenizer.known this) words).
Proof.
  intros this Hw Hl Hkeys Hids.
  assert (Hrev : forall w id, Tokenizer.map_get jstring_eqb w (Tokenizer.vocab this) = Some id ->
                              Tokenizer.map_get Z.eqb id (Tokenizer.reverseVocab this) = Some w).
  { intros w id Hget. apply (map_get_Some_In jstring_eqb jstring_eqb_eq) in Hget.
    unfold this, Tokenizer.new_SimpleTokenizer. cbv zeta.
    cbn [Tokenizer.reverseVocab]. fold this.
    assert (Hn : NoDup (map fst (map (fun entry : jstring * Z => (snd entry, fst entry))
                                    (Tokenizer.vocab this)))).
    { rewrite map_map. cbn [fst]. exact Hids. }
    unfold this in Hn. cbn [Tokenizer.vocab Tokenizer.new_SimpleTokenizer] in Hn.
    rewrite (map_of_entries_distinct Z.eqb Z.eqb_eq _ Hn).
    apply (map_get_distinct Z.eqb Z.eqb_eq _ _ _ Hn).
    apply in_map_iff. exists (w, id). split; [reflexivity | exact Hget]. }
  unfold Tokenizer.encode. cbv zeta.
  rewrite (normalize_joined toLowerCase _ Hw Hl), (tokenize_join _ Hw).
  unfold Tokenizer.decode. cbv zeta. cbn [andb]. rewrite map_map.
  assert (Htok : List.filter (fun t => negb (jstring_eqb t []))
                   (map (fun w =>
                           if Tokenizer.isSpecialToken this
                                (match Tokenizer.map_get jstring_eqb w (Tokenizer.vocab this) with
                                 | Some id => id
                                 | None => Tokenizer.unkTokenId (Tokenizer.config this)
                                 end)
                           then []
                           else match Tokenizer.map_get Z.eqb
                                        (match Tokenizer.map_get jstring_eqb w
                                                 (Tokenizer.vocab this) with
                                         | Some id => id
                                         | None => Tokenizer.unkTokenId (Tokenizer.config this)
                                         end) (Tokenizer.reverseVocab this) with
                                | Some t => t
                                | None => js "<unk>"
                                end) words)
                 = List.filter (Tokenizer.known this) words).
  { clear Hl. induction words as [|w words IH]; [reflexivity|].
    cbn [forallb] in Hw. apply andb_true_iff in Hw. destruct Hw as [Hw1 Hw].
    cbn [map List.filter]. unfold Tokenizer.known at 1.
    destruct (Tokenizer.map_get jstring_eqb w (Tokenizer.vocab this)) as [id|] eqn:Eg.
    - destruct (Tokenizer.isSpecialToken this id) eqn:Es; cbn [negb].
      + change (jstring_eqb [] []) with true. cbn [negb]. now apply IH.
      + rewrite (Hrev _ _ Eg).
        destruct w as [|c w]; [discriminate|].
        change (jstring_eqb (c :: w) []) with false. cbn [negb].
        f_equal. now apply IH.
    - assert (Eu : Tokenizer.isSpecialToken this
                     (Tokenizer.unkTokenId (Tokenizer.config this)) = true).
      { unfold Tokenizer.isSpecialToken. rewrite Z.eqb_refl. apply orb_true_r. }
      rewrite Eu. change (jstring_eqb [] []) with true. cbn [negb]. now apply IH. }
  rewrite Htok. apply detokenize_words.
  apply forallb_forall. intros w Hin. apply filter_In in Hin.
  now apply (proj1 (forallb_forall _ _) Hw).
Qed.

Lemma X21_round_trip_witness :
  Tokenizer.decode (Tokenizer.new_SimpleTokenizer (Some sample_vocabulary) None)
    (Tokenizer.encode KeywordFallback.ascii_lower
       (Tokenizer.new_SimpleTokenizer (Some sample_vocabulary) None)
       (join (js " ") [js "select"; js "recent"; js "datasets"]) false)
    true
  = join (js " ")
      (List.filter
         (Tokenizer.known (Tokenizer.new_SimpleTokenizer (Some sample_vocabulary) None))
         [js "select"; js "recent"; js "datasets"]).
Proof.
  apply (@X21_known_words_round_trip KeywordFallback.ascii_lower
           (Some sample_vocabulary) None [js "select"; js "recent"; js "datasets"]).
  - reflexivity.
  - reflexivity.
  - vm_compute.
    repeat (constructor;
            [simpl; intros H; repeat (destruct H as [H | H]; [discriminate H|]); exact H|]).
    constructor.
  - vm_compute.
    repeat (constructor;
            [simpl; intros H; repeat (destruct H as [H | H]; [discriminate H|]); exact H|]).
    constructor.
Defined.

(** The unknown word of a text vanishes in the round trip. *)
Example unknown_word_vanishes :
  Tokenizer.decode (Tokenizer.new_SimpleTokenizer (Some sample_vocabulary) None)
    (Tokenizer.encode KeywordFallback.ascii_lower
       (Tokenizer.new_SimpleTokenizer (Some sample_vocabulary) None)
       (js "select recent datasets") false)
    true
  = js "select datasets".
Proof. vm_compute. reflexivity. Qed.
(* ================================================================== *)
(** * Properties of the examples file *)
(* ================================================================== *)

Section ExamplesFileFacts.
Import ExamplesFile.

Lemma exec_all_from_skip (k : nat) (s : jstring) :
  exec_all_from k s = exec_all_from 0 (skipn k s).
Proof.
  revert k. induction s as [|c r IH]; intros k.
  - rewrite skipn_nil. reflexivity.
  - destruct k as [|k]; [reflexivity|]. simpl. apply IH.
Qed.

Lemma exec_all_cons (c : char16) (r : jstring) :
  exec_all_from 0 (c :: r) =
  match example_at (c :: r) with
  | Some (n, g1, g2) =>
      {| KeywordFallback.query := g1; KeywordFallback.sparql := trim g2 |}
      :: exec_all_from 0 (skipn (pred n) r)
  | None => exec_all_from 0 r
  end.
Proof.
  cbn [exec_all_from].
  destruct (example_at (c :: r)) as [[[n g1] g2]|]; [|reflexivity].
  now rewrite exec_all_from_skip.
Qed.

Lemma forallb_takeWhile (p : char16 -> bool) (s : jstring) :
  forallb p (takeWhile p s) = true.
Proof.
  induction s as [|c r IH]; simpl; [reflexivity|].
  destruct (p c) eqn:E; simpl; [now rewrite E|reflexivity].
Qed.

(** The text in front of the first occurrence of a literal does not hold
    the literal. *)
Lemma indexOf_first (p s : jstring) (j : nat) :
  p <> [] -> indexOf p s = Some j -> indexOf p (firstn j s) = None.
Proof.
  intros Hp. revert j. induction s as [|c s IH]; intros j.
  - destruct p; [contradiction|]. simpl. discriminate.
  - rewrite indexOf_cons. destruct (starts_with p (c :: s)) eqn:E.
    + intros H. injection H as <-. destruct p; [contradiction|]. reflexivity.
    + destruct (indexOf p s) as [j'|] eqn:Ej; [|discriminate].
      simpl. intros H. injection H as <-.
      cbn [firstn]. rewrite indexOf_cons.
      destruct (starts_with p (c :: firstn j' s)) eqn:E2.
      * apply (starts_with_ext _ _ (skipn j' s)) in E2.
        change ((c :: firstn j' s) ++ skipn j' s)
          with (c :: (firstn j' s ++ skipn j' s)) in E2.
        rewrite firstn_skipn in E2. congruence.
      * now rewrite (IH _ eq_refl).
Qed.

Lemma dropWhile_idempotent (p : char16 -> bool) (s : jstring) :
  dropWhile p (dropWhile p s) = dropWhile p s.
Proof.
  induction s as [|c r IH]; simpl; [reflexivity|].
  destruct (p c) eqn:E; [exact IH|]. simpl. now rewrite E.
Qed.

Lemma trimEnd_firstn (s : jstring) : exists n, trimEnd s = firstn n s.
Proof.
  unfold trimEnd. rewrite <- (skipn_takeWhile is_space (rev s)).
  rewrite skipn_rev, rev_involutive. eexists. reflexivity.
Qed.

Lemma trimStart_fixed (s : jstring) :
  trimStart s = s <-> match s with [] => True | c :: _ => is_space c = false end.
Proof.
  unfold trimStart. destruct s as [|c r]; simpl; [tauto|].
  destruct (is_space c) eqn:E; split; try reflexivity; try discriminate.
  intros H. exfalso.
  assert (Hl : forall t, List.length (dropWhile is_space t) <= List.length t).
  { induction t as [|a t IH]; simpl; [lia|]. destruct (is_space a); simpl; lia. }
  pose proof (Hl r) as Hr. rewrite H in Hr. simpl in Hr. lia.
Qed.

Lemma trimStart_trimEnd (s : jstring) :
  trimStart s = s -> trimStart (trimEnd s) = trimEnd s.
Proof.
  intros H. apply trimStart_fixed in H. apply trimStart_fixed.
  destruct (trimEnd_firstn s) as (n & ->).
  destruct s as [|c r]; [now rewrite firstn_nil|].
  destruct n; simpl; [exact I | exact H].
Qed.

Lemma trimEnd_idempotent (s : jstring) : trimEnd (trimEnd s) = trimEnd s.
Proof.
  unfold trimEnd. now rewrite rev_involutive, dropWhile_idempotent.
Qed.

(** Trimming twice is trimming once. *)
Lemma trim_idempotent (s : jstring) : trim (trim s) = trim s.
Proof.
  unfold trim.
  rewrite trimStart_trimEnd.
  - apply trimEnd_idempotent.
  - apply dropWhile_idempotent.
Qed.

Lemma trimEnd_length (s : jstring) : List.length (trimEnd s) <= List.length s.
Proof.
  destruct (trimEnd_firstn s) as (n & ->). rewrite length_firstn. lia.
Qed.

(** A trimmed text followed by a line feed trims to itself. *)
Lemma trim_app_nl (s : jstring) : trim s = s -> trim (s ++ nl) = s.
Proof.
  intros H.
  assert (Hs : trimStart s = s).
  { unfold trim in H. pose proof (trimEnd_length (trimStart s)) as Hl.
    rewrite H in Hl. unfold trimStart in *.
    pose proof (skipn_takeWhile is_space s) as Hk.
    assert (Hlen : List.length (dropWhile is_space s) = List.length s).
    { rewrite <- Hk in *. rewrite length_skipn in *. lia. }
    rewrite <- Hk in Hlen. rewrite length_skipn in Hlen.
    assert (H0 : List.length (takeWhile is_space s) = 0).
    { pose proof (takeWhile_skipn is_space s) as Ht.
      apply (f_equal (@List.length _)) in Ht. rewrite length_app, length_skipn in Ht.
      destruct s; simpl in *; [reflexivity|lia]. }
    rewrite <- Hk, H0. reflexivity. }
  assert (He : trimEnd s = s).
  { unfold trim in H. now rewrite Hs in H. }
  destruct s as [|a s]; [reflexivity|].
  unfold trim.
  assert (Hs' : trimStart ((a :: s) ++ nl) = (a :: s) ++ nl).
  { apply trimStart_fixed. apply trimStart_fixed in Hs. exact Hs. }
  rewrite Hs'. unfold trimEnd. rewrite rev_app_distr.
  change (rev nl ++ rev (a :: s)) with (10%N :: rev (a :: s)).
  cbn [dropWhile]. change (is_space 10%N) with true. cbv iota.
  exact He.
Qed.

(** What a successful attempt of the expression delivers. *)
Lemma example_at_sound (s : jstring) (n : nat) (g1 g2 : jstring) :
  example_at s = Some (n, g1, g2) ->
  g1 <> [] /\ no_char quote g1 = true /\ indexOf fence g2 = None.
Proof.
  unfold example_at.
  destruct (starts_with marker s); [|discriminate].
  set (r1 := skipn (List.length marker) s).
  destruct (takeWhile is_space r1) as [|w ws]; [discriminate|].
  destruct (dropWhile is_space r1) as [|q r2]; [discriminate|].
  destruct (q =? quote)%N; [|discriminate].
  pose proof (forallb_takeWhile not_quote r2) as Hq.
  destruct (takeWhile not_quote r2) as [|a g] eqn:Eg; [discriminate|].
  destruct (dropWhile not_quote r2) as [|c r3]; [discriminate|].
  destruct (indexOf fence_sparql_nl r3) as [i|]; [|discriminate].
  set (r4 := skipn (i + List.length fence_sparql_nl) r3).
  destruct (indexOf fence r4) as [j|] eqn:Ej; [|discriminate].
  intros H. injection H as _ <- <-.
  split; [discriminate|]. split; [exact Hq|].
  apply indexOf_first; [discriminate | exact Ej].
Qed.

Lemma exec_all_well_formed (s : jstring) :
  Forall (fun ex =>
            KeywordFallback.query ex <> []
            /\ no_char quote (KeywordFallback.query ex) = true
            /\ trim (KeywordFallback.sparql ex) = KeywordFallback.sparql ex
            /\ includes fence (KeywordFallback.sparql ex) = false)
         (exec_all_from 0 s).
Proof.
  remember (List.length s) as m eqn:Hm.
  revert s Hm. induction m as [m IH] using lt_wf_ind. intros s Hm.
  destruct s as [|c r]; [constructor|].
  rewrite exec_all_cons.
  destruct (example_at (c :: r)) as [[[n g1] g2]|] eqn:E.
  - apply example_at_sound in E. destruct E as (H1 & H2 & H3).
    constructor.
    + cbn [KeywordFallback.query KeywordFallback.sparql].
      repeat split; try assumption.
      * apply trim_idempotent.
      * unfold includes. now rewrite (indexOf_none_trim _ _ H3).
    + apply (IH (List.length (skipn (pred n) r))); [|reflexivity].
      rewrite length_skipn. subst m. simpl. lia.
  - apply (IH (List.length r)); [subst m; simpl; lia | reflexivity].
Qed.

(** No attempt succeeds at a code unit other than the asterisk. *)
Lemma exec_all_plain (g rest : jstring) :
  no_char asterisk g = true ->
  exec_all_from 0 (g ++ rest) = exec_all_from 0 rest.
Proof.
  induction g as [|c g IH]; [reflexivity|].
  unfold no_char. cbn [forallb]. intros H. apply andb_prop in H.
  destruct H as [Hc Hg]. apply negb_true_iff in Hc.
  change ((c :: g) ++ rest) with (c :: (g ++ rest)).
  rewrite exec_all_cons.
  assert (E : example_at (c :: g ++ rest) = None).
  { unfold example_at.
    change (starts_with marker (c :: g ++ rest))
      with ((asterisk =? c)%N && starts_with (js "*Pregunta:**") (g ++ rest)).
    rewrite N.eqb_sym, Hc. reflexivity. }
  rewrite E. now apply IH.
Qed.

Lemma starts_with_refl_app (p x : jstring) : starts_with p (p ++ x) = true.
Proof.
  induction p as [|a p IH]; simpl; [reflexivity|].
  now rewrite N.eqb_refl, IH.
Qed.

Lemma skipn_length_app (p x : jstring) : skipn (List.length p) (p ++ x) = x.
Proof. induction p as [|a p IH]; simpl; [reflexivity | exact IH]. Qed.

Lemma firstn_length_app (p x : jstring) : firstn (List.length p) (p ++ x) = p.
Proof. induction p as [|a p IH]; simpl; [reflexivity | now rewrite IH]. Qed.

Lemma takeWhile_until (p : char16 -> bool) (l : jstring) (c : char16) (x : jstring) :
  forallb p l = true -> p c = false ->
  takeWhile p (l ++ c :: x) = l /\ dropWhile p (l ++ c :: x) = c :: x.
Proof.
  intros Hl Hc. induction l as [|a l IH]; simpl.
  - now rewrite Hc.
  - simpl in Hl. apply andb_prop in Hl. destruct Hl as [Ha Hl].
    rewrite Ha. destruct (IH Hl) as [-> ->]. split; reflexivity.
Qed.

(** The first occurrence of a literal that begins with [a], behind a text
    without [a]. *)
Lemma indexOf_behind_plain (a : char16) (p l x : jstring) :
  no_char a l = true ->
  indexOf (a :: p) (l ++ (a :: p) ++ x) = Some (List.length l).
Proof.
  induction l as [|c l IH].
  - intros _. cbn [app List.length].
    change (a :: p ++ x) with ((a :: p) ++ x).
    destruct ((a :: p) ++ x) as [|b y] eqn:E; [discriminate|].
    rewrite indexOf_cons, <- E, starts_with_refl_app. reflexivity.
  - unfold no_char. cbn [forallb]. intros H. apply andb_prop in H.
    destruct H as [Hc Hl]. apply negb_true_iff in Hc.
    change ((c :: l) ++ (a :: p) ++ x) with (c :: (l ++ (a :: p) ++ x)).
    rewrite indexOf_cons. cbn [starts_with].
    rewrite N.eqb_sym, Hc. cbn [andb]. rewrite (IH Hl). reflexivity.
Qed.

(** A literal cannot begin inside [s] and end behind a code unit that it
    does not hold. *)
Lemma starts_with_stop (p s : jstring) (c : char16) (x : jstring) :
  no_char c p = true ->
  starts_with p (s ++ c :: x) = true -> starts_with p s = true.
Proof.
  revert s. induction p as [|a p IH]; intros s; [reflexivity|].
  unfold no_char. cbn [forallb]. intros H. apply andb_prop in H.
  destruct H as [Ha Hp]. apply negb_true_iff in Ha.
  destruct s as [|b s]; cbn [app starts_with].
  - rewrite Ha. discriminate.
  - intros H. apply andb_prop in H. destruct H as [-> H]. cbn [andb].
    now apply IH.
Qed.

Lemma indexOf_behind_stop (p s : jstring) (c : char16) (x : jstring) :
  no_char c p = true -> indexOf p s = None ->
  indexOf p (s ++ c :: p ++ x) = Some (S (List.length s)).
Proof.
  intros Hc. induction s as [|b s IH].
  - destruct p as [|a p]; [discriminate|]. intros _.
    cbn [app List.length]. rewrite indexOf_cons.
    assert (E : starts_with (a :: p) (c :: a :: p ++ x) = false).
    { cbn [starts_with]. unfold no_char in Hc. cbn [forallb] in Hc.
      apply andb_prop in Hc. destruct Hc as [Ha _].
      apply negb_true_iff in Ha. now rewrite Ha. }
    rewrite E.
    rewrite indexOf_cons.
    change (a :: (p ++ x)) with ((a :: p) ++ x).
    rewrite starts_with_refl_app. reflexivity.
  - rewrite indexOf_cons.
    destruct (starts_with p (b :: s)) eqn:E; [discriminate|].
    destruct (indexOf p s) eqn:Ei; [discriminate|]. intros _.
    change ((b :: s) ++ c :: p ++ x) with (b :: (s ++ c :: p ++ x)).
    rewrite indexOf_cons.
    destruct (starts_with p (b :: s ++ c :: p ++ x)) eqn:E2.
    + apply (starts_with_stop p (b :: s) c (p ++ x) Hc) in E2. congruence.
    + rewrite (IH eq_refl). reflexivity.
Qed.

(** The expression on an entry in the documented format. *)
Lemma example_at_entry (q n c rest : jstring) :
  q <> [] -> no_char quote q = true -> no_char backtick n = true ->
  indexOf fence c = None ->
  example_at (marker ++ js " " ++ [quote] ++ q ++ [quote] ++ n
              ++ fence_sparql_nl ++ c ++ nl ++ fence ++ rest)
  = Some (List.length (marker ++ js " " ++ [quote] ++ q ++ [quote] ++ n
                       ++ fence_sparql_nl ++ c ++ nl ++ fence),
          q, c ++ nl).
Proof.
  intros Hq Hquote Hn Hc. unfold example_at.
  rewrite starts_with_refl_app, skipn_length_app.
  change (js " " ++ [quote] ++ q ++ [quote] ++ n
          ++ fence_sparql_nl ++ c ++ nl ++ fence ++ rest)
    with (32%N :: quote :: (q ++ quote :: n
          ++ fence_sparql_nl ++ c ++ nl ++ fence ++ rest)).
  cbn [takeWhile dropWhile].
  change (is_space 32%N) with true. change (is_space quote) with false.
  cbv iota. rewrite N.eqb_refl.
  destruct (takeWhile_until not_quote q quote
              (n ++ fence_sparql_nl ++ c ++ nl ++ fence ++ rest) Hquote eq_refl)
    as [-> ->].
  destruct q as [|q0 q']; [contradiction|].
  change (fence_sparql_nl ++ c ++ nl ++ fence ++ rest)
    with ((backtick :: js "``sparql" ++ nl) ++ c ++ nl ++ fence ++ rest).
  change fence_sparql_nl with (backtick :: js "``sparql" ++ nl).
  rewrite (indexOf_behind_plain backtick (js "``sparql" ++ nl) n _ Hn).
  rewrite <- (length_app n (backtick :: js "``sparql" ++ nl)).
  rewrite (app_assoc n (backtick :: js "``sparql" ++ nl)).
  rewrite skipn_length_app.
  change (c ++ nl ++ fence ++ rest) with (c ++ @cons char16 10%N (fence ++ rest)).
  rewrite (indexOf_behind_stop fence c 10%N rest eq_refl Hc).
  f_equal. f_equal; [f_equal|].
  - rewrite !length_app. cbn [List.length]. simpl. lia.
  - change (c ++ @cons char16 10%N (fence ++ rest)) with (c ++ nl ++ fence ++ rest).
    rewrite app_assoc.
    replace (S (List.length c)) with (List.length (c ++ nl))
      by (rewrite length_app; simpl; lia).
    apply firstn_length_app.
Qed.

Lemma exec_all_entries (entries : list Entry) :
  forallb well_formed entries = true ->
  exec_all_from 0 (flat_map render_entry entries) = map example_of entries.
Proof.
  induction entries as [|e entries IH]; [reflexivity|].
  cbn [forallb flat_map map]. intros H. apply andb_prop in H.
  destruct H as [He Hes]. unfold well_formed in He.
  repeat (apply andb_prop in He; destruct He as [He ?]).
  assert (Hq : question e <> []) by (destruct (question e); discriminate).
  assert (Hc : indexOf fence (code e) = None).
  { unfold includes in *. destruct (indexOf fence (code e)); [discriminate | reflexivity]. }
  set (rest := flat_map render_entry entries) in *.
  set (matched := marker ++ js " " ++ [quote] ++ question e ++ [quote] ++ note e
                  ++ fence_sparql_nl ++ code e ++ nl ++ fence).
  assert (Hdoc : render_entry e ++ rest = matched ++ gap e ++ rest).
  { unfold render_entry, matched. now repeat rewrite <- app_assoc. }
  assert (Hat : example_at (matched ++ gap e ++ rest)
                = Some (List.length matched, question e, code e ++ nl)).
  { unfold matched. repeat rewrite <- app_assoc.
    apply example_at_entry; assumption. }
  rewrite Hdoc.
  assert (Hm : exists m0 ms, matched = m0 :: ms) by (do 2 eexists; reflexivity).
  destruct Hm as (m0 & ms & Em). rewrite Em in *.
  change ((m0 :: ms) ++ gap e ++ rest) with (m0 :: (ms ++ gap e ++ rest)) in *.
  rewrite exec_all_cons, Hat.
  cbn [List.length pred]. rewrite skipn_length_app.
  rewrite exec_all_plain by assumption. rewrite IH by assumption.
  f_equal. unfold example_of. f_equal.
  rewrite trim_app_nl; [reflexivity|]. now apply jstring_eqb_eq.
Qed.

Lemma exec_all_no_marker (s : jstring) :
  indexOf marker s = None -> exec_all_from 0 s = [].
Proof.
  induction s as [|c r IH]; [reflexivity|].
  rewrite indexOf_cons.
  destruct (starts_with marker (c :: r)) eqn:E; [discriminate|].
  destruct (indexOf marker r); [discriminate|]. intros _.
  rewrite exec_all_cons. unfold example_at. rewrite E. now apply IH.
Qed.

End ExamplesFileFacts.

(** X22.  Every example that [loadExamples] returns, whatever the file
    holds, has a question that is not empty and holds no double quote, and
    a query that is trimmed and holds no code fence. *)
Theorem X22_loaded_examples_are_well_formed (file : option jstring) :
  Forall (fun ex =>
            KeywordFallback.query ex <> []
            /\ ExamplesFile.no_char ExamplesFile.quote (KeywordFallback.query ex) = true
            /\ trim (KeywordFallback.sparql ex) = KeywordFallback.sparql ex
            /\ includes fence (KeywordFallback.sparql ex) = false)
         (ExamplesFile.loadExamples file).
Proof.
  destruct file as [content|]; [|constructor].
  apply exec_all_well_formed.
Qed.

(** X23.  A file in the documented format is read back entry by entry:
    behind an introduction without asterisk, entries whose question is not
    empty and quote-free, whose note holds no backtick, whose query is
    trimmed and fence-free and whose trailing text holds no asterisk give
    exactly their questions and queries, in the order of the file. *)
Theorem X23_documented_format_is_read_back
    (intro : jstring) (entries : list ExamplesFile.Entry) :
  ExamplesFile.no_char ExamplesFile.asterisk intro = true ->
  forallb ExamplesFile.well_formed entries = true ->
  ExamplesFile.loadExamples (Some (ExamplesFile.render intro entries))
  = map ExamplesFile.example_of entries.
Proof.
  intros Hi He. unfold ExamplesFile.loadExamples, ExamplesFile.render.
  rewrite exec_all_plain by exact Hi. now apply exec_all_entries.
Qed.

Lemma X23_read_back_witness :
  ExamplesFile.loadExamples
    (Some (ExamplesFile.render (js "# Examples" ++ nl) sample_entries))
  = map ExamplesFile.example_of sample_entries.
Proof.
  apply (X23_documented_format_is_read_back (js "# Examples" ++ nl) sample_entries);
    vm_compute; reflexivity.
Defined.

(** A question without a code block of its own takes the query of the
    next entry, whose question is lost. *)
Example orphan_question_takes_next_query :
  ExamplesFile.loadExamples (Some orphan_question_file)
  = [ {| KeywordFallback.query := js "first";
         KeywordFallback.sparql := js "SELECT 2" |} ].
Proof. vm_compute. reflexivity. Qed.

(** X24.  A file that cannot be read, or that holds the marker of a
    question nowhere, gives no example. *)
Theorem X24_no_marker_no_example (file : option jstring) :
  (forall content, file = Some content ->
                   includes ExamplesFile.marker content = false) ->
  ExamplesFile.loadExamples file = [].
Proof.
  intros H. destruct file as [content|]; [|reflexivity].
  specialize (H content eq_refl). unfold includes in H.
  apply exec_all_no_marker.
  destruct (indexOf ExamplesFile.marker content); [discriminate | reflexivity].
Qed.

Lemma X24_no_marker_witness :
  ExamplesFile.loadExamples (Some (js "# Examples: **none** yet")) = [].
Proof.
  apply (@X24_no_marker_no_example (Some (js "# Examples: **none** yet"))).
  intros content H. injection H as <-. vm_compute. reflexivity.
Defined.
(* ================================================================== *)
(** * Properties of the language-model service and of the health check *)
(* ================================================================== *)

Section ServiceFacts.
Import LlmService.

Variable toLowerCase : jstring -> jstring.
Variable env : ProcessEnv.
Variable fetch : jstring -> list (jstring * jstring) -> attempt Response.

Lemma createLLM_provider (l : LLM) :
  createLLM toLowerCase env None = Done l ->
  llm_provider l = getLLMProvider toLowerCase env.
Proof.
  unfold createLLM. cbn [nullish].
  destruct (getLLMProvider toLowerCase env);
    unfold createOllamaLLM, createOpenRouterLLM, createOpenAILLM,
      createGitHubModelsLLM.
  - intros H. injection H as <-. reflexivity.
  - destruct (OPENROUTER_API_KEY env) as [[|c r]|]; try discriminate.
    intros H. injection H as <-. reflexivity.
  - destruct (OPENAI_API_KEY env) as [[|c r]|]; try discriminate.
    intros H. injection H as <-. reflexivity.
  - destruct (GITHUB_TOKEN env) as [[|c r]|]; try discriminate.
    intros H. injection H as <-. reflexivity.
Qed.

Lemma available_createLLM :
  available (checkLLMAvailability toLowerCase env fetch) = true ->
  exists l, createLLM toLowerCase env None = Done l.
Proof.
  unfold checkLLMAvailability, createLLM. cbn [nullish].
  destruct (getLLMProvider toLowerCase env);
    unfold createOllamaLLM, createOpenRouterLLM, createOpenAILLM,
      createGitHubModelsLLM.
  - intros _. eexists. reflexivity.
  - destruct (OPENROUTER_API_KEY env) as [[|c r]|]; simpl; try discriminate.
    intros _. eexists. reflexivity.
  - destruct (OPENAI_API_KEY env) as [[|c r]|]; simpl; try discriminate.
    intros _. eexists. reflexivity.
  - destruct (GITHUB_TOKEN env) as [[|c r]|]; simpl; try discriminate.
    intros _. eexists. reflexivity.
Qed.

End ServiceFacts.

(** X25.  The health check answers with status 200 and the word ok in
    every environment and whatever the network does: the condition that
    guards its answer 503 tests the object that [checkLLMAvailability]
    resolves to, which is true as a condition also when its field
    [available] is false, and no call of its body throws. *)
Theorem X25_health_check_always_answers_ok
    (toLowerCase : jstring -> jstring) (env : LlmService.ProcessEnv)
    (fetch : jstring -> list (jstring * jstring)
             -> LlmService.attempt LlmService.Response) :
  LlmService.http_status (LlmService.GET toLowerCase env fetch) = 200
  /\ LlmService.health_status (LlmService.GET toLowerCase env fetch) = js "ok"
  /\ LlmService.health_error (LlmService.GET toLowerCase env fetch) = None
  /\ LlmService.health_provider (LlmService.GET toLowerCase env fetch)
     = LlmService.availability_provider
         (LlmService.checkLLMAvailability toLowerCase env fetch).
Proof.
  unfold LlmService.GET, LlmService.object_truthy. cbn [negb].
  repeat split.
  unfold LlmService.checkLLMAvailability. cbv zeta.
  cbn [LlmService.health_provider].
  destruct (LlmService.getLLMProvider toLowerCase env); cbv beta.
  - destruct (fetch _ _) as [r|e]; [destruct (negb (LlmService.ok r))|]; reflexivity.
  - destruct (negb _); reflexivity.
  - destruct (negb _); reflexivity.
  - destruct (LlmService.GITHUB_TOKEN env) as [[|c r]|]; try reflexivity.
    destruct (fetch _ _) as [r'|e]; [destruct (negb (LlmService.ok r'))|]; reflexivity.
Qed.

(** A provider without its key on a network that is down: the service
    reports it as not available, the health check as fine. *)
Example unavailable_provider_reported_ok :
  LlmService.available
    (LlmService.checkLLMAvailability KeywordFallback.ascii_lower
       openai_without_key network_down) = false
  /\ LlmService.error
       (LlmService.checkLLMAvailability KeywordFallback.ascii_lower
          openai_without_key network_down)
     = Some (js "OPENAI_API_KEY not configured")
  /\ LlmService.GET KeywordFallback.ascii_lower openai_without_key network_down
     = {| LlmService.http_status := 200;
          LlmService.health_status := js "ok";
          LlmService.health_provider := LlmService.openai;
          LlmService.health_model := Some (js "gpt-4o-mini");
          LlmService.health_error := None;
          LlmService.health_message := None |}.
Proof. vm_compute. repeat split. Qed.

(** X26.  A provider that [checkLLMAvailability] reports as available can
    be built: [createLLM] without a configuration returns a client, and it
    is the client of the provider that the report names. *)
Theorem X26_available_provider_can_be_built
    (toLowerCase : jstring -> jstring) (env : LlmService.ProcessEnv)
    (fetch : jstring -> list (jstring * jstring)
             -> LlmService.attempt LlmService.Response) :
  LlmService.available (LlmService.checkLLMAvailability toLowerCase env fetch) = true ->
  exists l,
    LlmService.createLLM toLowerCase env None = LlmService.Done l
    /\ LlmService.llm_provider l
       = LlmService.availability_provider
           (LlmService.checkLLMAvailability toLowerCase env fetch).
Proof.
  intros H. destruct (available_createLLM _ _ _ H) as (l & Hl).
  exists l. split; [exact Hl|].
  rewrite (createLLM_provider _ _ Hl).
  unfold LlmService.checkLLMAvailability. cbv zeta.
  destruct (LlmService.getLLMProvider toLowerCase env); cbv beta.
  - destruct (fetch _ _) as [r|e]; [destruct (negb (LlmService.ok r))|]; reflexivity.
  - destruct (negb _); reflexivity.
  - destruct (negb _); reflexivity.
  - destruct (LlmService.GITHUB_TOKEN env) as [[|c r]|]; try reflexivity.
    destruct (fetch _ _) as [r'|e]; [destruct (negb (LlmService.ok r'))|]; reflexivity.
Qed.

Lemma X26_available_provider_witness :
  exists l,
    LlmService.createLLM KeywordFallback.ascii_lower openai_with_key None
    = LlmService.Done l
    /\ LlmService.llm_provider l
       = LlmService.availability_provider
           (LlmService.checkLLMAvailability KeywordFallback.ascii_lower
              openai_with_key network_down).
Proof.
  apply (X26_available_provider_can_be_built KeywordFallback.ascii_lower
           openai_with_key network_down).
  vm_compute. reflexivity.
Defined.

(** X27.  The health check names the model that the service uses: when
    [createLLM] without a configuration returns a client, its model is the
    one the health check reports, unless the provider is the code-hosting
    one and its model variable is not set or empty. *)
Theorem X27_health_check_names_the_model_in_use
    (toLowerCase : jstring -> jstring) (env : LlmService.ProcessEnv)
    (fetch : jstring -> list (jstring * jstring)
             -> LlmService.attempt LlmService.Response)
    (l : LlmService.LLM) :
  LlmService.createLLM toLowerCase env None = LlmService.Done l ->
  LlmService.getLLMProvider toLowerCase env <> LlmService.github
  \/ truthy (LlmService.GITHUB_MODEL env) = true ->
  LlmService.health_model (LlmService.GET toLowerCase env fetch)
  = Some (LlmService.model l).
Proof.
  unfold LlmService.GET, LlmService.object_truthy, LlmService.createLLM.
  cbn [negb LlmService.nullish LlmService.health_model].
  destruct (LlmService.getLLMProvider toLowerCase env);
    unfold LlmService.createOllamaLLM, LlmService.createOpenRouterLLM,
      LlmService.createOpenAILLM, LlmService.createGitHubModelsLLM.
  - intros H _. injection H as <-. reflexivity.
  - destruct (LlmService.OPENROUTER_API_KEY env) as [[|c r]|]; try discriminate.
    intros H _. injection H as <-. reflexivity.
  - destruct (LlmService.OPENAI_API_KEY env) as [[|c r]|]; try discriminate.
    intros H _. injection H as <-. reflexivity.
  - destruct (LlmService.GITHUB_TOKEN env) as [[|c r]|]; try discriminate.
    intros H [Hne | Hm]; [congruence|]. injection H as <-.
    cbn [LlmService.model].
    destruct (LlmService.GITHUB_MODEL env) as [[|m ms]|]; try discriminate.
    reflexivity.
Qed.

Lemma X27_health_model_witness :
  LlmService.health_model
    (LlmService.GET KeywordFallback.ascii_lower openai_with_key network_down)
  = Some (js "gpt-4o-mini").
Proof.
  apply (@X27_health_check_names_the_model_in_use KeywordFallback.ascii_lower
           openai_with_key network_down openai_client).
  - vm_compute. reflexivity.
  - left. vm_compute. discriminate.
Defined.

(** With the code-hosting provider and no model variable the health check
    names one model and the service uses another. *)
Example health_check_names_another_model :
  LlmService.health_model
    (LlmService.GET KeywordFallback.ascii_lower github_without_model network_down)
  = Some (js "openai/gpt-4.1-mini")
  /\ exists l,
       LlmService.createLLM KeywordFallback.ascii_lower github_without_model None
       = LlmService.Done l
       /\ LlmService.model l = js "openai/gpt-4o-mini".
Proof.
  split; [vm_compute; reflexivity|].
  eexists. split; [vm_compute; reflexivity | reflexivity].
Qed.
(* ================================================================== *)
(** * Properties of the handler of the route *)
(* ================================================================== *)

Section ChunkFacts.
Import Route.

Lemma code_points_pair (c d : char16) (r : jstring) :
  code_points (c :: d :: r) =
  if is_high_surrogate c && is_low_surrogate d
  then [c; d] :: code_points r
  else [c] :: code_points (d :: r).
Proof. reflexivity. Qed.

Lemma code_points_concat_le (n : nat) (s : jstring) :
  List.length s <= n -> List.concat (code_points s) = s.
Proof.
  revert s. induction n as [|n IH]; intros s Hs.
  - destruct s; [reflexivity | simpl in Hs; lia].
  - destruct s as [|c [|d r]]; try reflexivity.
    rewrite code_points_pair.
    destruct (is_high_surrogate c && is_low_surrogate d).
    + change (List.concat ([c; d] :: code_points r))
        with (c :: d :: List.concat (code_points r)).
      rewrite IH; [reflexivity | simpl in *; lia].
    + change (List.concat ([c] :: code_points (d :: r)))
        with (c :: List.concat (code_points (d :: r))).
      rewrite IH; [reflexivity | simpl in *; lia].
Qed.

Lemma code_points_concat (s : jstring) : List.concat (code_points s) = s.
Proof. apply (@code_points_concat_le (List.length s) s). apply le_n. Qed.

(** Without surrogates the iterator yields the code units one by one. *)
Lemma code_points_units (s : jstring) :
  no_surrogate s = true -> code_points s = map (fun c => [c]) s.
Proof.
  induction s as [|c r IH]; [reflexivity|].
  unfold no_surrogate. cbn [forallb]. intros H. apply andb_prop in H.
  destruct H as [Hc Hr]. apply negb_true_iff, orb_false_iff in Hc.
  destruct Hc as [Hh _].
  destruct r as [|d r']; [reflexivity|].
  rewrite code_points_pair, Hh. cbn [andb].
  change (map (fun c0 => [c0]) (c :: d :: r'))
    with ([c] :: map (fun c0 : char16 => [c0]) (d :: r')).
  f_equal. now apply IH.
Qed.

Lemma no_char_In (c : char16) (s : jstring) :
  ExamplesFile.no_char c s = true <-> ~ In c s.
Proof.
  unfold ExamplesFile.no_char. induction s as [|a s IH]; simpl; [tauto|].
  rewrite andb_true_iff, negb_true_iff, N.eqb_neq, IH. intuition congruence.
Qed.

(** The first occurrence of a code unit of [pre] lies in [pre]. *)
Lemma indexOf_unit_In (c : char16) (pre rest : jstring) :
  In c pre -> exists i, indexOf [c] (pre ++ rest) = Some i /\ i < List.length pre.
Proof.
  induction pre as [|a pre IH]; [contradiction|].
  intros Hin. change ((a :: pre) ++ rest) with (a :: (pre ++ rest)).
  rewrite indexOf_cons. cbn [starts_with].
  destruct (c =? a)%N eqn:E.
  - exists 0. split; [reflexivity | simpl; lia].
  - apply N.eqb_neq in E. destruct Hin as [-> | Hin]; [congruence|].
    destruct (IH Hin) as (i & -> & Hi). exists (S i). split; [reflexivity | simpl; lia].
Qed.

Lemma up_to_first_fresh (c : char16) (pre rest : jstring) :
  ~ In c pre -> up_to_first [c] (pre ++ c :: rest) = pre ++ [c].
Proof.
  intros Hn. unfold up_to_first.
  change (pre ++ c :: rest) with (pre ++ [c] ++ rest).
  rewrite (indexOf_behind_plain c [] pre rest) by now apply no_char_In.
  rewrite Nat.add_1_r. rewrite app_assoc.
  replace (S (List.length pre)) with (List.length (pre ++ [c]))
    by (rewrite length_app; simpl; lia).
  apply firstn_length_app.
Qed.

Lemma up_to_first_seen (c : char16) (pre rest : jstring) :
  In c pre -> List.length (up_to_first [c] (pre ++ c :: rest)) <= List.length pre.
Proof.
  intros Hin. unfold up_to_first.
  destruct (indexOf_unit_In c pre (c :: rest) Hin) as (i & -> & Hi).
  rewrite length_firstn. lia.
Qed.

(** The accumulated texts of the code units of [s] behind [pre] are the
    running prefixes exactly when no code unit occurs twice. *)
Lemma accumulated_running (pre s : jstring) :
  NoDup pre ->
  (map (fun c => up_to_first [c] (pre ++ s)) s
   = map (fun k => firstn (S k) (pre ++ s)) (seq (List.length pre) (List.length s))
   <-> NoDup (pre ++ s)).
Proof.
  revert pre. induction s as [|c s IH]; intros pre Hpre.
  - rewrite app_nil_r. simpl. tauto.
  - cbn [map List.length seq].
    assert (Hg : firstn (S (List.length pre)) (pre ++ c :: s) = pre ++ [c]).
    { change (pre ++ c :: s) with (pre ++ [c] ++ s). rewrite app_assoc.
      replace (S (List.length pre)) with (List.length (pre ++ [c]))
        by (rewrite length_app; simpl; lia).
      apply firstn_length_app. }
    rewrite Hg.
    assert (Hre : pre ++ c :: s = (pre ++ [c]) ++ s) by now rewrite <- app_assoc.
    assert (Hlen : S (List.length pre) = List.length (pre ++ [c]))
      by (rewrite length_app; simpl; lia).
    destruct (in_dec N.eq_dec c pre) as [Hin | Hn].
    + split.
      * intros H. injection H as H _.
        pose proof (up_to_first_seen c pre s Hin) as Hl.
        rewrite H, length_app in Hl. simpl in Hl. lia.
      * intros H. exfalso. apply NoDup_remove_2 in H.
        apply H. apply in_or_app. now left.
    + assert (Hpre' : NoDup (pre ++ [c])).
      { apply NoDup_app; [exact Hpre | repeat constructor; simpl; tauto |].
        intros x Hx [<- | []]. contradiction. }
      rewrite (up_to_first_fresh c pre s Hn).
      rewrite Hre, Hlen. rewrite <- (IH (pre ++ [c]) Hpre').
      split.
      * intros H. injection H as H. exact H.
      * intros H. f_equal. exact H.
Qed.

End ChunkFacts.

(** X28.  The chunk events of a text carry its characters in order, so
    that their contents put together give the text; their accumulated
    fields end at the first occurrence of the character of the chunk, so
    that for a text without surrogates they are the texts streamed so far
    exactly when no code unit occurs twice in the text. *)
Theorem X28_chunks_spell_the_text (text : jstring) :
  flat_map Route.event_content (Route.chunk_events text) = text
  /\ (Route.no_surrogate text = true ->
      (map Route.event_accumulated (Route.chunk_events text)
       = Route.running_prefixes text
       <-> NoDup text)).
Proof.
  split.
  - unfold Route.chunk_events. rewrite flat_map_concat_map, map_map.
    cbn [Route.event_content]. rewrite map_id. apply code_points_concat.
  - intros Hs. unfold Route.chunk_events, Route.running_prefixes.
    rewrite map_map. cbn [Route.event_accumulated].
    rewrite (code_points_units _ Hs), map_map.
    apply (@accumulated_running [] text). constructor.
Qed.

Lemma X28_chunks_witness :
  map Route.event_accumulated (Route.chunk_events (js "SPARQL"))
  = Route.running_prefixes (js "SPARQL")
  <-> NoDup (js "SPARQL").
Proof.
  apply (proj2 (X28_chunks_spell_the_text (js "SPARQL"))).
  vm_compute. reflexivity.
Defined.

(** The fourth chunk of a keyword repeats the second accumulated text. *)
Example accumulated_of_a_keyword :
  map Route.event_accumulated (Route.chunk_events (js "SELECT"))
  = [js "S"; js "SE"; js "SEL"; js "SE"; js "SELEC"; js "SELECT"].
Proof. vm_compute. reflexivity. Qed.

Section HandlerFacts.
Import Route LlmService.
Context {num : Type} {NumOps : Number num}.
Variable env : Env num.
Variable penv : ProcessEnv.
Variable invoke : Client -> jstring -> attempt Answer.
Variable vocabularyFile : option jstring.
Variable toISOString : jstring.
Variable message_of : exn -> jstring.

(** What the handler sends has passed the sanitizer: it holds a prefix
    declaration keyword. *)
Lemma sanitized_declares_prefixes (response : jstring) :
  includes PREFIX (cleanSparqlResponse response) = true.
Proof.
  destruct (clean_stages response) as (body & -> & _ & _). cbv zeta.
  assert (H : includes PREFIX (if negb (includes PREFIX body)
                               then requiredPrefixes ++ body else body) = true).
  { destruct (includes PREFIX body) eqn:E; [exact E|]. reflexivity. }
  destruct (_ <? _); [now apply insert_keeps_includes_PREFIX | exact H].
Qed.

(** What the handler sends holds no code-fence marker. *)
Lemma sanitized_has_no_fence (response : jstring) :
  includes fence (cleanSparqlResponse response) = false.
Proof.
  destruct (clean_stages response) as (body & -> & Hf & _). cbv zeta.
  assert (H : indexOf fence (if negb (includes PREFIX body)
                             then requiredPrefixes ++ body else body) = None).
  { destruct (negb (includes PREFIX body)); [|assumption].
    apply indexOf_fence_behind; [reflexivity | assumption]. }
  match goal with
  | |- includes fence ?out = false => assert (H' : indexOf fence out = None)
  end.
  { destruct (_ <? _); [now apply indexOf_fence_inserted | exact H]. }
  unfold includes at 1. now rewrite H'.
Qed.

(** The source that a prompt names tells whether the knowledge base gave
    documents. *)
Lemma write_prompt_source (kb : QueryContext) (q : jstring) (w w' : World num)
    (prompt src : jstring) :
  write_prompt env vocabularyFile message_of kb q w = (Done (prompt, src), w') ->
  (src = js "knowledge-base" /\ 0 < totalDocs (context_metadata kb))
  \/ (src = js "legacy" /\ totalDocs (context_metadata kb) = 0).
Proof.
  unfold write_prompt.
  destruct (0 <? totalDocs (context_metadata kb)) eqn:E.
  - intros H. injection H as _ <- _. left. split; [reflexivity|].
    now apply Nat.ltb_lt.
  - apply Nat.ltb_ge in E.
    destruct (getRelevantExamplesWithEmbeddings env q 3 w) as [[l|x] w1];
      [|discriminate].
    destruct (map_option _ _); [|discriminate].
    intros H. injection H as _ <- _. right. split; [reflexivity | lia].
Qed.

(** The four kinds of answer of the handler. *)
Lemma POST_cases (body : attempt RequestBody) (w : World num) :
  (exists e, fst (POST env penv invoke vocabularyFile toISOString message_of body w)
             = failure e)
  \/ fst (POST env penv invoke vocabularyFile toISOString message_of body w)
     = Document 400 (error_payload (js "Query is required and must be a string") None)
  \/ (exists prompt src n,
        fst (POST env penv invoke vocabularyFile toISOString message_of body w)
        = Stream (start env penv invoke toISOString prompt src n
                    (getLLMProvider (toLowerCase env) penv))
        /\ ((src = js "knowledge-base" /\ 0 < n) \/ (src = js "legacy" /\ n = 0)))
  \/ (exists text src n p m,
        fst (POST env penv invoke vocabularyFile toISOString message_of body w)
        = Document 200 (sparql_payload (cleanSparqlResponse text) src n p m toISOString)).
Proof.
  unfold POST.
  destruct body as [b|e]; [|left; now exists e].
  destruct (body_query b) as [[| | |[|c q]| |]|]; try (right; left; reflexivity).
  destruct (getContextForQuery env (c :: q) w) as [[kb|x] w1];
    [|left; now eexists].
  destruct (write_prompt env vocabularyFile message_of kb (c :: q) w1)
    as [[[prompt src]|e] w2] eqn:Ew; [|left; now exists e].
  apply write_prompt_source in Ew.
  destruct (match body_stream b with Some v => json_truthy v | None => true end).
  - right. right. left. exists prompt, src, (totalDocs (context_metadata kb)).
    split; [reflexivity | exact Ew].
  - destruct (invokeLLM (toLowerCase env) penv invoke prompt None) as [r|e];
      [|left; now exists e].
    right. right. right. now do 5 eexists.
Qed.

Lemma sent_queries_failure (e : thrown) : sent_queries (failure e) = [].
Proof.
  destruct e as [message|]; [|reflexivity]. unfold failure.
  destruct (_ || _); reflexivity.
Qed.

Lemma sent_queries_chunks (text : jstring) (rest : list Event) :
  sent_queries (Stream (chunk_events text ++ rest)) = sent_queries (Stream rest).
Proof.
  unfold sent_queries, chunk_events. rewrite flat_map_app.
  induction (code_points text) as [|p l IH]; [reflexivity|exact IH].
Qed.

(** The answer of the language model names the configured provider. *)
Lemma invokeLLM_provider (prompt : jstring) (r : LLMResponse) :
  invokeLLM (toLowerCase env) penv invoke prompt None = Done r ->
  response_provider r = getLLMProvider (toLowerCase env) penv.
Proof.
  unfold invokeLLM.
  destruct (createLLM (toLowerCase env) penv None) as [l|e] eqn:El; [|discriminate].
  destruct (invoke (llm l) prompt) as [a|e]; [|discriminate].
  intros H. injection H as <-. cbn [response_provider].
  exact (createLLM_provider _ _ El).
Qed.

(** The events of a stream: the metadata, then the error, or the chunks
    and the two closing events. *)
Lemma start_shape (prompt src : jstring) (n : nat) :
  (exists msg,
     start env penv invoke toISOString prompt src n
       (getLLMProvider (toLowerCase env) penv)
     = [metadata_event src n (getLLMProvider (toLowerCase env) penv) toISOString;
        error_event msg])
  \/ (exists text m,
        start env penv invoke toISOString prompt src n
          (getLLMProvider (toLowerCase env) penv)
        = metadata_event src n (getLLMProvider (toLowerCase env) penv) toISOString
          :: chunk_events text
             ++ [done_event (cleanSparqlResponse text) src n
                   (getLLMProvider (toLowerCase env) penv) m;
                 all_done]).
Proof.
  unfold start.
  destruct (invokeLLM (toLowerCase env) penv invoke prompt None) as [r|e] eqn:Er.
  - right. rewrite (invokeLLM_provider _ Er). now do 2 eexists.
  - left. now eexists.
Qed.

End HandlerFacts.



(** X30.  Every query that the handler sends to the client, in the
    document of an answer without stream or in the closing event of a
    stream, holds a prefix declaration keyword and no code fence, whatever
    the request, the knowledge base and the language model deliver. *)
Theorem X30_every_query_sent_is_cleaned
    (num : Type) (NumOps : Number num)
    (env : Env num) (penv : LlmService.ProcessEnv)
    (invoke : LlmService.Client -> jstring -> LlmService.attempt LlmService.Answer)
    (vocabularyFile : option jstring) (toISOString : jstring)
    (message_of : exn -> jstring)
    (body : LlmService.attempt Route.RequestBody) (w : World num) :
  Forall (fun sparql => includes PREFIX sparql = true /\ includes fence sparql = false)
         (Route.sent_queries
            (fst (Route.POST env penv invoke vocabularyFile toISOString
                    message_of body w))).
Proof.
  destruct (POST_cases env penv invoke vocabularyFile toISOString message_of body w)
    as [(e & He) | [He | [(prompt & src & n & He & _) | (text & src & n & p & m & He)]]];
    rewrite He.
  - rewrite sent_queries_failure. constructor.
  - constructor.
  - destruct (start_shape env penv invoke toISOString prompt src n)
      as [(msg & ->) | (text & m & ->)].
    + constructor.
    + change (Route.sent_queries (Route.Stream (?a :: ?l)))
        with (Route.sent_queries (Route.Stream l)).
      rewrite sent_queries_chunks. cbn [Route.sent_queries flat_map app].
      constructor; [|constructor].
      split; [apply sanitized_declares_prefixes | apply sanitized_has_no_fence].
  - cbn [Route.sent_queries]. constructor; [|constructor].
    split; [apply sanitized_declares_prefixes | apply sanitized_has_no_fence].
Qed.
